(** * pydoctor: the value colorizer of [pydoctor.epydoc.markup._pyval_repr]

    A shallow embedding of [PyvalColorizer] (the layout state with its
    mark/restore, the output sink [_output], the value dispatch
    [_colorize], the expression-tree colorizer [_colorize_ast*] and the
    regular-expression colorizer [_colorize_re*]) together with the
    properties its specification states about it.

    Python text is a sequence of code points, bytes are a sequence of
    integers below 256, the colorizer's methods are transformers of the
    layout state that end normally or with a Python exception, and the
    recursion of the colorizer over a value is bounded by a call depth. *)

From Stdlib Require Import ZArith List Bool String Ascii Lia DecimalString.
Import ListNotations.
Open Scope Z_scope.

Set Implicit Arguments.
Set Warnings "-register-all".

(** ** Python text and bytes *)

(** A [str] is the list of its code points, a [bytes] the list of its
    byte values. *)
Definition pystr := list Z.
Definition pybytes := list Z.

(** The [str] literal written with the characters of [s]. *)
Definition py (s : string) : pystr :=
  map (fun a => Z.of_N (N_of_ascii a)) (list_ascii_of_string s).

Definition len {A} (s : list A) : Z := Z.of_nat (List.length s).

(** [s[:k]] and [s[k:]], with Python's reading of a negative index. *)
Definition slice_index {A} (s : list A) (k : Z) : nat :=
  if k <? 0 then Z.to_nat (Z.max 0 (len s + k)) else Z.to_nat k.

Definition slice_to {A} (s : list A) (k : Z) : list A :=
  firstn (slice_index s k) s.

Definition slice_from {A} (s : list A) (k : Z) : list A :=
  skipn (slice_index s k) s.

Definition NL : Z := 10.

(** [s.split('\n')]: never empty, one more segment than newlines. *)
Fixpoint split_newline (s : pystr) : list pystr :=
  match s with
  | [] => [[]]
  | c :: s' =>
      if c =? NL then [] :: split_newline s'
      else match split_newline s' with
           | seg :: rest => (c :: seg) :: rest
           | [] => [[c]]
           end
  end.

(** ['\n' in s] *)
Definition contains (c : Z) (s : list Z) : bool := existsb (Z.eqb c) s.

(** [' ' * n] *)
Definition spaces (n : Z) : pystr := repeat 32 (Z.to_nat n).

Definition hex_digit (d : Z) : Z := if d <? 10 then 48 + d else 87 + d.

Fixpoint hex_rev (fuel : nat) (n : Z) : list Z :=
  match fuel with
  | O => []
  | S fuel' =>
      if n <? 16 then [hex_digit n]
      else hex_digit (n mod 16) :: hex_rev fuel' (n / 16)
  end.

(** ['%0<width>x' % n] for [0 <= n]. *)
Definition format_x (width : nat) (n : Z) : pystr :=
  let digits := rev (hex_rev (S (Z.to_nat (Z.log2 n))) n) in
  repeat 48 (width - List.length digits) ++ digits.

(** [str(n)] and ['%d' % n] for an integer. *)
Definition str_int (n : Z) : pystr := py (NilZero.string_of_int (Z.to_int n)).


(** ** Codecs and escapes of the Python runtime *)

(** [s.encode('utf-8', errors='replace')], the [bytes(..., encoding='utf-8',
    errors='replace')] of the source: a lone surrogate becomes [?]. *)
Definition utf8_encode_char (c : Z) : pybytes :=
  if c <? 0x80 then [c]
  else if c <? 0x800 then [0xC0 + c / 64; 0x80 + c mod 64]
  else if (0xD800 <=? c) && (c <=? 0xDFFF) then [63]
  else if c <? 0x10000 then
    [0xE0 + c / 4096; 0x80 + (c / 64) mod 64; 0x80 + c mod 64]
  else
    [0xF0 + c / 262144; 0x80 + (c / 4096) mod 64; 0x80 + (c / 64) mod 64;
     0x80 + c mod 64].

Definition utf8_encode (s : pystr) : pybytes := flat_map utf8_encode_char s.

Definition in_range (lo hi b : Z) : bool := (lo <=? b) && (b <=? hi).

(** [b.decode()]: strict UTF-8; [None] stands for UnicodeDecodeError. *)
Fixpoint utf8_decode (b : pybytes) : option pystr :=
  match b with
  | [] => Some []
  | b0 :: r =>
      if b0 <? 0x80 then option_map (cons b0) (utf8_decode r)
      else if in_range 0xC2 0xDF b0 then
        match r with
        | b1 :: r1 =>
            if in_range 0x80 0xBF b1
            then option_map (cons ((b0 - 0xC0) * 64 + (b1 - 0x80)))
                            (utf8_decode r1)
            else None
        | _ => None
        end
      else if in_range 0xE0 0xEF b0 then
        match r with
        | b1 :: b2 :: r2 =>
            if in_range (if b0 =? 0xE0 then 0xA0 else 0x80)
                        (if b0 =? 0xED then 0x9F else 0xBF) b1
               && in_range 0x80 0xBF b2
            then option_map
                   (cons ((b0 - 0xE0) * 4096 + (b1 - 0x80) * 64 + (b2 - 0x80)))
                   (utf8_decode r2)
            else None
        | _ => None
        end
      else if in_range 0xF0 0xF4 b0 then
        match r with
        | b1 :: b2 :: b3 :: r3 =>
            if in_range (if b0 =? 0xF0 then 0x90 else 0x80)
                        (if b0 =? 0xF4 then 0x8F else 0xBF) b1
               && in_range 0x80 0xBF b2 && in_range 0x80 0xBF b3
            then option_map
                   (cons ((b0 - 0xF0) * 262144 + (b1 - 0x80) * 4096
                          + (b2 - 0x80) * 64 + (b3 - 0x80)))
                   (utf8_decode r3)
            else None
        | _ => None
        end
      else None
  end.

(** The escapes shared by the [unicode-escape] codec and [repr] of bytes:
    tab, newline and carriage return by name, the other characters below
    the space and from 0x7f on as [\xHH]. *)
Definition escape_control (c : Z) : pystr :=
  if c =? 9 then py "\t"
  else if c =? 10 then py "\n"
  else if c =? 13 then py "\r"
  else if (c <? 32) || (127 <=? c) then py "\x" ++ format_x 2 c
  else [c].

(** [decode_with_backslashreplace]: latin-1 decoding, then ASCII encoding
    with the [backslashreplace] handler. *)
Definition decode_with_backslashreplace (s : pybytes) : pystr :=
  flat_map (fun c => if c <? 128 then [c] else py "\x" ++ format_x 2 c) s.

(** [PyvalColorizer._str_escape] *)
Definition _str_escape (s : pystr) : pystr :=
  let enc (c : Z) : pystr :=
    if c =? 39 then py "\'"
    else if c <=? 0xff then
      (* c.encode('unicode-escape').decode('utf-8') *)
      if c =? 92 then py "\\" else escape_control c
    else [c] in
  flat_map enc s.

(** [PyvalColorizer._bytes_escape]: [repr(b)[2:-1]].  [repr] uses the
    double quote when the bytes hold a single quote and no double quote,
    and escapes the quote it uses and the backslash. *)
Definition _bytes_escape (b : pybytes) : pystr :=
  let quote := if contains 39 b && negb (contains 34 b) then 34 else 39 in
  flat_map (fun c => if (c =? quote) || (c =? 92) then [92; c]
                     else escape_control c) b.

(** A [Union[str, bytes]] argument. *)
Inductive text := Str (s : pystr) | Bytes (b : pybytes).

(** ** Markup nodes *)

(** The css classes of the colorizer; a tag that the class sets to [None]
    is [None] here too. *)
Inductive css :=
| variable_quote | variable_string | variable_link | variable_ellipsis
| variable_linewrap | variable_unknown | re_group | re_ref | re_op | re_flags.

Definition GROUP_TAG : option css := None.
Definition COMMA_TAG : option css := None.
Definition COLON_TAG : option css := None.
Definition CONST_TAG : option css := None.
Definition NUMBER_TAG : option css := None.
Definition QUOTE_TAG : option css := Some variable_quote.
Definition STRING_TAG : option css := Some variable_string.
Definition LINK_TAG : option css := Some variable_link.
Definition ELLIPSIS_TAG : option css := Some variable_ellipsis.
Definition LINEWRAP_TAG : option css := Some variable_linewrap.
Definition UNKNOWN_TAG : option css := Some variable_unknown.
Definition RE_CHAR_TAG : option css := None.
Definition RE_GROUP_TAG : option css := Some re_group.
Definition RE_REF_TAG : option css := Some re_ref.
Definition RE_OP_TAG : option css := Some re_op.
Definition RE_FLAGS_TAG : option css := Some re_flags.

(** The docutils nodes the colorizer puts in its result.  [Text] is the
    only one that is not an [Element]; an [inline] or [obj_reference] has
    its text as only child, and no child when the text is empty.  The five
    class-level nodes are objects of their own: the code tests one of them
    by identity ([is self.LINEWRAP]) and appends them without building a
    new node. *)
Inductive node :=
| Text (s : pystr)
| inline (s : pystr) (css_class : css)
| obj_reference (s : pystr) (refuid : pystr)
| ELLIPSIS
| LINEWRAP
| UNKNOWN_REPR
| WORD_BREAK_OPPORTUNITY
| NEWLINE.

(** [node.astext()] *)
Definition astext (n : node) : pystr :=
  match n with
  | Text s | inline s _ | obj_reference s _ => s
  | ELLIPSIS => py "..."
  | LINEWRAP => [8629]
  | UNKNOWN_REPR => py "??"
  | WORD_BREAK_OPPORTUNITY | NEWLINE => []
  end.

(** The css class of the [inline] that a class-level node is. *)
Definition marker_class (n : node) : css :=
  match n with
  | ELLIPSIS => variable_ellipsis
  | LINEWRAP => variable_linewrap
  | _ => variable_unknown
  end.

Definition is_Text (n : node) : bool :=
  match n with Text _ => true | _ => false end.

Definition is_LINEWRAP (n : node) : bool :=
  match n with LINEWRAP => true | _ => false end.

Definition is_NEWLINE (n : node) : bool :=
  match n with NEWLINE => true | _ => false end.

(** The node with its text replaced, as [_trim_result] does
    ([result[-1][-1] = nodes.Text(...)] for an element, [result[-1] =
    nodes.Text(...)] for a text).  The constructors [ELLIPSIS], [LINEWRAP]
    and [UNKNOWN_REPR] stand for the class-level nodes with the text that
    the class gives them; one of them with another text is written as the
    [inline] of its class with that text. *)
Definition with_text (n : node) (s : pystr) : node :=
  match n with
  | Text _ => Text s
  | inline _ c => inline s c
  | obj_reference _ r => obj_reference s r
  | _ => inline s (marker_class n)
  end.

(** ** The layout state *)

Record _MarkedColorizerState := {
  mark_length : nat;
  mark_charpos : Z;
  mark_lineno : Z;
  mark_linebreakok : bool;
  mark_score : Z
}.

Record _ColorizerState := {
  result : list node;
  charpos : Z;
  lineno : Z;
  linebreakok : bool;
  score : Z
}.

(** [_ColorizerState.__init__] *)
Definition new_state : _ColorizerState :=
  {| result := []; charpos := 0; lineno := 1; linebreakok := true; score := 0 |}.

Definition set_result (r : list node) (st : _ColorizerState) :=
  {| result := r; charpos := charpos st; lineno := lineno st;
     linebreakok := linebreakok st; score := score st |}.

Definition set_charpos (c : Z) (st : _ColorizerState) :=
  {| result := result st; charpos := c; lineno := lineno st;
     linebreakok := linebreakok st; score := score st |}.

Definition set_lineno (l : Z) (st : _ColorizerState) :=
  {| result := result st; charpos := charpos st; lineno := l;
     linebreakok := linebreakok st; score := score st |}.

Definition set_linebreakok (b : bool) (st : _ColorizerState) :=
  {| result := result st; charpos := charpos st; lineno := lineno st;
     linebreakok := b; score := score st |}.

Definition set_score (s : Z) (st : _ColorizerState) :=
  {| result := result st; charpos := charpos st; lineno := lineno st;
     linebreakok := linebreakok st; score := s |}.

(** [_ColorizerState.mark] *)
Definition mark (st : _ColorizerState) : _MarkedColorizerState :=
  {| mark_length := List.length (result st);
     mark_charpos := charpos st;
     mark_lineno := lineno st;
     mark_linebreakok := linebreakok st;
     mark_score := score st |}.

(** [_ColorizerState.restore]; [del self.result[mark.length:]] keeps the
    first [mark.length] nodes. *)
Definition restore (m : _MarkedColorizerState) (st : _ColorizerState)
  : _ColorizerState :=
  {| result := firstn (mark_length m) (result st);
     charpos := mark_charpos m;
     lineno := mark_lineno m;
     linebreakok := mark_linebreakok m;
     score := mark_score m |}.

(** ** Exceptions and the colorizer's monad *)

(** The exceptions of Python that the colorizer meets, and the two
    control-flow exceptions that it defines for itself. *)
Inductive error :=
| ValueError | re_error | TypeError | RuntimeError | IndexError
| KeyboardInterrupt | other_error (name : pystr).

Inductive exn :=
| _Maxlines
| _Linebreak
| error_ (e : error).

Coercion error_ : error >-> exn.

(** A method of the colorizer mutates the state it is given and returns
    [None] or raises: the state at the raise is the state the handler
    sees.  [OutOfFuel] is the bound on the depth of calls running out. *)
Inductive outcome :=
| Normal (st : _ColorizerState)
| Raised (e : exn) (st : _ColorizerState)
| OutOfFuel.

Definition M := _ColorizerState -> outcome.

Definition pass : M := Normal.

Definition raise (e : exn) : M := Raised e.

Definition seq (m k : M) : M :=
  fun st => match m st with
            | Normal st' => k st'
            | Raised e st' => Raised e st'
            | OutOfFuel => OutOfFuel
            end.

Notation "m ;; k" := (seq m k) (at level 100, k at level 200).

(** Reading a field of the state. *)
Definition read {A} (f : _ColorizerState -> A) (k : A -> M) : M :=
  fun st => k (f st) st.

Notation "'let*' x ':=' f 'in' k" := (read f (fun x => k))
  (at level 10, x name, k at level 200).

Definition modify (f : _ColorizerState -> _ColorizerState) : M :=
  fun st => Normal (f st).

(** [state.result.append(n)] *)
Definition append (n : node) : M :=
  modify (fun st => set_result (result st ++ [n]) st).

(** [state.score += d] *)
Definition add_score (d : Z) : M :=
  modify (fun st => set_score (score st + d) st).

(** [try: m  except <handles>: handler] *)
Definition try_except (m : M) (handles : exn -> bool) (handler : M) : M :=
  fun st => match m st with
            | Raised e st' => if handles e then handler st' else Raised e st'
            | o => o
            end.

(** [for i, x in enumerate(l): body(i, x)] *)
Fixpoint for_enumerate_from {A} (i : nat) (body : nat -> A -> M) (l : list A)
  : M :=
  match l with
  | [] => pass
  | x :: l' => body i x ;; for_enumerate_from (S i) body l'
  end.

Definition for_enumerate {A} (body : nat -> A -> M) (l : list A) : M :=
  for_enumerate_from 0 body l.

Definition when (b : bool) (m : M) : M := if b then m else pass.

(** ** The colorizer's configuration *)

Record PyvalColorizer := {
  linelen : option Z;
  maxlines : Z;
  self_linebreakok : bool
}.

(** ** The output sink *)

Section Output.

Variable self : PyvalColorizer.

(** The node for a segment that fits. *)
Definition fitting_element (segment : pystr) (css_class : option css)
  (link : bool) : node :=
  if link then obj_reference segment segment
  else match css_class with
       | Some c => inline segment c
       | None => Text segment
       end.

(** The node for the first part of a segment that is wrapped. *)
Definition wrapped_element (segment : pystr) (css_class : option css) : node :=
  match css_class with
  | Some c => inline segment c
  | None => Text segment
  end.

(** The start of a new line, run before every segment but the first. *)
Definition start_line : M :=
  fun st =>
    if maxlines self <? lineno st + 1 then Raised _Maxlines st
    else if negb (linebreakok st) then Raised _Linebreak st
    else Normal {| result := result st ++ [NEWLINE];
                   charpos := 0;
                   lineno := lineno st + 1;
                   linebreakok := linebreakok st;
                   score := score st |}.

Definition fits (segment : pystr) (link : bool) (st : _ColorizerState) : bool :=
  match linelen self with
  | None => true
  | Some n => (charpos st + len segment <=? n) || link
  end.

(** The loop of [_output] over [segments], a list that the loop itself
    extends: a segment that does not fit is cut, and the rest is inserted
    as the next segment.  [later] is [i > 0].  [fuel] bounds the number of
    iterations. *)
Fixpoint output_segments (fuel : nat) (segments : list pystr) (later : bool)
  (css_class : option css) (link : bool) : M :=
  match segments with
  | [] => pass
  | segment :: rest =>
      match fuel with
      | O => fun _ => OutOfFuel
      | S fuel' =>
          when later start_line ;;
          fun st =>
            if fits segment link st then
              (modify (fun st => set_charpos (charpos st + len segment) st) ;;
               append (fitting_element segment css_class link) ;;
               output_segments fuel' rest true css_class link) st
            else
              let split := match linelen self with
                           | Some n => n - charpos st
                           | None => 0
                           end in
              (modify (fun st =>
                 set_result (result st ++
                   [wrapped_element (slice_to segment split) css_class;
                    LINEWRAP]) st) ;;
               output_segments fuel' (slice_from segment split :: rest) true
                               css_class link) st
      end
  end.

(** Iterations that the loop can need: every iteration but the first
    starts a line or raises, and a line can be started [maxlines - lineno]
    times. *)
Definition output_fuel (segments : list pystr) (st : _ColorizerState) : nat :=
  (List.length segments + Z.to_nat (maxlines self - lineno st) + 1)%nat.

(** [PyvalColorizer._output] *)
Definition _output (s : text) (css_class : option css) (link : bool) : M :=
  fun st =>
    let s := match s with
             | Bytes b => decode_with_backslashreplace b
             | Str s => s
             end in
    let segments := split_newline s in
    output_segments (output_fuel segments st) segments false css_class link st.

End Output.

(** ** Python values and syntax trees *)

(** What [repr(pyval)] does on an object of a type that the colorizer has
    no case for. *)
Inductive repr_result :=
| repr_returns (s : pystr)
| repr_raises
| repr_KeyboardInterrupt.

(** What a call into the code of an object gives: a value, or the
    exception that it raises. *)
Inductive call_result (A : Type) :=
| call_returns (a : A)
| call_raises (e : error).

Arguments call_returns {A} a.
Arguments call_raises {A} e.

Inductive unaryop := ast_USub | ast_UAdd | ast_Not | ast_Invert | other_unaryop.

Inductive operator :=
| ast_Sub | ast_Add | ast_Mult | ast_Div | ast_FloorDiv | ast_Mod | ast_Pow
| ast_LShift | ast_RShift | ast_BitOr | ast_BitXor | ast_BitAnd | ast_MatMult
| other_operator.

Inductive boolop := ast_And | ast_Or | other_boolop.

(** The values that the colorizer tells apart, and the nodes of [ast].
    A float or a complex number is what the colorizer observes of it: its
    [str()] and whether it equals 0 or 1, hence [False] or [True].  A set
    and a dict are given in their iteration order.  An object of any other
    type is what the colorizer calls of it.  [PyObject] is an object of a
    class that keeps the comparison and the [str()] of [object]: it equals
    none of [False], [True], [None] and [NotImplemented], and it is its
    [repr()].  [PyObjectEq] is an object of a class with an [__eq__] of its
    own: what the test [pyval in (False, True, None, NotImplemented)]
    gives on it, its [str()], and its [repr()]. *)
Inductive pyval :=
| PyBool (b : bool)
| PyNone
| PyNotImplemented
| PyEllipsis
| PyInt (n : Z)
| PyFloat (str_ : pystr) (is_0_or_1 : bool)
| PyComplex (str_ : pystr) (is_0_or_1 : bool)
| PyStr (s : pystr)
| PyBytes (b : pybytes)
| PyTuple (elts : list pyval)
| PySet (elts : list pyval)
| PyFrozenset (elts : list pyval)
| PyDict (items : list (pyval * pyval))
| PyList (elts : list pyval)
| PyRePattern (pattern : text) (flags : Z)
| PyAst (node : ast)
| PyObject (repr : repr_result)
| PyObjectEq (in_constants : call_result bool) (str_ : call_result pystr)
    (repr : repr_result)
with ast :=
| ast_Num (n : pyval)
| ast_Str (s : pyval)
| ast_Bytes (s : pyval)
| ast_Constant (value : pyval)
| ast_NameConstant (value : pyval)
| ast_Ellipsis
| ast_UnaryOp (op : unaryop) (operand : ast)
| ast_BinOp (left_ : ast) (op : operator) (right_ : ast)
| ast_BoolOp (op : boolop) (values : list ast)
| ast_List (elts : list ast)
| ast_Tuple (elts : list ast)
| ast_Set (elts : list ast)
| ast_Dict (keys : list (option ast)) (values : list ast)
| ast_Name (id : pystr)
| ast_Attribute (value : ast) (attr : pystr)
| ast_Subscript (value : ast) (slice : ast)
| ast_Index (value : ast)
| ast_Slice (lower upper step : option ast)
| ast_ExtSlice (dims : list ast)
| ast_Call (func : ast) (args : list ast) (keywords : list (option pystr * ast))
| ast_Starred (value : ast)
| ast_keyword (arg : option pystr) (value : ast)
| ast_other (name : pystr) (fields : list ast).

(** ** Parsed regular expressions *)

Inductive category :=
| CATEGORY_DIGIT | CATEGORY_NOT_DIGIT | CATEGORY_SPACE | CATEGORY_NOT_SPACE
| CATEGORY_WORD | CATEGORY_NOT_WORD | other_category (name : pystr).

Inductive position :=
| AT_BEGINNING_STRING | AT_BEGINNING | AT_END | AT_BOUNDARY | AT_NON_BOUNDARY
| AT_END_STRING | other_position (name : pystr).

(** The first argument of SUBPATTERN. *)
Inductive group_id := group_None | group_int (n : Z) | group_str (name : pystr).

(** The [(op, args)] pairs of a [sre_parse.SubPattern], by [op]. *)
Inductive re_elt :=
| LITERAL (c : Z)
| ANY
| BRANCH (arg0 : option Z) (items : list (list re_elt))
| IN (args : list re_elt)
| CATEGORY (c : category)
| AT (p : position)
| MAX_REPEAT (minrpt maxrpt : Z) (item : list re_elt)
| MIN_REPEAT (minrpt maxrpt : Z) (item : list re_elt)
| SUBPATTERN (group : group_id) (add_flags del_flags : Z) (p : list re_elt)
| GROUPREF (n : Z)
| RANGE (lo hi : Z)
| NEGATE
| ASSERT (dir : Z) (p : list re_elt)
| ASSERT_NOT (dir : Z) (p : list re_elt)
| NOT_LITERAL (c : Z)
| other_op (name : pystr) (args : list (list re_elt)).

(** [sre_constants.MAXREPEAT] *)
Definition MAXREPEAT : Z := 4294967295.

(** [sorted(sre_parse.FLAGS.items())] *)
Definition sorted_FLAGS : list (Z * Z) :=
  [(76, 4); (97, 256); (105, 2); (109, 8); (115, 16); (116, 1); (117, 32);
   (120, 64)].

(** What [sre_parse.parse(pat, flags)] does: the parsed [data] with the
    [state.groupdict] (name to number), or the exception. *)
Inductive parse_result :=
| parse_returns (data : list re_elt) (groupdict : list (pystr * Z))
| parse_raises (e : error).

(** The libraries that the colorizer calls and this development does not
    look into: the parser of the [re] module, and [astor.to_source], which is
    [None] when it raises. *)
Record Host := {
  sre_parse_parse : pyval -> Z -> parse_result;
  astor_to_source : ast -> option pystr
}.

(** ** [GENERIC_OBJECT_RE] *)

Definition is_hex (c : Z) : bool :=
  in_range 48 57 c || in_range 97 102 c || in_range 65 70 c.

Definition lower (c : Z) : Z := if in_range 65 90 c then c + 32 else c.

Fixpoint take_while (f : Z -> bool) (s : list Z) : list Z :=
  match s with
  | c :: s' => if f c then c :: take_while f s' else []
  | [] => []
  end.

Fixpoint drop_while (f : Z -> bool) (s : list Z) : list Z :=
  match s with
  | c :: s' => if f c then drop_while f s' else s
  | [] => []
  end.

(** [GENERIC_OBJECT_RE.search(s)] followed by [groupdict()].  The pattern,
    compiled with [re.IGNORECASE], is: start of the string, [<], the group
    [descr] of any characters, [ at ], the group [addr] made of [0x] and
    one or more of [0-9a-f], [>], end of the string.  The end of the string
    is also matched before a final newline, and "any character" is no
    newline.  The string is read from its end, where the pattern leaves no
    choice. *)
Definition GENERIC_OBJECT_RE_search (s : pystr)
  : option (list (pystr * option pystr)) :=
  let r := match rev s with
           | c :: r' => if c =? NL then r' else c :: r'
           | [] => []
           end in
  match r with
  | gt :: r1 =>
      let digits := take_while is_hex r1 in
      match digits, drop_while is_hex r1 with
      | _ :: _, x :: zero :: sp2 :: t :: a :: sp1 :: r3 =>
          match rev r3 with
          | lt :: descr =>
              if (gt =? 62) && (lower x =? 120) && (zero =? 48) && (sp2 =? 32)
                 && (lower t =? 116) && (lower a =? 97) && (sp1 =? 32)
                 && (lt =? 60) && negb (contains NL descr)
              then Some [(py "descr", Some descr);
                         (py "addr", Some (zero :: x :: rev digits))]
              else None
          | [] => None
          end
      | _, _ => None
      end
  | [] => None
  end.

(** [d.get(key)] on a dict given by its items. *)
Fixpoint dict_get {V} (key : pystr) (d : list (pystr * V)) : option V :=
  match d with
  | [] => None
  | (k, v) :: d' => if list_eq_dec Z.eq_dec k key then Some v else dict_get key d'
  end.

(** [dict(items).get(key)] for integer keys: a later item replaces an
    earlier one with the same key. *)
Fixpoint groups_get (key : Z) (items : list (Z * pystr)) : option pystr :=
  match items with
  | [] => None
  | (k, v) :: items' =>
      match groups_get key items' with
      | Some v' => Some v'
      | None => if k =? key then Some v else None
      end
  end.

(** ** The colorizer *)

Definition is_layout_signal (e : exn) : bool :=
  match e with _Maxlines | _Linebreak => true | _ => false end.

Definition is_Linebreak (e : exn) : bool :=
  match e with _Linebreak => true | _ => false end.

Definition is_ValueError_or_re_error (e : exn) : bool :=
  match e with error_ ValueError | error_ re_error => true | _ => false end.

(** [pyval in (False, True, None, NotImplemented)] when it gives a value:
    the test compares with [==], and [0 == False], [1 == True], for every
    numeric type; an object with an [__eq__] of its own decides by it. *)
Definition in_builtin_constants (pyval : pyval) : bool :=
  match pyval with
  | PyBool _ | PyNone | PyNotImplemented => true
  | PyInt n => (n =? 0) || (n =? 1)
  | PyFloat _ b | PyComplex _ b => b
  | PyObjectEq (call_returns b) _ _ => b
  | _ => false
  end.

(** The exception of [pyval in (False, True, None, NotImplemented)], when
    the [__eq__] of the object raises one. *)
Definition in_builtin_constants_raises (pyval : pyval) : option error :=
  match pyval with
  | PyObjectEq (call_raises e) _ _ => Some e
  | _ => None
  end.

(** [str(pyval)] for a constant or a number, and for an object that the
    test takes for a constant. *)
Definition str (pyval : pyval) : pystr :=
  match pyval with
  | PyBool true => py "True"
  | PyBool false => py "False"
  | PyNone => py "None"
  | PyNotImplemented => py "NotImplemented"
  | PyInt n => str_int n
  | PyFloat s _ | PyComplex s _ => s
  | PyObjectEq _ (call_returns s) _ => s
  | _ => []
  end.

(** The exception of [str(pyval)], when it raises one. *)
Definition str_raises (pyval : pyval) : option error :=
  match pyval with
  | PyObjectEq _ (call_raises e) _ => Some e
  | _ => None
  end.

(** [repr(pyval)] in the last branch of [_colorize]. *)
Definition repr_of (pyval : pyval) : repr_result :=
  match pyval with
  | PyObject r | PyObjectEq _ _ r => r
  | PyEllipsis => repr_returns (py "Ellipsis")
  | PyNone => repr_returns (py "None")
  | PyNotImplemented => repr_returns (py "NotImplemented")
  | _ => repr_raises
  end.

(** [PyvalColorizer._is_ast_constant] *)
Definition _is_ast_constant (node : ast) : bool :=
  match node with
  | ast_Num _ | ast_Str _ | ast_Bytes _ | ast_Constant _ | ast_NameConstant _
  | ast_Ellipsis => true
  | _ => false
  end.

(** [PyvalColorizer._get_ast_constant_val] *)
Definition _get_ast_constant_val (node : ast) : pyval :=
  match node with
  | ast_Num n => n
  | ast_Str s | ast_Bytes s => s
  | ast_Constant value | ast_NameConstant value => value
  | ast_Ellipsis => PyEllipsis
  | _ => PyNone
  end.

(** The loop of [_colorize_ast_attribute] and of [node2dottedname]: the
    attributes from the outermost in, and the node the chain ends in. *)
Fixpoint attribute_chain (curr : ast) (parts : list pystr) : list pystr * ast :=
  match curr with
  | ast_Attribute value attr => attribute_chain value (parts ++ [attr])
  | _ => (parts, curr)
  end.

(** ['.'.join(parts)] *)
Fixpoint join_dot (parts : list pystr) : pystr :=
  match parts with
  | [] => []
  | [p] => p
  | p :: parts' => p ++ [46] ++ join_dot parts'
  end.

(** Modelled from the spec: [pydoctor.astutils.node2dottedname], which is
    not among the sources; the spec has the callee resolved "via
    attribute-chain analysis" to a dotted name, as [_colorize_ast_attribute]
    walks a chain of attribute accesses down to a name. *)
Definition node2dottedname (node : ast) : option (list pystr) :=
  match attribute_chain node [] with
  | (parts, ast_Name id) => Some (rev (parts ++ [id]))
  | _ => None
  end.

(** [node2dottedname(func) == ['re', 'compile']] *)
Definition is_re_compile (func : ast) : bool :=
  match node2dottedname func with
  | Some parts =>
      if list_eq_dec (list_eq_dec Z.eq_dec) parts [py "re"; py "compile"]
      then true else false
  | None => false
  end.

(** [inspect.BoundArguments] for the signature [(pattern, flags=0)]:
    [arguments.get('pattern')] and [arguments.get('flags')]. *)
Record BoundArguments := {
  get_pattern : option ast;
  get_flags : option ast
}.

Definition str_eqb (a b : pystr) : bool :=
  if list_eq_dec Z.eq_dec a b then true else false.

(** The value that [dict] keeps for [name] among the keywords that have a
    name: the last one. *)
Fixpoint kwarg (name : pystr) (keywords : list (option pystr * ast))
  : option ast :=
  match keywords with
  | [] => None
  | (arg, value) :: keywords' =>
      match kwarg name keywords' with
      | Some v => Some v
      | None =>
          match arg with
          | Some a => if str_eqb a name then Some value else None
          | None => None
          end
      end
  end.

Definition unexpected_keyword (keywords : list (option pystr * ast)) : bool :=
  existsb (fun kw => match fst kw with
                     | Some a => negb (str_eqb a (py "pattern")
                                       || str_eqb a (py "flags"))
                     | None => false
                     end) keywords.

Definition is_some {A} (o : option A) : bool :=
  match o with Some _ => true | None => false end.

(** Modelled from the spec: [pydoctor.astutils.bind_args] on
    [RE_COMPILE_SIGNATURE], which is not among the sources; the spec has the
    arguments of the call "bind successfully against that function's
    declared parameter signature", here [(pattern, flags=0)]: positional
    arguments in order, named ones by name, [**] arguments left out, and
    [None] (TypeError) for a missing [pattern], an unknown name, an argument
    given twice or too many arguments. *)
Definition bind_args (args : list ast) (keywords : list (option pystr * ast))
  : option BoundArguments :=
  let kw_pattern := kwarg (py "pattern") keywords in
  let kw_flags := kwarg (py "flags") keywords in
  if unexpected_keyword keywords then None
  else match args with
       | [] => match kw_pattern with
               | Some p => Some {| get_pattern := Some p; get_flags := kw_flags |}
               | None => None
               end
       | [p] => if is_some kw_pattern then None
                else Some {| get_pattern := Some p; get_flags := kw_flags |}
       | [p; f] => if is_some kw_pattern || is_some kw_flags then None
                   else Some {| get_pattern := Some p; get_flags := Some f |}
       | _ => None
       end.

Definition S_ (s : string) : text := Str (py s).

(** [b = functools.partial(bytes, encoding='utf-8', errors='replace')] *)
Definition b_ (s : string) : pybytes := utf8_encode (py s).

Section Colorizer.

Variable host : Host.
Variable self : PyvalColorizer.

Abbreviation output := (_output self).

(** [PyvalColorizer._insert_comma] *)
Definition _insert_comma (indent : Z) : M :=
  let* linebreakok_ := linebreakok in
  if linebreakok_ then
    output (S_ ",") COMMA_TAG false ;;
    output (Str ([NL] ++ spaces indent)) None false
  else
    output (S_ ", ") COMMA_TAG false.

(** [PyvalColorizer._multiline], [func] being [func(pyval, state, **kwargs)]. *)
Definition _multiline (func : M) : M :=
  let* linebreakok_ := linebreakok in
  let* mark_ := mark in
  try_except
    (modify (set_linebreakok false) ;;
     func ;;
     modify (set_linebreakok linebreakok_))
    is_Linebreak
    (if negb linebreakok_ then raise _Linebreak
     else modify (restore mark_) ;; func).

(** [PyvalColorizer._colorize_str]; [kind] is the type of [pyval], [Str]
    or [Bytes], and [str_func] turns a [str] into that type. *)
Definition _colorize_str (kind : list Z -> text) (pyval prefix : list Z)
  (escape_fcn : list Z -> pystr) (str_func : pystr -> list Z) : M :=
  let* linebreakok_ := linebreakok in
  let quote := if contains NL pyval && linebreakok_
               then str_func (py "'''") else str_func (py "'") in
  let lines := if linebreakok_ then split_newline pyval else [pyval] in
  output (kind (prefix ++ quote)) QUOTE_TAG false ;;
  for_enumerate (fun i line =>
      when (0 <? i)%nat (output (kind (str_func [NL])) None false) ;;
      output (Str (escape_fcn line)) STRING_TAG false)
    lines ;;
  output (kind quote) QUOTE_TAG false.

(** [PyvalColorizer._colorize_ast_generic] *)
Definition _colorize_ast_generic (pyval : ast) : M :=
  match astor_to_source host pyval with
  | None => append UNKNOWN_REPR
  | Some source => output (Str source) None false
  end.

(** [PyvalColorizer._colorize_ast_name] *)
Definition _colorize_ast_name (id : pystr) : M :=
  output (Str id) LINK_TAG true.

(** [PyvalColorizer._colorize_ast_attribute] *)
Definition _colorize_ast_attribute (pyval : ast) : M :=
  match attribute_chain pyval [] with
  | (parts, ast_Name id) =>
      output (Str (join_dot (rev (parts ++ [id])))) LINK_TAG true
  | _ => _colorize_ast_generic pyval
  end.

(** [PyvalColorizer._colorize_re_flags] *)
Definition _colorize_re_flags (flags : Z) : M :=
  if flags =? 0 then pass
  else
    let flags_list := flat_map (fun cn => if Z.land (snd cn) flags =? 0
                                          then [] else [fst cn])
                               sorted_FLAGS in
    output (Str (py "(?" ++ flags_list ++ py ")")) RE_FLAGS_TAG false.

(** *** The bodies of the recursive methods

    The three recursive methods call each other through [self]; their
    bodies are written over those calls. *)
Section Bodies.

Variable self_colorize : pyval -> M.
Variable self_colorize_ast : ast -> M.
Variable self_colorize_re_tree : list re_elt -> bool -> list (Z * pystr) -> M.

(** [PyvalColorizer._colorize_iter] *)
Definition _colorize_iter (pyval : list pyval) (prefix suffix : option text)
  : M :=
  match prefix with
  | Some p => output p GROUP_TAG false
  | None => pass
  end ;;
  let* indent := charpos in
  for_enumerate (fun i elt =>
      when (1 <=? i)%nat (_insert_comma indent) ;;
      append WORD_BREAK_OPPORTUNITY ;;
      self_colorize elt)
    pyval ;;
  match suffix with
  | Some s => output s GROUP_TAG false
  | None => pass
  end.

(** [PyvalColorizer._colorize_dict] *)
Definition _colorize_dict (items : list (pyval * pyval)) (prefix suffix : text)
  : M :=
  output prefix GROUP_TAG false ;;
  let* indent := charpos in
  for_enumerate (fun i item =>
      when (1 <=? i)%nat
        (let* linebreakok_ := linebreakok in
         if linebreakok_ then
           output (S_ ",") COMMA_TAG false ;;
           output (Str ([NL] ++ spaces indent)) None false
         else
           output (S_ ", ") COMMA_TAG false) ;;
      append WORD_BREAK_OPPORTUNITY ;;
      self_colorize (fst item) ;;
      output (S_ ": ") COLON_TAG false ;;
      self_colorize (snd item))
    items ;;
  output suffix GROUP_TAG false.

(** [PyvalColorizer._colorize_ast_constant]; [val != ...] *)
Definition _colorize_ast_constant (pyval : ast) : M :=
  let val := _get_ast_constant_val pyval in
  match val with
  | PyEllipsis => output (S_ "...") ELLIPSIS_TAG false
  | _ => self_colorize val
  end.

(** [PyvalColorizer._colorize_ast_unary_op] *)
Definition _colorize_ast_unary_op (op : unaryop) (operand : ast) : M :=
  match op with
  | ast_USub => output (S_ "-") None false
  | ast_UAdd => output (S_ "+") None false
  | ast_Not => output (S_ "not ") None false
  | ast_Invert => output (S_ "~") None false
  | other_unaryop => pass
  end ;;
  self_colorize (PyAst operand).

(** [PyvalColorizer._colorize_ast_binary_op] *)
Definition _colorize_ast_binary_op (pyval : ast) (left_ : ast) (op : operator)
  (right_ : ast) : M :=
  self_colorize (PyAst left_) ;;
  match op with
  | ast_Sub => output (S_ "-") None false
  | ast_Add => output (S_ "+") None false
  | ast_Mult => output (S_ "*") None false
  | ast_Div => output (S_ "/") None false
  | ast_FloorDiv => output (S_ "//") None false
  | ast_Mod => output (S_ "%") None false
  | ast_Pow => output (S_ "**") None false
  | ast_LShift => output (S_ "<<") None false
  | ast_RShift => output (S_ ">>") None false
  | ast_BitOr => output (S_ "|") None false
  | ast_BitXor => output (S_ "^") None false
  | ast_BitAnd => output (S_ "&") None false
  | ast_MatMult => output (S_ "@") None false
  | other_operator => _colorize_ast_generic pyval
  end ;;
  self_colorize (PyAst right_).

(** [PyvalColorizer._colorize_ast_bool_op] *)
Definition _colorize_ast_bool_op (op : boolop) (values : list ast) : M :=
  let _maxindex := len values - 1 in
  for_enumerate (fun index value =>
      self_colorize (PyAst value) ;;
      when (negb (Z.of_nat index =? _maxindex))
        match op with
        | ast_And => output (S_ " and ") None false
        | ast_Or => output (S_ " or ") None false
        | other_boolop => pass
        end)
    values.

(** [PyvalColorizer._colorize_ast_subscript] *)
Definition _colorize_ast_subscript (value : ast) (slice : ast) : M :=
  self_colorize (PyAst value) ;;
  let sub := match slice with ast_Index v => v | _ => slice end in
  output (S_ "[") GROUP_TAG false ;;
  match sub with
  | ast_Tuple elts =>
      _multiline (_colorize_iter (map PyAst elts) None None)
  | ast_Slice _ _ _ | ast_ExtSlice _ =>
      append WORD_BREAK_OPPORTUNITY ;;
      _colorize_ast_generic sub
  | _ =>
      append WORD_BREAK_OPPORTUNITY ;;
      self_colorize_ast sub
  end ;;
  output (S_ "]") GROUP_TAG false.

Definition keyword_nodes (keywords : list (option pystr * ast)) : list pyval :=
  map (fun kw => PyAst (ast_keyword (fst kw) (snd kw))) keywords.

(** [PyvalColorizer._colorize_ast_call_generic] *)
Definition _colorize_ast_call_generic (func : ast) (args : list ast)
  (keywords : list (option pystr * ast)) : M :=
  self_colorize_ast func ;;
  output (S_ "(") GROUP_TAG false ;;
  let* indent := charpos in
  _multiline (_colorize_iter (map PyAst args) None None) ;;
  match keywords with
  | [] => pass
  | _ =>
      match args with
      | [] => pass
      | _ => _insert_comma indent
      end ;;
      _multiline (_colorize_iter (keyword_nodes keywords) None None)
  end ;;
  output (S_ ")") GROUP_TAG false.

(** [PyvalColorizer._colorize_re_pattern] *)
Definition _colorize_re_pattern (pat : pyval) (flags : Z) : M :=
  match (match pat with
         | PyBytes b => option_map PyStr (utf8_decode b)
         | _ => Some pat
         end) with
  | None => raise ValueError (* UnicodeDecodeError *)
  | Some pat =>
      match sre_parse_parse host pat flags with
      | parse_raises e => raise e
      | parse_returns data groupdict =>
          let groups := map (fun kv => (snd kv, fst kv)) groupdict in
          self_colorize_re_tree data true groups
      end
  end.

(** [PyvalColorizer._colorize_re] *)
Definition _colorize_re (pat : text) (flags : Z) : M :=
  output (S_ "re.compile(r'") None false ;;
  _colorize_re_flags flags ;;
  _colorize_re_pattern (match pat with Str s => PyStr s | Bytes b => PyBytes b end)
                       flags ;;
  output (S_ "')") None false.

(** [PyvalColorizer._colorize_ast_re] *)
Definition _colorize_ast_re (args_ : BoundArguments) (func : ast)
  (args : list ast) (keywords : list (option pystr * ast)) : M :=
  match get_pattern args_ with
  | Some ast_pattern =>
      if _is_ast_constant ast_pattern then
        self_colorize_ast func ;;
        output (S_ "(") GROUP_TAG false ;;
        let* indent := charpos in
        output (S_ "r") None false ;;
        output (S_ "'") QUOTE_TAG false ;;
        let pat := _get_ast_constant_val ast_pattern in
        _colorize_re_pattern pat 0 ;;
        output (S_ "'") QUOTE_TAG false ;;
        match get_flags args_ with
        | Some ast_flags =>
            _insert_comma indent ;;
            self_colorize_ast ast_flags
        | None => pass
        end ;;
        output (S_ ")") GROUP_TAG false
      else _colorize_ast_call_generic func args keywords
  | None => _colorize_ast_call_generic func args keywords
  end.

(** The call [self._colorize_ast_call_generic(args, node, state)] of the
    handler in [_colorize_ast_call]: the method takes [(node, state)], so
    the call with one argument more raises TypeError before the method
    runs. *)
Definition _colorize_ast_call_generic_3 : M := raise TypeError.

(** [PyvalColorizer._colorize_ast_call] *)
Definition _colorize_ast_call (func : ast) (args : list ast)
  (keywords : list (option pystr * ast)) : M :=
  if is_re_compile func then
    match bind_args args keywords with
    | None => _colorize_ast_call_generic func args keywords
    | Some args_ =>
        let* mark_ := mark in
        try_except
          (_colorize_ast_re args_ func args keywords)
          is_ValueError_or_re_error
          (modify (restore mark_) ;;
           _colorize_ast_call_generic_3)
    end
  else _colorize_ast_call_generic func args keywords.

(** [PyvalColorizer._colorize_ast] *)
Definition _colorize_ast_def (pyval : ast) : M :=
  if _is_ast_constant pyval then _colorize_ast_constant pyval
  else match pyval with
  | ast_UnaryOp op operand => _colorize_ast_unary_op op operand
  | ast_BinOp left_ op right_ => _colorize_ast_binary_op pyval left_ op right_
  | ast_BoolOp op values => _colorize_ast_bool_op op values
  | ast_List elts =>
      _multiline (_colorize_iter (map PyAst elts) (Some (S_ "[")) (Some (S_ "]")))
  | ast_Tuple elts =>
      _multiline (_colorize_iter (map PyAst elts) (Some (S_ "(")) (Some (S_ ")")))
  | ast_Set elts =>
      _multiline (_colorize_iter (map PyAst elts) (Some (S_ "set([")) (Some (S_ "])")))
  | ast_Dict keys values =>
      let items := combine (map (fun k => match k with
                                          | Some n => PyAst n
                                          | None => PyNone
                                          end) keys)
                           (map PyAst values) in
      _multiline (_colorize_dict items (S_ "{") (S_ "}"))
  | ast_Name id => _colorize_ast_name id
  | ast_Attribute _ _ => _colorize_ast_attribute pyval
  | ast_Subscript value slice => _colorize_ast_subscript value slice
  | ast_Call func args keywords => _colorize_ast_call func args keywords
  | ast_Starred value =>
      output (S_ "*") None false ;;
      self_colorize_ast value
  | ast_keyword arg value =>
      match arg with
      | Some a => output (Str a) None false ;; output (S_ "=") None false
      | None => output (S_ "**") None false
      end ;;
      self_colorize_ast value
  | _ => _colorize_ast_generic pyval
  end.

(** [PyvalColorizer._colorize] *)
Definition _colorize_def (pyval : pyval) : M :=
  add_score 1 ;;
  match in_builtin_constants_raises pyval with
  | Some e => raise e
  | None =>
  if in_builtin_constants pyval then
    match str_raises pyval with
    | Some e => raise e
    | None => output (Str (str pyval)) CONST_TAG true
    end
  else match pyval with
  | PyBool _ | PyInt _ | PyFloat _ _ | PyComplex _ _ =>
      output (Str (str pyval)) NUMBER_TAG false
  | PyStr s => _colorize_str Str s [] _str_escape (fun s => s)
  | PyBytes b =>
      _colorize_str Bytes b (utf8_encode (py "b")) _bytes_escape utf8_encode
  | PyTuple elts =>
      _multiline (_colorize_iter elts (Some (S_ "(")) (Some (S_ ")")))
  | PySet elts =>
      _multiline (_colorize_iter elts (Some (S_ "set([")) (Some (S_ "])")))
  | PyFrozenset elts =>
      _multiline (_colorize_iter elts (Some (S_ "frozenset([")) (Some (S_ "])")))
  | PyDict items =>
      _multiline (_colorize_dict items (S_ "{") (S_ "}"))
  | PyList elts =>
      _multiline (_colorize_iter elts (Some (S_ "[")) (Some (S_ "]")))
  | PyRePattern pattern flags => _colorize_re pattern flags
  | PyAst node => self_colorize_ast node
  | _ =>
      match repr_of pyval with
      | repr_KeyboardInterrupt => raise KeyboardInterrupt
      | repr_raises =>
          add_score (-100) ;;
          append UNKNOWN_REPR
      | repr_returns pyval_repr =>
          match GENERIC_OBJECT_RE_search pyval_repr with
          | Some generic_object_match_groups =>
              add_score (-5) ;;
              match dict_get (py "descr") generic_object_match_groups with
              | Some descr =>
                  output (Str (py "<" ++ match descr with
                                         | Some d => d
                                         | None => py "None"
                                         end ++ py ">")) None false
              | None => append UNKNOWN_REPR
              end
          | None => output (Str pyval_repr) None false
          end
      end
  end
  end.

(** The text for a LITERAL: [c = chr(args)] with its escaping. *)
Definition literal_text (args : Z) : text :=
  if contains args (py ".^$\*+?{}[]|()'") then Bytes ([92] ++ utf8_encode [args])
  else if args =? 9 then S_ "\t"
  else if args =? 13 then S_ "\r"
  else if args =? 10 then S_ "\n"
  else if args =? 12 then S_ "\f"
  else if args =? 11 then S_ "\v"
  else if 0xffff <? args then Bytes (b_ "\U" ++ format_x 8 args)
  else if 0xff <? args then Bytes (b_ "\u" ++ format_x 4 args)
  else if (args <? 32) || (127 <=? args) then Bytes (b_ "\x" ++ format_x 2 args)
  else Str [args].

(** The quantifier of a MAX_REPEAT or MIN_REPEAT. *)
Definition repeat_text (lazy : bool) (minrpt maxrpt : Z) : pybytes :=
  let val :=
    if maxrpt =? MAXREPEAT then
      if minrpt =? 0 then b_ "*"
      else if minrpt =? 1 then b_ "+"
      else b_ "{" ++ str_int minrpt ++ b_ ",}"
    else if minrpt =? 0 then
      if maxrpt =? 1 then b_ "?"
      else b_ "{," ++ str_int maxrpt ++ b_ "}"
    else if minrpt =? maxrpt then
      b_ "{" ++ str_int maxrpt ++ b_ "}"
    else b_ "{" ++ str_int minrpt ++ b_ "," ++ str_int maxrpt ++ b_ "}" in
  if lazy then val ++ b_ "?" else val.

(** One turn of the loop of [_colorize_re_tree]. *)
Definition _colorize_re_elt (groups : list (Z * pystr)) (elt : re_elt) : M :=
  match elt with
  | LITERAL args =>
      if (args <? 0) || (0x10ffff <? args) then raise ValueError (* chr *)
      else output (literal_text args) RE_CHAR_TAG false
  | ANY => output (S_ ".") RE_CHAR_TAG false
  | BRANCH arg0 items =>
      match arg0 with
      | Some _ => raise ValueError
      | None =>
          for_enumerate (fun i item =>
              when (0 <? i)%nat (output (S_ "|") RE_OP_TAG false) ;;
              self_colorize_re_tree item true groups)
            items
      end
  | IN args =>
      match args with
      | [CATEGORY _] => self_colorize_re_tree args false groups
      | _ =>
          output (S_ "[") RE_GROUP_TAG false ;;
          self_colorize_re_tree args true groups ;;
          output (S_ "]") RE_GROUP_TAG false
      end
  | CATEGORY args =>
      match args with
      | CATEGORY_DIGIT => output (Bytes (b_ "\d")) RE_CHAR_TAG false
      | CATEGORY_NOT_DIGIT => output (Bytes (b_ "\D")) RE_CHAR_TAG false
      | CATEGORY_SPACE => output (Bytes (b_ "\s")) RE_CHAR_TAG false
      | CATEGORY_NOT_SPACE => output (Bytes (b_ "\S")) RE_CHAR_TAG false
      | CATEGORY_WORD => output (Bytes (b_ "\w")) RE_CHAR_TAG false
      | CATEGORY_NOT_WORD => output (Bytes (b_ "\W")) RE_CHAR_TAG false
      | other_category _ => raise ValueError
      end
  | AT args =>
      match args with
      | AT_BEGINNING_STRING => output (Bytes (b_ "\A")) RE_CHAR_TAG false
      | AT_BEGINNING => output (Bytes (b_ "^")) RE_CHAR_TAG false
      | AT_END => output (Bytes (b_ "$")) RE_CHAR_TAG false
      | AT_BOUNDARY => output (Bytes (b_ "\b")) RE_CHAR_TAG false
      | AT_NON_BOUNDARY => output (Bytes (b_ "\B")) RE_CHAR_TAG false
      | AT_END_STRING => output (Bytes (b_ "\Z")) RE_CHAR_TAG false
      | other_position _ => raise ValueError
      end
  | MAX_REPEAT minrpt maxrpt item =>
      self_colorize_re_tree item false groups ;;
      output (Bytes (repeat_text false minrpt maxrpt)) RE_OP_TAG false
  | MIN_REPEAT minrpt maxrpt item =>
      self_colorize_re_tree item false groups ;;
      output (Bytes (repeat_text true minrpt maxrpt)) RE_OP_TAG false
  | SUBPATTERN group _ _ p_ =>
      match group with
      | group_None => output (Bytes (b_ "(?:")) RE_GROUP_TAG false
      | group_int n =>
          match groups_get n groups with
          | Some name =>
              output (Bytes (b_ "(?P<")) RE_GROUP_TAG false ;;
              output (Str name) RE_REF_TAG false ;;
              output (Bytes (b_ ">")) RE_GROUP_TAG false
          | None => output (Bytes (b_ "(")) RE_GROUP_TAG false
          end
      | group_str name =>
          output (Bytes (b_ "(?P<")) RE_GROUP_TAG false ;;
          output (Str name) RE_REF_TAG false ;;
          output (Bytes (b_ ">")) RE_GROUP_TAG false
      end ;;
      self_colorize_re_tree p_ true groups ;;
      output (Bytes (b_ ")")) RE_GROUP_TAG false
  | GROUPREF args =>
      output (Bytes (b_ "\" ++ str_int args)) RE_REF_TAG false
  | RANGE lo hi =>
      self_colorize_re_tree [LITERAL lo] false groups ;;
      output (Bytes (b_ "-")) RE_OP_TAG false ;;
      self_colorize_re_tree [LITERAL hi] false groups
  | NEGATE => output (Bytes (b_ "^")) RE_OP_TAG false
  | ASSERT dir p_ =>
      (if 0 <? dir then output (Bytes (b_ "(?=")) RE_GROUP_TAG false
       else output (Bytes (b_ "(?<=")) RE_GROUP_TAG false) ;;
      self_colorize_re_tree p_ true groups ;;
      output (Bytes (b_ ")")) RE_GROUP_TAG false
  | ASSERT_NOT dir p_ =>
      (if 0 <? dir then output (Bytes (b_ "(?!")) RE_GROUP_TAG false
       else output (Bytes (b_ "(?<!")) RE_GROUP_TAG false) ;;
      self_colorize_re_tree p_ true groups ;;
      output (Bytes (b_ ")")) RE_GROUP_TAG false
  | NOT_LITERAL args =>
      output (Bytes (b_ "[^")) RE_GROUP_TAG false ;;
      self_colorize_re_tree [LITERAL args] false groups ;;
      output (Bytes (b_ "]")) RE_GROUP_TAG false
  | other_op _ _ => raise RuntimeError
  end.

(** [PyvalColorizer._colorize_re_tree] *)
Definition _colorize_re_tree_def (tree : list re_elt) (noparen : bool)
  (groups : list (Z * pystr)) : M :=
  when ((1 <? len tree) && negb noparen) (output (S_ "(") RE_GROUP_TAG false) ;;
  for_enumerate (fun _ elt => _colorize_re_elt groups elt) tree ;;
  when ((1 <? len tree) && negb noparen)
       (output (Bytes (b_ ")")) RE_GROUP_TAG false).

End Bodies.

(** *** The recursive methods

    [fuel] bounds the depth of the calls between the three methods. *)
Fixpoint _colorize_re_tree (fuel : nat) (tree : list re_elt) (noparen : bool)
  (groups : list (Z * pystr)) : M :=
  match fuel with
  | O => fun _ => OutOfFuel
  | S fuel' =>
      _colorize_re_tree_def (_colorize_re_tree fuel') tree noparen groups
  end.

Fixpoint _colorize (fuel : nat) (pyval : pyval) : M :=
  match fuel with
  | O => fun _ => OutOfFuel
  | S fuel' =>
      _colorize_def (_colorize fuel') (_colorize_ast fuel')
                    (_colorize_re_tree fuel') pyval
  end
with _colorize_ast (fuel : nat) (pyval : ast) : M :=
  match fuel with
  | O => fun _ => OutOfFuel
  | S fuel' =>
      _colorize_ast_def (_colorize fuel') (_colorize_ast fuel')
                        (_colorize_re_tree fuel') pyval
  end.

(** *** The entry point *)

Definition last_node (result : list node) : option node :=
  match rev result with
  | n :: _ => Some n
  | [] => None
  end.

Definition is_empty {A} (s : list A) : bool :=
  match s with [] => true | _ => false end.

(** The class-level nodes that have a text: each is one Python object,
    the same wherever it stands in a result. *)
Definition is_shared (n : node) : bool :=
  match n with
  | ELLIPSIS | LINEWRAP | UNKNOWN_REPR => true
  | _ => false
  end.

(** [m is n], for a class-level node [n]. *)
Definition same_marker (n m : node) : bool :=
  match n, m with
  | ELLIPSIS, ELLIPSIS | LINEWRAP, LINEWRAP | UNKNOWN_REPR, UNKNOWN_REPR => true
  | _, _ => false
  end.

(** [result] after the text of its last node [n] was set to [s] in place,
    as seen at the other places of the list: a class-level node is
    rewritten wherever it stands, a node that [_output] made stands
    nowhere else. *)
Definition rewrite_shared (n : node) (s : pystr) (result : list node)
  : list node :=
  if is_shared n
  then map (fun m => if same_marker n m then with_text n s else m) result
  else result.

(** The loop of [_trim_result]; [fuel] bounds its iterations, [None] is
    the bound running out.  The list is the one [colorize] has built in a
    run that started with the class-level nodes as the class has them: a
    class-level node that the loop shortens stays shortened for the runs
    that follow, which this development does not go into. *)
Fixpoint trim_loop (fuel : nat) (result : list node) (num_chars : Z)
  : option (list node) :=
  if num_chars <=? 0 then Some result
  else match fuel with
       | O => None
       | S fuel' =>
           match last_node result with
           | None => Some result
           | Some n =>
               if negb (is_Text n) && is_empty (astext n) then
                 (* an Element without children *)
                 trim_loop fuel' (removelast result) num_chars
               else
                 let data := astext n in
                 let trim := Z.min num_chars (len data) in
                 let data' := slice_to data (- trim) in
                 let others := rewrite_shared n data' (removelast result) in
                 trim_loop fuel'
                   (if is_empty data' then others
                    else others ++ [with_text n data'])
                   (num_chars - trim)
           end
       end.

(** [PyvalColorizer._trim_result]: every iteration removes a node or uses
    up [num_chars]. *)
Definition _trim_result (result : list node) (num_chars : Z)
  : option (list node) :=
  trim_loop (List.length result + Z.to_nat num_chars) result num_chars.

End Colorizer.

Record ColorizedPyvalRepr := {
  document : list node;
  repr_score : Z;
  is_complete : bool
}.

(** What a call of [colorize] comes to: the value it returns, the exception
    that leaves it, or the bound on the depth of calls running out. *)
Inductive colorize_result :=
| Returns (r : ColorizedPyvalRepr)
| Raises (e : exn)
| Exhausted.

Section EntryPoint.

Variable host : Host.
Variable self : PyvalColorizer.

(** The end of [colorize]: the test of the score and the return. *)
Definition put_together (min_score : option Z) (is_complete_ : bool)
  (state : _ColorizerState) : colorize_result :=
  let state := match min_score with
               | Some m => if score state <? m
                           then set_result [UNKNOWN_REPR] state
                           else state
               | None => state
               end in
  Returns {| document := result state;
             repr_score := score state;
             is_complete := is_complete_ |}.

(** [PyvalColorizer.colorize] *)
Definition colorize (fuel : nat) (pyval : pyval) (min_score : option Z)
  : colorize_result :=
  let state := set_linebreakok (self_linebreakok self) new_state in
  match _colorize host self fuel pyval state with
  | Normal state => put_together min_score true state
  | Raised e state =>
      if is_layout_signal e then
        if self_linebreakok self then
          put_together min_score false
            (set_result (result state ++ [NEWLINE; ELLIPSIS]) state)
        else
          match last_node (result state) with
          | None => Raises IndexError
          | Some n =>
              let result_ := if is_LINEWRAP n then removelast (result state)
                             else result state in
              match _trim_result result_ 3 with
              | Some result_ =>
                  put_together min_score false
                    (set_result (result_ ++ [ELLIPSIS]) state)
              | None => Exhausted
              end
          end
      else Raises e
  | OutOfFuel => Exhausted
  end.

End EntryPoint.

(** [colorize_pyval], with its defaults for [linelen], [maxlines] and
    [linebreakok]. *)
Definition colorize_pyval (host : Host) (fuel : nat) (pyval : pyval)
  (min_score : option Z) : colorize_result :=
  colorize host {| linelen := Some 80; maxlines := 7; self_linebreakok := true |}
           fuel pyval min_score.

(** [colorize_inline_pyval] *)
Definition colorize_inline_pyval (host : Host) (fuel : nat) (pyval : pyval)
  : colorize_result :=
  colorize host {| linelen := None; maxlines := 7; self_linebreakok := false |}
           fuel pyval None.

(** The text of a document. *)
Definition document_text (d : list node) : pystr := flat_map astext d.

(** ** The libraries on the inputs of the examples *)

(** The host [h], but with [answer] for [sre_parse.parse(pat, flags)]. *)
Definition answering (pat : pystr) (flags : Z) (answer : parse_result)
  (h : Host) : Host :=
  {| sre_parse_parse := fun p f =>
       match p with
       | PyStr s => if str_eqb s pat && (f =? flags) then answer
                    else sre_parse_parse h p f
       | _ => sre_parse_parse h p f
       end;
     astor_to_source := astor_to_source h |}.

(** What CPython's [sre_parse.parse] answers on the patterns of the
    examples.  An alternation of single characters comes back as a
    character set, an alternation of longer strings as a branch; the
    conditional group of the third pattern is an element that the colorizer
    has no case for; the fourth pattern is refused ("missing ),
    unterminated subpattern"). *)
Definition parse_a_or_b : parse_result :=
  parse_returns [IN [LITERAL 97; LITERAL 98]] [].

Definition parse_foo_or_bar : parse_result :=
  parse_returns
    [BRANCH None [[LITERAL 102; LITERAL 111; LITERAL 111];
                  [LITERAL 98; LITERAL 97; LITERAL 114]]] [].

Definition parse_conditional : parse_result :=
  parse_returns
    [SUBPATTERN (group_int 1) 0 0 [LITERAL 97];
     other_op (py "GROUPREF_EXISTS") [[LITERAL 98]; [LITERAL 99]]] [].

Definition parse_open_paren : parse_result := parse_raises re_error.

(** A host that has no library at hand. *)
Definition no_library : Host :=
  {| sre_parse_parse := fun _ _ => parse_raises (other_error (py "ImportError"));
     astor_to_source := fun _ => None |}.

(** The host of the closed examples. *)
Definition recorded : Host :=
  answering (py "a|b") 0 parse_a_or_b
    (answering (py "foo|bar") 0 parse_foo_or_bar
       (answering (py "(a)(?(1)b|c)") 32 parse_conditional
          (answering (py "(") 0 parse_open_paren no_library))).

(** ** The notions of the specification *)

(** The characters that a node puts on its line, as the layout state
    counts them: the text of a node that went through [_output]; the
    class-level markers count for nothing. *)
Definition width (n : node) : Z :=
  match n with
  | Text s | inline s _ | obj_reference s _ => len s
  | _ => 0
  end.

(** The cursor (column, line) after one more node. *)
Definition advance (p : Z * Z) (n : node) : Z * Z :=
  match n with
  | NEWLINE => (0, snd p + 1)
  | _ => (fst p + width n, snd p)
  end.

(** The cursor after the nodes [frags], from [p]. *)
Definition cursor (p : Z * Z) (frags : list node) : Z * Z :=
  fold_left advance frags p.

(** The same with every node counted for the length of its text, the
    unknown marker included. *)
Definition advance_text (p : Z * Z) (n : node) : Z * Z :=
  match n with
  | NEWLINE => (0, snd p + 1)
  | _ => (fst p + len (astext n), snd p)
  end.

Definition cursor_text (p : Z * Z) (frags : list node) : Z * Z :=
  fold_left advance_text frags p.

(** The layout state is at the cursor of its nodes. *)
Definition at_cursor (st : _ColorizerState) : Prop :=
  cursor (0, 1) (result st) = (charpos st, lineno st).

Definition at_cursor_text (st : _ColorizerState) : Prop :=
  cursor_text (0, 1) (result st) = (charpos st, lineno st).

(** A node that a run may append when its break flag is [lb]: no newline
    node when breaks are off, and never a newline character in a text. *)
Definition frag_ok (lb : bool) (n : node) : Prop :=
  (lb = false -> is_NEWLINE n = false) /\ contains NL (astext n) = false.

(** What a method that returns has done to the state: appended nodes that
    move the cursor to the new column and line, and kept the break flag. *)
Definition post_normal (st st' : _ColorizerState) : Prop :=
  exists suf,
    result st' = result st ++ suf
    /\ cursor (charpos st, lineno st) suf = (charpos st', lineno st')
    /\ linebreakok st' = linebreakok st
    /\ Forall (frag_ok (linebreakok st)) suf.

(** What a method that raises has done: appended nodes, at least one when
    the exception is one of the two layout signals, and left breaks off if
    they were. *)
Definition post_raised (e : exn) (st st' : _ColorizerState) : Prop :=
  exists suf,
    result st' = result st ++ suf
    /\ Forall (frag_ok (linebreakok st)) suf
    /\ (linebreakok st = false -> linebreakok st' = false)
    /\ (is_layout_signal e = true -> suf <> []).

Definition sound (m : M) : Prop :=
  forall st, match m st with
             | Normal st' => post_normal st st'
             | Raised e st' => post_raised e st st'
             | OutOfFuel => True
             end.

(** What the loop of [_output] has done when it ends, from a state whose
    column counts as [col]. *)
Definition loop_post (later : bool) (col : Z) (st : _ColorizerState)
  (o : outcome) : Prop :=
  match o with
  | Normal st' =>
      exists suf,
        result st' = result st ++ suf
        /\ cursor (col, lineno st) suf = (charpos st', lineno st')
        /\ linebreakok st' = linebreakok st
        /\ score st' = score st
        /\ Forall (frag_ok (linebreakok st)) suf
  | Raised e st' =>
      exists suf,
        result st' = result st ++ suf
        /\ Forall (frag_ok (linebreakok st)) suf
        /\ linebreakok st' = linebreakok st
        /\ score st' = score st
        /\ is_layout_signal e = true
        /\ (later = false -> suf <> [])
  | OutOfFuel => True
  end.

(** A method that ends, and with no other exception than those that
    [allowed] lets through. *)
Definition quiet (allowed : exn -> bool) (m : M) : Prop :=
  forall st, match m st with
             | Normal _ => True
             | Raised e _ => allowed e = true
             | OutOfFuel => False
             end.

(** ** The depth of the calls that a value needs *)

Fixpoint depth_re (elt : re_elt) : nat :=
  match elt with
  | BRANCH _ items =>
      S (list_max (map (fun item => list_max (map depth_re item)) items))
  | IN args => S (list_max (map depth_re args))
  | MAX_REPEAT _ _ item | MIN_REPEAT _ _ item
  | SUBPATTERN _ _ _ item | ASSERT _ item | ASSERT_NOT _ item =>
      S (list_max (map depth_re item))
  | RANGE _ _ | NOT_LITERAL _ => 1%nat
  | _ => 0%nat
  end.

Definition depth_tree (tree : list re_elt) : nat :=
  list_max (map depth_re tree).

Section Depth.

Variable host : Host.

(** The depth of the tree that [_colorize_re_pattern] is given by the
    parser. *)
Definition depth_pattern (pat : pyval) (flags : Z) : nat :=
  match (match pat with
         | PyBytes b => option_map PyStr (utf8_decode b)
         | _ => Some pat
         end) with
  | Some pat =>
      match sre_parse_parse host pat flags with
      | parse_returns data _ => depth_tree data
      | parse_raises _ => 0%nat
      end
  | None => 0%nat
  end.

(** The depth of the pattern of a call that binds as [re.compile]. *)
Definition depth_call_pattern (args : list ast)
  (keywords : list (option pystr * ast)) : nat :=
  match bind_args args keywords with
  | Some args_ =>
      match get_pattern args_ with
      | Some ast_pattern => depth_pattern (_get_ast_constant_val ast_pattern) 0
      | None => 0%nat
      end
  | None => 0%nat
  end.

(** [_colorize] with more fuel than [depth pyval] does not run out of it,
    and so [_colorize_ast] with [depth_ast]. *)
Fixpoint depth (pyval : pyval) : nat :=
  match pyval with
  | PyTuple elts | PySet elts | PyFrozenset elts | PyList elts =>
      S (list_max (map depth elts))
  | PyDict items =>
      S (list_max (map (fun kv => Nat.max (depth (fst kv)) (depth (snd kv)))
                       items))
  | PyRePattern pattern flags =>
      S (depth_pattern (match pattern with
                        | Str s => PyStr s
                        | Bytes b => PyBytes b
                        end) flags)
  | PyAst node => S (depth_ast node)
  | _ => 0%nat
  end
with depth_ast (node : ast) : nat :=
  match node with
  | ast_Num v | ast_Str v | ast_Bytes v | ast_Constant v
  | ast_NameConstant v => S (depth v)
  | ast_Ellipsis => 1%nat
  | ast_UnaryOp _ operand => S (S (depth_ast operand))
  | ast_BinOp left_ _ right_ =>
      S (S (Nat.max (depth_ast left_) (depth_ast right_)))
  | ast_BoolOp _ elts | ast_List elts | ast_Tuple elts | ast_Set elts =>
      S (S (list_max (map depth_ast elts)))
  | ast_Dict keys values =>
      S (S (Nat.max
              (list_max (map (fun k => match k with
                                       | Some n => depth_ast n
                                       | None => 0%nat
                                       end) keys))
              (list_max (map depth_ast values))))
  | ast_Subscript value slice =>
      S (S (Nat.max (depth_ast value) (depth_ast slice)))
  | ast_Index value => S (depth_ast value)
  | ast_Call func args keywords =>
      S (S (S (Nat.max (depth_ast func)
                (Nat.max (list_max (map depth_ast args))
                   (Nat.max (list_max (map (fun kw => depth_ast (snd kw))
                                           keywords))
                            (depth_call_pattern args keywords))))))
  | ast_Starred value | ast_keyword _ value => S (depth_ast value)
  | _ => 0%nat
  end.

End Depth.

(** ** Values without regular expressions *)

(** ** The values on which nothing raises

    [chr] takes the code points up to 0x10ffff. *)
Definition is_chr (c : Z) : bool := negb ((c <? 0) || (0x10ffff <? c)).

(** The elements that [_colorize_re_tree] has a case for, with arguments
    that the case takes: no element, category or position that it does
    not know, no branch with a first argument, and code points that [chr]
    takes. *)
Fixpoint renderable (elt : re_elt) : bool :=
  match elt with
  | LITERAL c | NOT_LITERAL c => is_chr c
  | RANGE lo hi => is_chr lo && is_chr hi
  | BRANCH arg0 items =>
      match arg0 with
      | Some _ => false
      | None => forallb (forallb renderable) items
      end
  | IN args => forallb renderable args
  | CATEGORY (other_category _) => false
  | AT (other_position _) => false
  | MAX_REPEAT _ _ item | MIN_REPEAT _ _ item | SUBPATTERN _ _ _ item
  | ASSERT _ item | ASSERT_NOT _ item => forallb renderable item
  | other_op _ _ => false
  | _ => true
  end.

Definition not_interrupted (r : repr_result) : bool :=
  match r with
  | repr_KeyboardInterrupt => false
  | _ => true
  end.

Section Plain.

Variable host : Host.

(** The pattern is decoded and parsed, into elements that are all
    [renderable]. *)
Definition renderable_pattern (pat : pyval) (flags : Z) : bool :=
  match (match pat with
         | PyBytes b => option_map PyStr (utf8_decode b)
         | _ => Some pat
         end) with
  | Some pat =>
      match sre_parse_parse host pat flags with
      | parse_returns data _ => forallb renderable data
      | parse_raises _ => false
      end
  | None => false
  end.

(** The same of the pattern of a call that binds as [re.compile] with a
    constant for its pattern; any other call is rendered as a call, and
    its pattern is not parsed. *)
Definition renderable_call_pattern (args : list ast)
  (keywords : list (option pystr * ast)) : bool :=
  match bind_args args keywords with
  | Some args_ =>
      match get_pattern args_ with
      | Some ast_pattern =>
          if _is_ast_constant ast_pattern
          then renderable_pattern (_get_ast_constant_val ast_pattern) 0
          else true
      | None => true
      end
  | None => true
  end.

(** The values on which [_colorize] raises nothing but a layout signal:
    - every compiled pattern, and every constant pattern of a call of
      [re.compile], is parsed into elements that are [renderable];
    - no [repr] of an object is interrupted;
    - no object raises when it is compared with the constants, nor in its
      [str] when it compares equal to one. *)
Fixpoint plain (pyval : pyval) : bool :=
  match pyval with
  | PyTuple elts | PySet elts | PyFrozenset elts | PyList elts =>
      forallb plain elts
  | PyDict items => forallb (fun kv => plain (fst kv) && plain (snd kv)) items
  | PyRePattern pattern flags =>
      renderable_pattern (match pattern with
                          | Str s => PyStr s
                          | Bytes b => PyBytes b
                          end) flags
  | PyAst node => plain_ast node
  | PyObject r => not_interrupted r
  | PyObjectEq (call_raises _) _ _ => false
  | PyObjectEq (call_returns true) (call_raises _) _ => false
  | PyObjectEq (call_returns true) (call_returns _) _ => true
  | PyObjectEq (call_returns false) _ r => not_interrupted r
  | _ => true
  end
with plain_ast (node : ast) : bool :=
  match node with
  | ast_Num v | ast_Str v | ast_Bytes v | ast_Constant v
  | ast_NameConstant v => plain v
  | ast_UnaryOp _ operand => plain_ast operand
  | ast_BinOp left_ _ right_ => plain_ast left_ && plain_ast right_
  | ast_BoolOp _ elts | ast_List elts | ast_Tuple elts | ast_Set elts =>
      forallb plain_ast elts
  | ast_Dict keys values =>
      forallb (fun k => match k with
                        | Some n => plain_ast n
                        | None => true
                        end) keys
      && forallb plain_ast values
  | ast_Subscript value slice => plain_ast value && plain_ast slice
  | ast_Index value => plain_ast value
  | ast_Call func args keywords =>
      (negb (is_re_compile func) || renderable_call_pattern args keywords)
      && plain_ast func
      && forallb plain_ast args
      && forallb (fun kw => plain_ast (snd kw)) keywords
  | ast_Starred value | ast_keyword _ value => plain_ast value
  | _ => true
  end.

End Plain.

(** ** The notions of the claims *)

(** The state that [colorize] starts from. *)
Definition initial_state (self : PyvalColorizer) : _ColorizerState :=
  set_linebreakok (self_linebreakok self) new_state.


(** The values of the three numeric types. *)
Definition is_number (pyval : pyval) : bool :=
  match pyval with
  | PyInt _ | PyFloat _ _ | PyComplex _ _ => true
  | _ => false
  end.

(** A node that breaks no line: not the newline node, and no newline
    character in its text. *)
Definition unbroken (n : node) : Prop :=
  is_NEWLINE n = false /\ contains NL (astext n) = false.

(** The container renderers that [_colorize] and [_colorize_ast] hand to
    [_multiline]. *)
Inductive render :=
| render_iter (pyval : list pyval) (prefix suffix : option text)
| render_dict (items : list (pyval * pyval)) (prefix suffix : text).

Definition run_render (host : Host) (self : PyvalColorizer) (fuel : nat)
  (r : render) : M :=
  match r with
  | render_iter pyval prefix suffix =>
      _colorize_iter self (_colorize host self fuel) pyval prefix suffix
  | render_dict items prefix suffix =>
      _colorize_dict self (_colorize host self fuel) items prefix suffix
  end.

(** The node of the call [re.compile(args)]. *)
Definition re_compile_call (args : list ast) : pyval :=
  PyAst (ast_Call (ast_Attribute (ast_Name (py "re")) (py "compile")) args []).

(** The nodes without a line-wrap marker at their end. *)
Definition without_LINEWRAP (result_ : list node) : list node :=
  match last_node result_ with
  | Some n => if is_LINEWRAP n then removelast result_ else result_
  | None => result_
  end.

(** [b] holds, or every exception is let through. *)
Definition okb (allowed : exn -> bool) (b : bool) : Prop :=
  b = true \/ (forall e, allowed e = true).

(** The state after a segment that fits. *)
Definition emit (segment : pystr) (css_class : option css) (link : bool)
  (st : _ColorizerState) : _ColorizerState :=
  {| result := result st ++ [fitting_element segment css_class link];
     charpos := charpos st + len segment;
     lineno := lineno st;
     linebreakok := linebreakok st;
     score := score st |}.

(** The state after the first part of a segment that does not fit. *)
Definition wrap (self : PyvalColorizer) (segment : pystr)
  (css_class : option css) (st : _ColorizerState) : _ColorizerState :=
  let split := match linelen self with
               | Some n => n - charpos st
               | None => 0
               end in
  set_result (result st ++
                [wrapped_element (slice_to segment split) css_class; LINEWRAP])
             st.

(** The text that [_output] splits. *)
Definition as_str (s : text) : pystr :=
  match s with
  | Bytes b => decode_with_backslashreplace b
  | Str s => s
  end.

(** What follows a segment in a chunk: nothing, or a newline and the
    rest. *)
Definition starts_line (tail : pystr) : bool :=
  match tail with
  | [] => true
  | c :: _ => c =? NL
  end.

Definition segments_after (tail : pystr) : list pystr :=
  match tail with
  | [] => []
  | _ :: rest => split_newline rest
  end.

(** What the claim on the output sink says of [_output] on a chunk that
    begins with [segment], a text without newline, from the state [st].
    Nothing here is said through the loop of the model: the nodes, the
    states and the index of a cut are written out.
    - [one] is the single node of a segment that goes out whole: the
      reference for a link, else the styled or the plain text.  A segment
      goes out whole when it is a link, when there is no width, or when it
      ends within the width.
    - After a segment that went out whole, a newline in the chunk raises
      [_Maxlines] when the line after the current one is beyond [maxlines],
      whatever the break flag; else it raises [_Linebreak] when breaks are
      off; else the newline node is appended, the line counted, the column
      put to 0, and the rest of the chunk goes on from there.
    - A segment that is no link and ends beyond the width [n] is cut at the
      index [n - charpos], read as Python reads the index of a slice (from
      the end when it is negative): the part before the index goes out
      with the line-wrap marker, and the part from the index on is treated
      as what follows a newline.  [tail] is what follows the segment in
      the chunk: nothing, or a newline and more. *)
Definition output_sink_spec (self : PyvalColorizer) (segment rest tail : pystr)
  (css_class : option css) (link : bool) (st : _ColorizerState) : Prop :=
  let styled := fun s : pystr =>
    match css_class with
    | Some c => inline s c
    | None => Text s
    end in
  let one := if link then obj_reference segment segment else styled segment in
  let after := fun (nodes : list node) (column line : Z) =>
    {| result := result st ++ nodes;
       charpos := column;
       lineno := line;
       linebreakok := linebreakok st;
       score := score st |} in
  let whole :=
    link = true \/ linelen self = None
    \/ exists n, linelen self = Some n /\ charpos st + len segment <= n in
  (whole ->
   _output self (Str segment) css_class link st
   = Normal (after [one] (charpos st + len segment) (lineno st))
   /\ (maxlines self < lineno st + 1 ->
       _output self (Str (segment ++ NL :: rest)) css_class link st
       = Raised _Maxlines (after [one] (charpos st + len segment) (lineno st)))
   /\ (lineno st + 1 <= maxlines self -> linebreakok st = false ->
       _output self (Str (segment ++ NL :: rest)) css_class link st
       = Raised _Linebreak (after [one] (charpos st + len segment) (lineno st)))
   /\ (lineno st + 1 <= maxlines self -> linebreakok st = true ->
       _output self (Str (segment ++ NL :: rest)) css_class link st
       = _output self (Str rest) css_class link
           (after [one; NEWLINE] 0 (lineno st + 1))))
  /\ (link = false ->
      forall n,
        linelen self = Some n -> n < charpos st + len segment ->
        let k := if 0 <=? n - charpos st then Z.to_nat (n - charpos st)
                 else Z.to_nat (Z.max 0 (len segment + (n - charpos st))) in
        let cut := [styled (firstn k segment); LINEWRAP] in
        (maxlines self < lineno st + 1 ->
         _output self (Str (segment ++ tail)) css_class link st
         = Raised _Maxlines (after cut (charpos st) (lineno st)))
        /\ (lineno st + 1 <= maxlines self -> linebreakok st = false ->
            _output self (Str (segment ++ tail)) css_class link st
            = Raised _Linebreak (after cut (charpos st) (lineno st)))
        /\ (lineno st + 1 <= maxlines self -> linebreakok st = true ->
            _output self (Str (segment ++ tail)) css_class link st
            = _output self (Str (skipn k segment ++ tail)) css_class link
                (after (cut ++ [NEWLINE]) 0 (lineno st + 1)))).

(** ** The notions of the further properties *)

(** A printable ASCII character. *)
Definition printable (c : Z) : Prop := 32 <= c < 127.

(** The nodes that [_output] builds for a chunk with the class [css_class]
    and the flag [link]: the newline node, the node of a segment that fits,
    and, with a width and for no link, the node of a first part and the
    line-wrap marker. *)
Definition sink_node (self : PyvalColorizer) (css_class : option css)
  (link : bool) (n : node) : Prop :=
  n = NEWLINE
  \/ (exists segment, n = fitting_element segment css_class link)
  \/ (linelen self <> None /\ link = false
      /\ (n = LINEWRAP \/ exists segment, n = wrapped_element segment css_class)).

(** The nodes that the colorizer appends on its way: those of [_output],
    the word-break opportunity and the unknown marker. *)
Definition colorizer_node (self : PyvalColorizer) (n : node) : Prop :=
  n = WORD_BREAK_OPPORTUNITY \/ n = UNKNOWN_REPR
  \/ exists css_class link, sink_node self css_class link n.

(** A method that only appends, and nodes that satisfy [P]. *)
Definition appends (P : node -> Prop) (m : M) : Prop :=
  forall st, match m st with
             | Normal st' | Raised _ st' =>
                 exists suf, result st' = result st ++ suf /\ Forall P suf
             | OutOfFuel => True
             end.

(** A method that keeps the break flag when it returns, only appends, and
    raises no [_Linebreak] from a state in which breaks are on. *)
Definition breaks_kept (m : M) : Prop :=
  forall st, match m st with
             | Normal st' =>
                 linebreakok st' = linebreakok st
                 /\ exists suf, result st' = result st ++ suf
             | Raised e st' =>
                 (linebreakok st = true -> e <> _Linebreak)
                 /\ exists suf, result st' = result st ++ suf
             | OutOfFuel => True
             end.

(** The node of [base.a1.a2...] for the attributes [a1; a2; ...]. *)
Fixpoint attributes (base : ast) (attrs : list pystr) : ast :=
  match attrs with
  | [] => base
  | a :: attrs' => attributes (ast_Attribute base a) attrs'
  end.

(** The text of a LITERAL as [_output] takes it. *)
Definition literal_str (c : Z) : pystr := as_str (literal_text c).

(** A character that a pattern holds as itself: printable, and none of the
    characters that [_colorize_re_tree] escapes. *)
Definition plain_char (c : Z) : bool :=
  (32 <=? c) && (c <? 127) && negb (contains c (py ".^$\*+?{}[]|()'")).

(** The text that a node of [_output] takes from the chunk: the line-wrap
    marker takes none. *)
Definition chunk_text (n : node) : pystr :=
  if is_LINEWRAP n then [] else astext n.

(** The repr of an object that does not define one:
    [<descr at 0xaddr>]. *)
Definition default_repr (descr addr : pystr) : pystr :=
  py "<" ++ descr ++ py " at 0x" ++ addr ++ py ">".

(** [sep.join(parts)] *)
Fixpoint join (sep : pystr) (parts : list pystr) : pystr :=
  match parts with
  | [] => []
  | [p] => p
  | p :: parts' => p ++ sep ++ join sep parts'
  end.

(** [m] writes [t] on one line: from every state with breaks off it
    returns, with breaks still off, and the text of the nodes it has
    appended is [t]. *)
Definition one_line (m : M) (t : pystr) : Prop :=
  forall st,
    linebreakok st = false ->
    exists st',
      m st = Normal st'
      /\ linebreakok st' = false
      /\ exists suf, result st' = result st ++ suf /\ document_text suf = t.

(** No class-level node with a text stands in the list more than once. *)
Fixpoint shared_once (l : list node) : bool :=
  match l with
  | [] => true
  | n :: l' => negb (is_shared n && existsb (same_marker n) l') && shared_once l'
  end.

(** ** The output sink: properties *)

Section OutputFacts.

Variable self : PyvalColorizer.

Lemma split_newline_nonempty s : split_newline s <> [].
Proof.
  induction s as [|c s IH]; simpl; [discriminate|].
  destruct (c =? NL); [discriminate|].
  destruct (split_newline s); discriminate.
Qed.

Lemma split_newline_no_newline s :
  Forall (fun seg => contains NL seg = false) (split_newline s).
Proof.
  induction s as [|c s IH]; simpl.
  - constructor; [reflexivity|constructor].
  - destruct (c =? NL) eqn:E.
    + constructor; [reflexivity|assumption].
    + destruct (split_newline s) as [|seg rest].
      * constructor; [|constructor].
        unfold contains. cbn [existsb]. rewrite Z.eqb_sym, E. reflexivity.
      * inversion IH as [|? ? Hseg Hrest]; subst. constructor; [|assumption].
        unfold contains in *. cbn [existsb]. rewrite Z.eqb_sym, E. assumption.
Qed.

Lemma contains_app c s t : contains c (s ++ t) = contains c s || contains c t.
Proof. unfold contains. apply existsb_app. Qed.

Lemma contains_firstn c n s : contains c s = false -> contains c (firstn n s) = false.
Proof.
  intros H. rewrite <- (firstn_skipn n s), contains_app in H.
  apply orb_false_elim in H. tauto.
Qed.

Lemma contains_skipn c n s : contains c s = false -> contains c (skipn n s) = false.
Proof.
  intros H. rewrite <- (firstn_skipn n s), contains_app in H.
  apply orb_false_elim in H. tauto.
Qed.

Lemma cursor_app p a b : cursor p (a ++ b) = cursor (cursor p a) b.
Proof. unfold cursor. apply fold_left_app. Qed.

Lemma frag_ok_weaken lb n : frag_ok false n -> frag_ok lb n.
Proof. intros [H1 H2]. split; auto. Qed.

Lemma Forall_frag_ok_weaken lb l :
  Forall (frag_ok false) l -> Forall (frag_ok lb) l.
Proof. intros H. eapply Forall_impl; [|exact H]. apply frag_ok_weaken. Qed.

Lemma frag_ok_fitting lb seg css_class link :
  contains NL seg = false -> frag_ok lb (fitting_element seg css_class link).
Proof.
  intros H. unfold fitting_element.
  destruct link; [|destruct css_class]; split; auto.
Qed.

Lemma frag_ok_wrapped lb seg css_class :
  contains NL seg = false -> frag_ok lb (wrapped_element seg css_class).
Proof. intros H. unfold wrapped_element. destruct css_class; split; auto. Qed.

Lemma frag_ok_LINEWRAP lb : frag_ok lb LINEWRAP.
Proof. split; auto. Qed.

Lemma advance_fitting p seg css_class link :
  advance p (fitting_element seg css_class link) = (fst p + len seg, snd p).
Proof. unfold fitting_element. destruct link; [|destruct css_class]; reflexivity. Qed.

Lemma advance_wrapped p seg css_class :
  advance p (wrapped_element seg css_class) = (fst p + len seg, snd p).
Proof. unfold wrapped_element. destruct css_class; reflexivity. Qed.

Lemma frag_ok_NEWLINE : frag_ok true NEWLINE.
Proof. split; [discriminate|reflexivity]. Qed.

Lemma loop_post_later later col st o :
  loop_post later col st o -> loop_post true col st o.
Proof.
  destruct o as [st'|e st'|]; simpl; auto.
  intros (suf & H1 & H2 & H3 & H4 & H5 & _).
  exists suf. repeat split; auto. discriminate.
Qed.

(** The loop after a turn that appended [pre]. *)
Lemma loop_post_step pre later later' col col' st s o :
  result s = result st ++ pre ->
  pre <> [] ->
  Forall (frag_ok (linebreakok st)) pre ->
  linebreakok s = linebreakok st ->
  score s = score st ->
  cursor (col, lineno st) pre = (col', lineno s) ->
  loop_post later' col' s o ->
  loop_post later col st o.
Proof.
  intros Hr Hne Hf Hl Hsc Hc.
  destruct o as [st'|e st'|]; simpl; auto.
  - intros (suf & H1 & H2 & H3 & H4 & H5).
    exists (pre ++ suf). rewrite H1, Hr, app_assoc. split; [reflexivity|].
    rewrite cursor_app, Hc. split; [assumption|].
    split; [congruence|]. split; [congruence|].
    apply Forall_app. split; [assumption|]. rewrite <- Hl. assumption.
  - intros (suf & H1 & H2 & H3 & H4 & H5 & _).
    exists (pre ++ suf). rewrite H1, Hr, app_assoc. split; [reflexivity|].
    split; [apply Forall_app; split; [assumption|rewrite <- Hl; assumption]|].
    split; [congruence|]. split; [congruence|]. split; [assumption|].
    intros _ E. apply app_eq_nil in E. tauto.
Qed.

Lemma output_segments_post css_class link fuel :
  forall segments later st col,
    (later = false \/ segments = [] -> col = charpos st) ->
    Forall (fun seg => contains NL seg = false) segments ->
    loop_post later col st
      (output_segments self fuel segments later css_class link st).
Proof.
  induction fuel as [|fuel IH]; intros segments later st col Hcol Hseg.
  - destruct segments; simpl; [|exact I].
    exists []. rewrite app_nil_r. rewrite Hcol by auto. repeat split; auto.
  - destruct segments as [|segment rest]; simpl.
    + exists []. rewrite app_nil_r. rewrite Hcol by auto. repeat split; auto.
    + inversion Hseg as [|? ? Hs Hrest]; subst.
      (* one turn after the line is started, if it has to be *)
      assert (Hbody : forall st col, col = charpos st ->
        loop_post false col st
          (if fits self segment link st
           then (modify (fun st => set_charpos (charpos st + len segment) st) ;;
                 append (fitting_element segment css_class link) ;;
                 output_segments self fuel rest true css_class link) st
           else (modify (fun st =>
                   set_result (result st ++
                     [wrapped_element
                        (slice_to segment
                           match linelen self with
                           | Some n => n - charpos st
                           | None => 0
                           end) css_class; LINEWRAP]) st) ;;
                 output_segments self fuel
                   (slice_from segment
                      match linelen self with
                      | Some n => n - charpos st
                      | None => 0
                      end :: rest) true css_class link) st)).
      { clear st col Hcol. intros st col ->.
        destruct (fits self segment link st).
        - unfold seq, modify, append.
          eapply loop_post_step
            with (pre := [fitting_element segment css_class link]); revgoals.
          + apply IH; [intros _; reflexivity|assumption].
          + unfold cursor. simpl. rewrite advance_fitting. reflexivity.
          + reflexivity.
          + reflexivity.
          + constructor; [apply frag_ok_fitting; assumption|constructor].
          + discriminate.
          + reflexivity.
        - unfold seq, modify.
          eapply loop_post_step
            with (pre := [wrapped_element
                            (slice_to segment
                               match linelen self with
                               | Some n => n - charpos st
                               | None => 0
                               end) css_class; LINEWRAP]); revgoals.
          + apply IH.
            * intros [E|E]; discriminate.
            * constructor; [apply contains_skipn; assumption|assumption].
          + unfold cursor. simpl. rewrite advance_wrapped. simpl.
            rewrite Z.add_0_r. reflexivity.
          + reflexivity.
          + reflexivity.
          + constructor; [apply frag_ok_wrapped, contains_firstn; assumption|].
            constructor; [apply frag_ok_LINEWRAP|constructor].
          + discriminate.
          + reflexivity. }
      unfold seq at 1. destruct later; simpl.
      * unfold start_line.
        destruct (maxlines self <? lineno st + 1).
        { exists []. rewrite app_nil_r. repeat split; auto; discriminate. }
        destruct (linebreakok st) eqn:Elb; simpl.
        2:{ exists []. rewrite app_nil_r. repeat split; auto; discriminate. }
        eapply loop_post_step with (pre := [NEWLINE]); revgoals.
        -- apply Hbody. reflexivity.
        -- reflexivity.
        -- reflexivity.
        -- simpl. congruence.
        -- rewrite Elb. constructor; [apply frag_ok_NEWLINE|constructor].
        -- discriminate.
        -- reflexivity.
      * apply Hbody. apply Hcol. auto.
Qed.

Lemma decode_split_no_newline s :
  Forall (fun seg => contains NL seg = false)
         (split_newline match s with
                        | Bytes b => decode_with_backslashreplace b
                        | Str s => s
                        end).
Proof. apply split_newline_no_newline. Qed.

(** [_output] appends nodes that take the cursor to the new column and
    line; when it raises, it raises a layout signal after a node. *)
Lemma _output_post s css_class link st :
  loop_post false (charpos st) st (_output self s css_class link st).
Proof.
  unfold _output. apply output_segments_post; auto.
  apply decode_split_no_newline.
Qed.

Lemma _output_sound s css_class link : sound (_output self s css_class link).
Proof.
  intros st. pose proof (_output_post s css_class link st) as H.
  destruct (_output self s css_class link st) as [st'|e st'|]; simpl in *; auto.
  - destruct H as (suf & H1 & H2 & H3 & H4 & H5). exists suf. auto.
  - destruct H as (suf & H1 & H2 & H3 & H4 & H5 & H6).
    exists suf. repeat split; auto. congruence.
Qed.

(** The loop of [_output] has fuel enough. *)
Lemma output_segments_ends css_class link fuel :
  forall segments (later : bool) st,
    (List.length segments + Z.to_nat (maxlines self - lineno st)
     + (if later then 0 else 1) <= fuel)%nat ->
    output_segments self fuel segments later css_class link st <> OutOfFuel.
Proof.
  induction fuel as [|fuel IH]; intros segments later st Hfuel.
  - destruct segments; simpl; [discriminate|].
    simpl in Hfuel. lia.
  - destruct segments as [|segment rest]; simpl; [discriminate|].
    simpl in Hfuel.
    assert (Hbody : forall st,
      (List.length rest + Z.to_nat (maxlines self - lineno st) + 1 <= fuel)%nat ->
      (if fits self segment link st
       then (modify (fun st => set_charpos (charpos st + len segment) st) ;;
             append (fitting_element segment css_class link) ;;
             output_segments self fuel rest true css_class link) st
       else (modify (fun st =>
               set_result (result st ++
                 [wrapped_element
                    (slice_to segment
                       match linelen self with
                       | Some n => n - charpos st
                       | None => 0
                       end) css_class; LINEWRAP]) st) ;;
             output_segments self fuel
               (slice_from segment
                  match linelen self with
                  | Some n => n - charpos st
                  | None => 0
                  end :: rest) true css_class link) st) <> OutOfFuel).
    { clear st Hfuel. intros st Hfuel.
      destruct (fits self segment link st); unfold seq, modify, append;
        apply IH; simpl; lia. }
    unfold seq at 1. destruct later; simpl.
    + unfold start_line.
      destruct (maxlines self <? lineno st + 1) eqn:Emax; [discriminate|].
      destruct (linebreakok st); simpl; [|discriminate].
      apply Hbody. simpl. apply Z.ltb_ge in Emax. lia.
    + apply Hbody. lia.
Qed.

(** [_output] ends: normally or with an exception. *)
Lemma _output_ends s css_class link st :
  _output self s css_class link st <> OutOfFuel.
Proof.
  unfold _output. apply output_segments_ends. unfold output_fuel. lia.
Qed.

Lemma _output_quiet allowed s css_class link :
  (forall e, is_layout_signal e = true -> allowed e = true) ->
  quiet allowed (_output self s css_class link).
Proof.
  intros Hlay st. pose proof (_output_post s css_class link st) as H.
  pose proof (_output_ends s css_class link st) as He.
  destruct (_output self s css_class link st) as [st'|e st'|]; simpl in *; auto.
  destruct H as (suf & H1 & H2 & H3 & H4 & H5 & H6). auto.
Qed.

End OutputFacts.

(** ** Composing methods *)

Lemma post_normal_refl st : post_normal st st.
Proof. exists []. rewrite app_nil_r. repeat split; auto. Qed.

Lemma post_normal_trans st1 st2 st3 :
  post_normal st1 st2 -> post_normal st2 st3 -> post_normal st1 st3.
Proof.
  intros (s1 & R1 & C1 & L1 & F1) (s2 & R2 & C2 & L2 & F2).
  exists (s1 ++ s2). rewrite R2, R1, app_assoc. split; [reflexivity|].
  rewrite cursor_app, C1, C2. split; [reflexivity|].
  split; [congruence|]. apply Forall_app. split; [assumption|].
  rewrite <- L1. assumption.
Qed.

Lemma post_normal_raised e st1 st2 st3 :
  post_normal st1 st2 -> post_raised e st2 st3 -> post_raised e st1 st3.
Proof.
  intros (s1 & R1 & C1 & L1 & F1) (s2 & R2 & F2 & L2 & N2).
  exists (s1 ++ s2). rewrite R2, R1, app_assoc. split; [reflexivity|].
  split; [apply Forall_app; split; [assumption|rewrite <- L1; assumption]|].
  split; [intros H; apply L2; congruence|].
  intros H E. apply app_eq_nil in E. destruct E as [_ E]. exact (N2 H E).
Qed.

Lemma sound_pass : sound pass.
Proof. intros st. apply post_normal_refl. Qed.

Lemma sound_raise e : is_layout_signal e = false -> sound (raise e).
Proof.
  intros H st. exists []. rewrite app_nil_r. repeat split; auto.
  congruence.
Qed.

Lemma sound_seq m k : sound m -> sound k -> sound (m ;; k).
Proof.
  intros Hm Hk st. unfold seq. specialize (Hm st).
  destruct (m st) as [st1|e st1|]; auto.
  specialize (Hk st1). destruct (k st1) as [st2|e st2|]; auto.
  - eapply post_normal_trans; eassumption.
  - eapply post_normal_raised; eassumption.
Qed.

Lemma sound_read {A} (f : _ColorizerState -> A) k :
  (forall x, sound (k x)) -> sound (read f k).
Proof. intros H st. apply (H (f st) st). Qed.

Lemma sound_when b m : sound m -> sound (when b m).
Proof. intros H. destruct b; [assumption|apply sound_pass]. Qed.

Lemma sound_append n :
  width n = 0 -> is_NEWLINE n = false -> contains NL (astext n) = false ->
  sound (append n).
Proof.
  intros Hw Hn Ht st. exists [n]. simpl. split; [reflexivity|].
  split; [|split; [reflexivity|]].
  - unfold cursor. simpl. destruct n; try discriminate; simpl in *;
      rewrite ?Hw, Z.add_0_r; reflexivity.
  - constructor; [split; auto|constructor].
Qed.

Lemma sound_add_score d : sound (add_score d).
Proof. intros st. exists []. simpl. rewrite app_nil_r. repeat split; auto. Qed.

Lemma sound_for_enumerate_from {A} (body : nat -> A -> M) l :
  (forall i x, In x l -> sound (body i x)) ->
  forall i, sound (for_enumerate_from i body l).
Proof.
  induction l as [|x l IH]; intros H i; simpl.
  - apply sound_pass.
  - apply sound_seq; [apply H; left; reflexivity|].
    apply IH. intros j y Hy. apply H. right. assumption.
Qed.

Lemma sound_for_enumerate {A} (body : nat -> A -> M) l :
  (forall i x, In x l -> sound (body i x)) -> sound (for_enumerate body l).
Proof. intros H. apply sound_for_enumerate_from. assumption. Qed.

(** [restore] after nodes were appended gives back the marked state. *)
Lemma restore_mark st st' suf :
  result st' = result st ++ suf -> restore (mark st) st' = st.
Proof.
  intros H. unfold restore, mark. simpl. rewrite H.
  rewrite firstn_app, Nat.sub_diag, firstn_all. simpl. rewrite app_nil_r.
  destruct st; reflexivity.
Qed.

Section MultilineFacts.

Variable self : PyvalColorizer.

Lemma sound_multiline func : sound func -> sound (_multiline func).
Proof.
  intros Hf st. unfold _multiline, read, try_except, seq, modify.
  pose proof (Hf (set_linebreakok false st)) as H1.
  destruct (func (set_linebreakok false st)) as [st1|e st1|]; auto.
  - destruct H1 as (suf & R & C & L & F).
    exists suf. repeat split; auto.
    apply Forall_frag_ok_weaken. assumption.
  - destruct H1 as (suf & R & F & L & N).
    assert (Hraised : post_raised e st st1).
    { exists suf. repeat split; auto. apply Forall_frag_ok_weaken. assumption. }
    destruct (is_Linebreak e) eqn:El; [|assumption].
    destruct e; try discriminate.
    destruct (negb (linebreakok st)); [exact Hraised|].
    rewrite (@restore_mark st st1 suf R). apply Hf.
Qed.

Lemma sound_insert_comma indent : sound (_insert_comma self indent).
Proof.
  unfold _insert_comma. apply sound_read. intros [|].
  - apply sound_seq; apply _output_sound.
  - apply _output_sound.
Qed.

End MultilineFacts.

(** ** Every method appends, and keeps the cursor *)

Lemma sound_try_restore body handles handler :
  sound body -> sound handler ->
  sound (let* mark_ := mark in
         try_except body handles (modify (restore mark_) ;; handler)).
Proof.
  intros Hb Hh st. unfold read, try_except, seq, modify.
  pose proof (Hb st) as H1.
  destruct (body st) as [st1|e st1|]; auto.
  destruct (handles e); [|assumption].
  destruct H1 as (suf & R & _). rewrite (@restore_mark st st1 suf R).
  apply Hh.
Qed.

Ltac sound_step :=
  match goal with
  | |- sound (_ ;; _) => apply sound_seq
  | |- sound (read mark (fun _ => try_except _ _ _)) => apply sound_try_restore
  | |- sound (read _ _) => apply sound_read; intro
  | |- sound (when _ _) => apply sound_when
  | |- sound pass => apply sound_pass
  | |- sound (_output _ _ _ _) => apply _output_sound
  | |- sound (append _) => apply sound_append; reflexivity
  | |- sound (add_score _) => apply sound_add_score
  | |- sound (raise _) => apply sound_raise; reflexivity
  | |- sound (for_enumerate _ _) => apply sound_for_enumerate; intros ? ? ?
  | |- sound (_multiline _) => apply sound_multiline
  | |- sound (_insert_comma _ _) => apply sound_insert_comma
  | H : forall x, sound (?f x) |- sound (?f _) => apply H
  | H : forall x y z, sound (?f x y z) |- sound (?f _ _ _) => apply H
  | |- sound (if ?x then _ else _) => destruct x
  | |- sound (match ?x with _ => _ end) => destruct x
  end.

Ltac sound_auto := repeat sound_step.

Section SoundBodies.

Variable host : Host.
Variable self : PyvalColorizer.

Lemma _colorize_str_sound kind pyval prefix escape_fcn str_func :
  sound (_colorize_str self kind pyval prefix escape_fcn str_func).
Proof. unfold _colorize_str. sound_auto. Qed.

Lemma _colorize_ast_generic_sound pyval :
  sound (_colorize_ast_generic host self pyval).
Proof. unfold _colorize_ast_generic. sound_auto. Qed.

Lemma _colorize_ast_attribute_sound pyval :
  sound (_colorize_ast_attribute host self pyval).
Proof.
  unfold _colorize_ast_attribute.
  destruct (attribute_chain pyval []) as [parts [ ]];
    try apply _colorize_ast_generic_sound.
  apply _output_sound.
Qed.

Lemma _colorize_re_flags_sound flags : sound (_colorize_re_flags self flags).
Proof. unfold _colorize_re_flags. sound_auto. Qed.

Variable self_colorize : pyval -> M.
Variable self_colorize_ast : ast -> M.
Variable self_colorize_re_tree : list re_elt -> bool -> list (Z * pystr) -> M.

Section Regex.

Hypothesis re_tree_sound :
  forall tree noparen groups, sound (self_colorize_re_tree tree noparen groups).

Lemma _colorize_re_elt_sound groups elt :
  sound (_colorize_re_elt self self_colorize_re_tree groups elt).
Proof. unfold _colorize_re_elt. sound_auto. Qed.

Lemma _colorize_re_tree_def_sound tree noparen groups :
  sound (_colorize_re_tree_def self self_colorize_re_tree tree noparen groups).
Proof.
  unfold _colorize_re_tree_def. sound_auto. apply _colorize_re_elt_sound.
Qed.

Lemma _colorize_re_pattern_sound pat flags :
  sound (_colorize_re_pattern host self_colorize_re_tree pat flags).
Proof.
  unfold _colorize_re_pattern.
  destruct (match pat with
            | PyBytes b => option_map PyStr (utf8_decode b)
            | _ => Some pat
            end); [|apply sound_raise; reflexivity].
  destruct (sre_parse_parse host p flags); [apply re_tree_sound|].
  apply sound_raise. reflexivity.
Qed.

Lemma _colorize_re_sound pat flags :
  sound (_colorize_re host self self_colorize_re_tree pat flags).
Proof.
  unfold _colorize_re. sound_auto;
    first [apply _colorize_re_flags_sound|apply _colorize_re_pattern_sound].
Qed.

End Regex.

Hypothesis colorize_sound : forall pyval, sound (self_colorize pyval).
Hypothesis colorize_ast_sound : forall pyval, sound (self_colorize_ast pyval).
Hypothesis colorize_re_tree_sound :
  forall tree noparen groups, sound (self_colorize_re_tree tree noparen groups).

Lemma _colorize_iter_sound pyval prefix suffix :
  sound (_colorize_iter self self_colorize pyval prefix suffix).
Proof. unfold _colorize_iter. sound_auto. Qed.

Lemma _colorize_dict_sound items prefix suffix :
  sound (_colorize_dict self self_colorize items prefix suffix).
Proof. unfold _colorize_dict. sound_auto. Qed.

Lemma _colorize_ast_call_generic_sound func args keywords :
  sound (_colorize_ast_call_generic self self_colorize self_colorize_ast
           func args keywords).
Proof.
  unfold _colorize_ast_call_generic. sound_auto; apply _colorize_iter_sound.
Qed.

Lemma _colorize_ast_re_sound args_ func args keywords :
  sound (_colorize_ast_re host self self_colorize self_colorize_ast
           self_colorize_re_tree args_ func args keywords).
Proof.
  unfold _colorize_ast_re.
  destruct (get_pattern args_); [|apply _colorize_ast_call_generic_sound].
  destruct (_is_ast_constant a); [|apply _colorize_ast_call_generic_sound].
  sound_auto. apply _colorize_re_pattern_sound. assumption.
Qed.

Lemma _colorize_ast_call_sound func args keywords :
  sound (_colorize_ast_call host self self_colorize self_colorize_ast
           self_colorize_re_tree func args keywords).
Proof.
  unfold _colorize_ast_call.
  destruct (is_re_compile func); [|apply _colorize_ast_call_generic_sound].
  destruct (bind_args args keywords); [|apply _colorize_ast_call_generic_sound].
  apply sound_try_restore; [apply _colorize_ast_re_sound|].
  apply sound_raise. reflexivity.
Qed.

Lemma _colorize_ast_def_sound pyval :
  sound (_colorize_ast_def host self self_colorize self_colorize_ast
           self_colorize_re_tree pyval).
Proof.
  unfold _colorize_ast_def.
  destruct (_is_ast_constant pyval).
  { unfold _colorize_ast_constant. sound_auto. }
  destruct pyval;
    try apply _colorize_ast_generic_sound;
    try apply _colorize_ast_attribute_sound;
    try apply _colorize_ast_call_sound;
    try (apply sound_multiline;
         first [apply _colorize_iter_sound|apply _colorize_dict_sound]).
  - unfold _colorize_ast_unary_op. sound_auto.
  - unfold _colorize_ast_binary_op. sound_auto;
      apply _colorize_ast_generic_sound.
  - unfold _colorize_ast_bool_op. sound_auto.
  - unfold _colorize_ast_name. sound_auto.
  - unfold _colorize_ast_subscript.
    repeat first [apply _colorize_iter_sound
                 |apply _colorize_ast_generic_sound
                 |sound_step].
  - sound_auto.
  - sound_auto.
Qed.

Lemma _colorize_def_sound pyval :
  sound (_colorize_def host self self_colorize self_colorize_ast
           self_colorize_re_tree pyval).
Proof.
  unfold _colorize_def. apply sound_seq; [apply sound_add_score|].
  destruct (in_builtin_constants_raises pyval);
    [apply sound_raise; reflexivity|].
  destruct (in_builtin_constants pyval);
    [destruct (str_raises pyval);
     [apply sound_raise; reflexivity|apply _output_sound]|].
  assert (Hobj : forall r,
            sound
              match r with
              | repr_KeyboardInterrupt => raise KeyboardInterrupt
              | repr_raises => add_score (-100) ;; append UNKNOWN_REPR
              | repr_returns pyval_repr =>
                  match GENERIC_OBJECT_RE_search pyval_repr with
                  | Some generic_object_match_groups =>
                      add_score (-5) ;;
                      match dict_get (py "descr") generic_object_match_groups with
                      | Some descr =>
                          _output self
                            (Str (py "<" ++ match descr with
                                            | Some d => d
                                            | None => py "None"
                                            end ++ py ">")) None false
                      | None => append UNKNOWN_REPR
                      end
                  | None => _output self (Str pyval_repr) None false
                  end
              end).
  { intros r. destruct r.
    - destruct (GENERIC_OBJECT_RE_search s); [|apply _output_sound].
      apply sound_seq; [apply sound_add_score|].
      destruct (dict_get (py "descr") l);
        [apply _output_sound|apply sound_append; reflexivity].
    - apply sound_seq; [apply sound_add_score|apply sound_append; reflexivity].
    - apply sound_raise. reflexivity. }
  destruct pyval.
  - apply _output_sound.
  - apply Hobj.
  - apply Hobj.
  - apply Hobj.
  - apply _output_sound.
  - apply _output_sound.
  - apply _output_sound.
  - apply _colorize_str_sound.
  - apply _colorize_str_sound.
  - apply sound_multiline, _colorize_iter_sound.
  - apply sound_multiline, _colorize_iter_sound.
  - apply sound_multiline, _colorize_iter_sound.
  - apply sound_multiline, _colorize_dict_sound.
  - apply sound_multiline, _colorize_iter_sound.
  - apply _colorize_re_sound. assumption.
  - apply colorize_ast_sound.
  - apply Hobj.
  - apply Hobj.
Qed.

End SoundBodies.

Lemma _colorize_re_tree_sound self fuel :
  forall tree noparen groups,
    sound (_colorize_re_tree self fuel tree noparen groups).
Proof.
  induction fuel as [|fuel IH]; intros tree noparen groups; simpl.
  - intros st. exact I.
  - apply _colorize_re_tree_def_sound. assumption.
Qed.

Lemma _colorize_sound_both host self fuel :
  (forall pyval, sound (_colorize host self fuel pyval))
  /\ (forall pyval, sound (_colorize_ast host self fuel pyval)).
Proof.
  induction fuel as [|fuel [IH1 IH2]]; simpl.
  - split; intros pyval st; exact I.
  - split; intros pyval.
    + apply _colorize_def_sound; auto. apply _colorize_re_tree_sound.
    + apply _colorize_ast_def_sound; auto. apply _colorize_re_tree_sound.
Qed.

Lemma _colorize_sound host self fuel pyval :
  sound (_colorize host self fuel pyval).
Proof. apply _colorize_sound_both. Qed.

(** ** Every method ends *)

Lemma list_max_map_In {A} (f : A -> nat) l x :
  In x l -> (f x <= list_max (map f l))%nat.
Proof.
  induction l as [|y l IH]; simpl; [tauto|].
  intros [->|H]; [lia|]. specialize (IH H). lia.
Qed.

Section Quiet.

Variable allowed : exn -> bool.
Hypothesis layout_allowed :
  forall e, is_layout_signal e = true -> allowed e = true.

Lemma okb_forallb {A} (p : A -> bool) l x :
  okb allowed (forallb p l) -> In x l -> okb allowed (p x).
Proof.
  intros [H|H] Hx; [left|right; assumption].
  rewrite forallb_forall in H. auto.
Qed.

Lemma okb_andb a b :
  okb allowed (a && b) -> okb allowed a /\ okb allowed b.
Proof.
  intros [H|H]; [apply andb_prop in H; destruct H; split; left; assumption|].
  split; right; assumption.
Qed.

Lemma okb_false e : okb allowed false -> allowed e = true.
Proof. intros [H|H]; [discriminate|apply H]. Qed.

Lemma quiet_pass : quiet allowed pass.
Proof. intros st. exact I. Qed.

Lemma quiet_raise e : allowed e = true -> quiet allowed (raise e).
Proof. intros H st. exact H. Qed.

Lemma quiet_seq m k : quiet allowed m -> quiet allowed k -> quiet allowed (m ;; k).
Proof.
  intros Hm Hk st. unfold seq. specialize (Hm st).
  destruct (m st) as [st1|e st1|]; auto. apply Hk.
Qed.

Lemma quiet_read {A} (f : _ColorizerState -> A) k :
  (forall x, quiet allowed (k x)) -> quiet allowed (read f k).
Proof. intros H st. apply (H (f st) st). Qed.

Lemma quiet_when b m : quiet allowed m -> quiet allowed (when b m).
Proof. intros H. destruct b; [assumption|apply quiet_pass]. Qed.

Lemma quiet_modify f : quiet allowed (modify f).
Proof. intros st. exact I. Qed.

Lemma quiet_append n : quiet allowed (append n).
Proof. apply quiet_modify. Qed.

Lemma quiet_add_score n : quiet allowed (add_score n).
Proof. apply quiet_modify. Qed.

Lemma quiet_for_enumerate_from {A} (body : nat -> A -> M) l :
  (forall i x, In x l -> quiet allowed (body i x)) ->
  forall i, quiet allowed (for_enumerate_from i body l).
Proof.
  induction l as [|x l IH]; intros H i; simpl.
  - apply quiet_pass.
  - apply quiet_seq; [apply H; left; reflexivity|].
    apply IH. intros j y Hy. apply H. right. assumption.
Qed.

Lemma quiet_for_enumerate {A} (body : nat -> A -> M) l :
  (forall i x, In x l -> quiet allowed (body i x)) ->
  quiet allowed (for_enumerate body l).
Proof. intros H. apply quiet_for_enumerate_from. assumption. Qed.

Lemma quiet_try_except body handles handler :
  quiet allowed body -> quiet allowed handler ->
  quiet allowed (try_except body handles handler).
Proof.
  intros Hb Hh st. unfold try_except. specialize (Hb st).
  destruct (body st) as [st1|e st1|]; auto.
  destruct (handles e); [apply Hh|assumption].
Qed.

Lemma quiet_multiline func : quiet allowed func -> quiet allowed (_multiline func).
Proof.
  intros Hf. unfold _multiline.
  apply quiet_read. intros lb. apply quiet_read. intros mk.
  apply quiet_try_except.
  - repeat apply quiet_seq; auto using quiet_modify.
  - destruct (negb lb).
    + apply quiet_raise. apply layout_allowed. reflexivity.
    + apply quiet_seq; auto using quiet_modify.
Qed.

End Quiet.

Ltac quiet_step :=
  match goal with
  | |- quiet _ (_ ;; _) => apply quiet_seq
  | |- quiet _ (try_except _ _ _) => apply quiet_try_except
  | |- quiet _ (read _ _) => apply quiet_read; intro
  | |- quiet _ (when _ _) => apply quiet_when
  | |- quiet _ pass => apply quiet_pass
  | |- quiet _ (_output _ _ _ _) => apply _output_quiet; assumption
  | |- quiet _ (append _) => apply quiet_append
  | |- quiet _ (add_score _) => apply quiet_add_score
  | |- quiet _ (modify _) => apply quiet_modify
  | |- quiet _ (for_enumerate _ _) => apply quiet_for_enumerate; intros ? ? ?
  | |- quiet _ (_multiline _) => apply quiet_multiline; [assumption|]
  | |- quiet _ (if ?x then _ else _) => destruct x
  end.

Ltac quiet_auto := repeat quiet_step.

Section QuietBodies.

Variable host : Host.
Variable self : PyvalColorizer.
Variable allowed : exn -> bool.
Hypothesis layout_allowed :
  forall e, is_layout_signal e = true -> allowed e = true.

Lemma _insert_comma_quiet indent : quiet allowed (_insert_comma self indent).
Proof. unfold _insert_comma. quiet_auto. Qed.

Lemma _colorize_str_quiet kind pyval prefix escape_fcn str_func :
  quiet allowed (_colorize_str self kind pyval prefix escape_fcn str_func).
Proof. unfold _colorize_str. quiet_auto. Qed.

Lemma _colorize_ast_generic_quiet pyval :
  quiet allowed (_colorize_ast_generic host self pyval).
Proof.
  unfold _colorize_ast_generic.
  destruct (astor_to_source host pyval); quiet_auto.
Qed.

Lemma _colorize_ast_attribute_quiet pyval :
  quiet allowed (_colorize_ast_attribute host self pyval).
Proof.
  unfold _colorize_ast_attribute.
  destruct (attribute_chain pyval []) as [parts [ ]];
    try apply _colorize_ast_generic_quiet.
  quiet_auto.
Qed.

Lemma _colorize_re_flags_quiet flags :
  quiet allowed (_colorize_re_flags self flags).
Proof. unfold _colorize_re_flags. quiet_auto. Qed.

Variable self_colorize : pyval -> M.
Variable self_colorize_ast : ast -> M.
Variable self_colorize_re_tree : list re_elt -> bool -> list (Z * pystr) -> M.

(** The depth below which the calls through [self] end. *)
Variable d : nat.

Section Regex.

Hypothesis re_tree_quiet :
  forall tree noparen groups,
    (depth_tree tree < d)%nat ->
    okb allowed (forallb renderable tree) ->
    quiet allowed (self_colorize_re_tree tree noparen groups).

Lemma okb_literal c :
  okb allowed (is_chr c) -> okb allowed (forallb renderable [LITERAL c]).
Proof.
  intros [H|H]; [left; simpl; rewrite H; reflexivity|right; assumption].
Qed.

Lemma _colorize_re_elt_quiet groups elt :
  (depth_re elt <= d)%nat ->
  okb allowed (renderable elt) ->
  quiet allowed (_colorize_re_elt self self_colorize_re_tree groups elt).
Proof.
  intros Hd Hr. unfold _colorize_re_elt.
  destruct elt; simpl in Hd, Hr;
    try (repeat first [apply re_tree_quiet;
                         [unfold depth_tree; simpl; lia|assumption]
                      |quiet_step]; fail).
  - (* LITERAL *)
    unfold is_chr in Hr.
    destruct ((c <? 0) || (1114111 <? c));
      [apply quiet_raise; exact (okb_false _ Hr)|quiet_auto].
  - (* BRANCH *)
    destruct arg0; [apply quiet_raise; exact (okb_false _ Hr)|].
    apply quiet_for_enumerate. intros i item Hin.
    apply quiet_seq; [quiet_auto|].
    apply re_tree_quiet.
    + unfold depth_tree.
      pose proof (list_max_map_In (fun item => list_max (map depth_re item))
                                  items item Hin). simpl in H. lia.
    + exact (okb_forallb (forallb renderable) items item Hr Hin).
  - (* IN *)
    assert (Hargs : (depth_tree args < d)%nat) by (unfold depth_tree; lia).
    destruct args as [|[ ] [|]]; quiet_auto; apply re_tree_quiet; assumption.
  - (* CATEGORY *)
    destruct c; quiet_auto. apply quiet_raise. exact (okb_false _ Hr).
  - (* AT *)
    destruct p; quiet_auto. apply quiet_raise. exact (okb_false _ Hr).
  - (* SUBPATTERN *)
    assert (Hp : (depth_tree p < d)%nat) by (unfold depth_tree; lia).
    apply quiet_seq;
      [|apply quiet_seq; [apply re_tree_quiet; assumption|quiet_auto]].
    destruct group; [|destruct (groups_get n groups)|]; quiet_auto.
  - (* RANGE *)
    apply okb_andb in Hr. destruct Hr as [Hlo Hhi].
    apply quiet_seq;
      [apply re_tree_quiet;
       [unfold depth_tree; simpl; lia|apply okb_literal; assumption]|].
    apply quiet_seq; [quiet_auto|].
    apply re_tree_quiet;
      [unfold depth_tree; simpl; lia|apply okb_literal; assumption].
  - (* NOT_LITERAL *)
    apply quiet_seq; [quiet_auto|].
    apply quiet_seq; [|quiet_auto].
    apply re_tree_quiet;
      [unfold depth_tree; simpl; lia|apply okb_literal; assumption].
  - (* an element without a case *)
    apply quiet_raise. exact (okb_false _ Hr).
Qed.

Lemma _colorize_re_tree_def_quiet tree noparen groups :
  (depth_tree tree <= d)%nat ->
  okb allowed (forallb renderable tree) ->
  quiet allowed
    (_colorize_re_tree_def self self_colorize_re_tree tree noparen groups).
Proof.
  intros Hd Hr. unfold _colorize_re_tree_def. quiet_auto.
  apply _colorize_re_elt_quiet.
  - pose proof (list_max_map_In depth_re tree x H). unfold depth_tree in Hd.
    lia.
  - exact (okb_forallb renderable tree x Hr H).
Qed.

Lemma _colorize_re_pattern_quiet pat flags :
  (depth_pattern host pat flags < d)%nat ->
  okb allowed (renderable_pattern host pat flags) ->
  quiet allowed (_colorize_re_pattern host self_colorize_re_tree pat flags).
Proof.
  unfold _colorize_re_pattern, depth_pattern, renderable_pattern.
  intros Hd Hr.
  destruct (match pat with
            | PyBytes b => option_map PyStr (utf8_decode b)
            | _ => Some pat
            end); [|apply quiet_raise; exact (okb_false _ Hr)].
  destruct (sre_parse_parse host p flags);
    [apply re_tree_quiet; assumption
    |apply quiet_raise; exact (okb_false _ Hr)].
Qed.

Lemma _colorize_re_quiet pat flags :
  (depth_pattern host (match pat with
                       | Str s => PyStr s
                       | Bytes b => PyBytes b
                       end) flags < d)%nat ->
  okb allowed (renderable_pattern host (match pat with
                                        | Str s => PyStr s
                                        | Bytes b => PyBytes b
                                        end) flags) ->
  quiet allowed (_colorize_re host self self_colorize_re_tree pat flags).
Proof.
  intros Hd Hr. unfold _colorize_re. quiet_auto.
  - apply _colorize_re_flags_quiet.
  - apply _colorize_re_pattern_quiet; assumption.
Qed.

End Regex.

End QuietBodies.

Lemma _colorize_re_tree_quiet self allowed :
  (forall e, is_layout_signal e = true -> allowed e = true) ->
  forall fuel tree noparen groups,
    (depth_tree tree < fuel)%nat ->
    okb allowed (forallb renderable tree) ->
    quiet allowed (_colorize_re_tree self fuel tree noparen groups).
Proof.
  intros Hlay. induction fuel as [|fuel IH]; intros tree noparen groups Hd Hr.
  - lia.
  - simpl. apply _colorize_re_tree_def_quiet with (d := fuel); auto. lia.
Qed.

Section QuietValues.

Variable host : Host.
Variable self : PyvalColorizer.
Variable allowed : exn -> bool.
Hypothesis layout_allowed :
  forall e, is_layout_signal e = true -> allowed e = true.

Variable self_colorize : pyval -> M.
Variable self_colorize_ast : ast -> M.
Variable self_colorize_re_tree : list re_elt -> bool -> list (Z * pystr) -> M.
Variable d : nat.

(** The errors that the handler of [_colorize_ast_call] takes are let
    through only when every exception is. *)
Hypothesis handled_not_allowed :
  (forall e, allowed e = true)
  \/ (forall e, allowed e = true -> is_ValueError_or_re_error e = false).

Hypothesis colorize_quiet :
  forall pyval, (depth host pyval < d)%nat -> okb allowed (plain host pyval) ->
                quiet allowed (self_colorize pyval).
Hypothesis colorize_ast_quiet :
  forall pyval, (depth_ast host pyval < d)%nat ->
                okb allowed (plain_ast host pyval) ->
                quiet allowed (self_colorize_ast pyval).
Hypothesis colorize_re_tree_quiet :
  forall tree noparen groups,
    (depth_tree tree < d)%nat ->
    okb allowed (forallb renderable tree) ->
    quiet allowed (self_colorize_re_tree tree noparen groups).

Lemma quiet_try_unhandled body handles handler :
  quiet allowed body ->
  (forall e, allowed e = true -> handles e = false) ->
  quiet allowed (try_except body handles handler).
Proof.
  intros Hb Hh st. unfold try_except. specialize (Hb st).
  destruct (body st) as [st1|e st1|]; auto.
  rewrite (Hh e Hb). exact Hb.
Qed.

Lemma _colorize_iter_quiet pyval prefix suffix :
  (forall x, In x pyval ->
             (depth host x < d)%nat /\ okb allowed (plain host x)) ->
  quiet allowed (_colorize_iter self self_colorize pyval prefix suffix).
Proof.
  intros H. unfold _colorize_iter.
  apply quiet_seq; [destruct prefix; quiet_auto|].
  apply quiet_read. intros indent.
  apply quiet_seq; [|destruct suffix; quiet_auto].
  apply quiet_for_enumerate. intros i x Hx. destruct (H x Hx).
  apply quiet_seq; [apply quiet_when, _insert_comma_quiet; assumption|].
  apply quiet_seq; [apply quiet_append|]. apply colorize_quiet; assumption.
Qed.

Lemma _colorize_dict_quiet items prefix suffix :
  (forall kv, In kv items ->
              (depth host (fst kv) < d)%nat /\ okb allowed (plain host (fst kv))
              /\ (depth host (snd kv) < d)%nat /\ okb allowed (plain host (snd kv))) ->
  quiet allowed (_colorize_dict self self_colorize items prefix suffix).
Proof.
  intros H. unfold _colorize_dict.
  apply quiet_seq; [quiet_auto|]. apply quiet_read. intros indent.
  apply quiet_seq; [|quiet_auto].
  apply quiet_for_enumerate. intros i x Hx. destruct (H x Hx) as (? & ? & ? & ?).
  apply quiet_seq; [quiet_auto|].
  apply quiet_seq; [apply quiet_append|].
  apply quiet_seq; [apply colorize_quiet; assumption|].
  apply quiet_seq; [quiet_auto|]. apply colorize_quiet; assumption.
Qed.

(** [_colorize_iter] on the elements of a list of nodes. *)
Lemma _colorize_iter_nodes_quiet elts prefix suffix :
  (S (list_max (map (depth_ast host) elts)) < d)%nat ->
  okb allowed (forallb (plain_ast host) elts) ->
  quiet allowed
    (_colorize_iter self self_colorize (map PyAst elts) prefix suffix).
Proof.
  intros Hd Hp. apply _colorize_iter_quiet. intros x Hx.
  apply in_map_iff in Hx. destruct Hx as (e & <- & He).
  pose proof (list_max_map_In (depth_ast host) elts e He). simpl.
  split; [lia|]. exact (okb_forallb (plain_ast host) elts e Hp He).
Qed.

Lemma _colorize_ast_call_generic_quiet func args keywords :
  (depth_ast host (ast_Call func args keywords) <= d)%nat ->
  okb allowed (plain_ast host func) ->
  okb allowed (forallb (plain_ast host) args) ->
  okb allowed (forallb (fun kw => plain_ast host (snd kw)) keywords) ->
  quiet allowed
    (_colorize_ast_call_generic self self_colorize self_colorize_ast
       func args keywords).
Proof.
  intros Hd Hf Ha Hk. simpl in Hd. unfold _colorize_ast_call_generic.
  apply quiet_seq; [apply colorize_ast_quiet; [lia|assumption]|].
  apply quiet_seq; [quiet_auto|]. apply quiet_read. intros indent.
  apply quiet_seq;
    [apply quiet_multiline; [assumption|];
     apply _colorize_iter_nodes_quiet; [lia|assumption]|].
  apply quiet_seq; [|quiet_auto].
  destruct keywords as [|kw keywords']; [apply quiet_pass|].
  set (keywords := kw :: keywords') in *.
  apply quiet_seq;
    [destruct args; [apply quiet_pass|apply _insert_comma_quiet; assumption]|].
  apply quiet_multiline; [assumption|].
  apply _colorize_iter_quiet. intros x Hx. unfold keyword_nodes in Hx.
  apply in_map_iff in Hx. destruct Hx as (k & <- & Hin).
  pose proof (list_max_map_In (fun kw => depth_ast host (snd kw)) keywords k Hin)
    as Hle. cbv beta in Hle. simpl. split; [lia|].
  exact (okb_forallb (fun kw => plain_ast host (snd kw)) keywords k Hk Hin).
Qed.

Lemma _colorize_ast_re_quiet args_ func args keywords :
  bind_args args keywords = Some args_ ->
  (depth_ast host (ast_Call func args keywords) <= d)%nat ->
  okb allowed (renderable_call_pattern host args keywords) ->
  okb allowed (plain_ast host func) ->
  okb allowed (forallb (plain_ast host) args) ->
  okb allowed (forallb (fun kw => plain_ast host (snd kw)) keywords) ->
  quiet allowed
    (_colorize_ast_re host self self_colorize self_colorize_ast
       self_colorize_re_tree args_ func args keywords).
Proof.
  intros Hbind Hd Hre Hf Ha Hk.
  assert (Hgen : quiet allowed
            (_colorize_ast_call_generic self self_colorize self_colorize_ast
               func args keywords))
    by (apply _colorize_ast_call_generic_quiet; assumption).
  unfold _colorize_ast_re.
  destruct (get_pattern args_) as [ast_pattern|] eqn:Epat; [|assumption].
  destruct (_is_ast_constant ast_pattern) eqn:Ec; [|assumption].
  simpl in Hd. unfold depth_call_pattern in Hd. rewrite Hbind, Epat in Hd.
  unfold renderable_call_pattern in Hre. rewrite Hbind, Epat, Ec in Hre.
  apply quiet_seq; [apply colorize_ast_quiet; [lia|assumption]|].
  apply quiet_seq; [quiet_auto|]. apply quiet_read. intros indent.
  apply quiet_seq; [quiet_auto|]. apply quiet_seq; [quiet_auto|].
  apply quiet_seq;
    [apply _colorize_re_pattern_quiet with (d := d);
     [apply colorize_re_tree_quiet|lia|assumption]|].
  apply quiet_seq; [quiet_auto|]. apply quiet_seq; [|quiet_auto].
  destruct (get_flags args_) as [ast_flags|] eqn:Eflags; [|apply quiet_pass].
  apply quiet_seq; [apply _insert_comma_quiet; assumption|].
  (* the flags are an argument or the value of a keyword *)
  assert (Hin : In ast_flags args \/ In ast_flags (map snd keywords)).
  { clear - Hbind Eflags. unfold bind_args in Hbind.
    assert (Hkw : forall name v, kwarg name keywords = Some v ->
                                 In v (map snd keywords)).
    { clear. intros name v. induction keywords as [|[a x] l IH]; simpl;
        [discriminate|].
      destruct (kwarg name l); [intros E; right; apply IH; assumption|].
      destruct a; [|discriminate]. destruct (str_eqb p name); [|discriminate].
      intros E. injection E as ->. left. reflexivity. }
    destruct (unexpected_keyword keywords); [discriminate|].
    destruct args as [|p [|f [|]]]; try discriminate.
    - destruct (kwarg (py "pattern") keywords); [|discriminate].
      injection Hbind as <-. simpl in Eflags. right. eapply Hkw; eassumption.
    - destruct (is_some (kwarg (py "pattern") keywords)); [discriminate|].
      injection Hbind as <-. simpl in Eflags. right. eapply Hkw; eassumption.
    - destruct (is_some (kwarg (py "pattern") keywords)
                || is_some (kwarg (py "flags") keywords)); [discriminate|].
      injection Hbind as <-. simpl in Eflags. injection Eflags as <-.
      left. right. left. reflexivity. }
  destruct Hin as [Hin|Hin].
  - apply colorize_ast_quiet;
      [|exact (okb_forallb (plain_ast host) args ast_flags Ha Hin)].
    pose proof (list_max_map_In (depth_ast host) args ast_flags Hin). lia.
  - apply in_map_iff in Hin. destruct Hin as (k & <- & Hin).
    apply colorize_ast_quiet;
      [|exact (okb_forallb (fun kw => plain_ast host (snd kw)) keywords k
                 Hk Hin)].
    pose proof (list_max_map_In (fun kw => depth_ast host (snd kw)) keywords k Hin)
      as Hle. cbv beta in Hle. lia.
Qed.

Lemma _colorize_ast_call_quiet func args keywords :
  (depth_ast host (ast_Call func args keywords) <= d)%nat ->
  okb allowed (plain_ast host (ast_Call func args keywords)) ->
  quiet allowed
    (_colorize_ast_call host self self_colorize self_colorize_ast
       self_colorize_re_tree func args keywords).
Proof.
  intros Hd Hp. unfold _colorize_ast_call. simpl in Hp.
  apply okb_andb in Hp. destruct Hp as [Hp Hk].
  apply okb_andb in Hp. destruct Hp as [Hp Ha].
  apply okb_andb in Hp. destruct Hp as [Hre Hf].
  assert (Hgen : quiet allowed
            (_colorize_ast_call_generic self self_colorize self_colorize_ast
               func args keywords))
    by (apply _colorize_ast_call_generic_quiet; assumption).
  destruct (is_re_compile func); [|assumption]. simpl in Hre.
  destruct (bind_args args keywords) eqn:Hbind; [|assumption].
  assert (Hbody : quiet allowed
            (_colorize_ast_re host self self_colorize self_colorize_ast
               self_colorize_re_tree b func args keywords))
    by (apply _colorize_ast_re_quiet; assumption).
  apply quiet_read. intros mk.
  destruct handled_not_allowed as [Hall|Hnot].
  - apply quiet_try_except; [exact Hbody|].
    apply quiet_seq; [apply quiet_modify|]. apply quiet_raise, Hall.
  - apply quiet_try_unhandled; [exact Hbody|exact Hnot].
Qed.

Lemma _colorize_ast_constant_quiet pyval :
  _is_ast_constant pyval = true ->
  (depth_ast host pyval <= d)%nat ->
  okb allowed (plain_ast host pyval) ->
  quiet allowed (_colorize_ast_constant self self_colorize pyval).
Proof.
  intros Hc Hd Hp. unfold _colorize_ast_constant.
  assert (H : _get_ast_constant_val pyval = PyEllipsis
              \/ ((depth host (_get_ast_constant_val pyval) < d)%nat
                  /\ okb allowed (plain host (_get_ast_constant_val pyval)))).
  { destruct pyval; try discriminate; simpl in *;
      first [right; split; [lia|assumption]|left; reflexivity]. }
  destruct H as [->|[H1 H2]]; [quiet_auto|].
  destruct (_get_ast_constant_val pyval); try (apply colorize_quiet; assumption).
  quiet_auto.
Qed.

Lemma _colorize_ast_subscript_quiet value slice :
  (depth_ast host (ast_Subscript value slice) <= d)%nat ->
  okb allowed (plain_ast host (ast_Subscript value slice)) ->
  quiet allowed
    (_colorize_ast_subscript host self self_colorize self_colorize_ast
       value slice).
Proof.
  intros Hd Hp. simpl in Hd, Hp. apply okb_andb in Hp. destruct Hp as [Hv Hs].
  unfold _colorize_ast_subscript.
  apply quiet_seq; [apply colorize_quiet; simpl; [lia|assumption]|].
  set (sub := match slice with ast_Index v => v | _ => slice end).
  assert (Hsub : (depth_ast host sub <= depth_ast host slice)%nat
                 /\ okb allowed (plain_ast host sub)).
  { subst sub. destruct slice; simpl; split; auto; lia. }
  destruct Hsub as [Hsd Hsp].
  apply quiet_seq; [quiet_auto|]. apply quiet_seq; [|quiet_auto].
  destruct sub;
    try (apply quiet_seq; [apply quiet_append|];
         first [apply _colorize_ast_generic_quiet; assumption
               |apply colorize_ast_quiet; [lia|assumption]]).
  apply quiet_multiline; [assumption|].
  apply _colorize_iter_nodes_quiet; [simpl in Hsd; lia|exact Hsp].
Qed.

Lemma _colorize_ast_def_quiet pyval :
  (depth_ast host pyval <= d)%nat ->
  okb allowed (plain_ast host pyval) ->
  quiet allowed
    (_colorize_ast_def host self self_colorize self_colorize_ast
       self_colorize_re_tree pyval).
Proof.
  intros Hd Hp. unfold _colorize_ast_def.
  destruct (_is_ast_constant pyval) eqn:Ec;
    [apply _colorize_ast_constant_quiet; assumption|].
  destruct pyval; try discriminate;
    try (apply _colorize_ast_generic_quiet; assumption);
    try (apply _colorize_ast_attribute_quiet; assumption);
    try (apply _colorize_ast_call_quiet; assumption);
    try (apply _colorize_ast_subscript_quiet; assumption);
    try (apply quiet_multiline; [assumption|];
         apply _colorize_iter_nodes_quiet; [simpl in Hd; lia|exact Hp]).
  - (* UnaryOp *)
    unfold _colorize_ast_unary_op. simpl in Hd, Hp.
    apply quiet_seq; [destruct op; quiet_auto|].
    apply colorize_quiet; simpl; [lia|assumption].
  - (* BinOp *)
    unfold _colorize_ast_binary_op. simpl in Hd, Hp.
    apply okb_andb in Hp. destruct Hp as [Hl Hr].
    apply quiet_seq; [apply colorize_quiet; simpl; [lia|assumption]|].
    apply quiet_seq; [|apply colorize_quiet; simpl; [lia|assumption]].
    destruct op; quiet_auto. apply _colorize_ast_generic_quiet; assumption.
  - (* BoolOp *)
    unfold _colorize_ast_bool_op. simpl in Hd, Hp.
    apply quiet_for_enumerate. intros i x Hx.
    pose proof (list_max_map_In (depth_ast host) values x Hx).
    apply quiet_seq;
      [apply colorize_quiet; simpl;
       [lia|exact (okb_forallb (plain_ast host) values x Hp Hx)]|].
    apply quiet_when. destruct op; quiet_auto.
  - (* Dict *)
    apply quiet_multiline; [assumption|]. simpl in Hd, Hp.
    apply okb_andb in Hp. destruct Hp as [Hk Hv].
    apply _colorize_dict_quiet. intros [k v] Hin.
    pose proof (in_combine_l _ _ _ _ Hin) as Hkin.
    pose proof (in_combine_r _ _ _ _ Hin) as Hvin.
    apply in_map_iff in Hkin. destruct Hkin as (k0 & <- & Hk0).
    apply in_map_iff in Hvin. destruct Hvin as (v0 & <- & Hv0).
    pose proof (list_max_map_In (fun k => match k with
                                          | Some n => depth_ast host n
                                          | None => 0%nat
                                          end) keys k0 Hk0) as Hkd.
    pose proof (list_max_map_In (depth_ast host) values v0 Hv0) as Hvd.
    pose proof (okb_forallb _ keys k0 Hk Hk0) as Hkp.
    pose proof (okb_forallb _ values v0 Hv Hv0) as Hvp.
    cbv beta in Hkd, Hkp. simpl.
    destruct k0; simpl; repeat split; try lia; try assumption.
  - (* Name *)
    unfold _colorize_ast_name. quiet_auto.
  - (* Starred *)
    simpl in Hd, Hp. apply quiet_seq; [quiet_auto|].
    apply colorize_ast_quiet; [lia|assumption].
  - (* keyword *)
    simpl in Hd, Hp. apply quiet_seq; [destruct arg; quiet_auto|].
    apply colorize_ast_quiet; [lia|assumption].
Qed.

Lemma _colorize_def_quiet pyval :
  (depth host pyval <= d)%nat ->
  okb allowed (plain host pyval) ->
  quiet allowed
    (_colorize_def host self self_colorize self_colorize_ast
       self_colorize_re_tree pyval).
Proof.
  intros Hd Hp. unfold _colorize_def.
  apply quiet_seq; [apply quiet_add_score|].
  destruct (in_builtin_constants_raises pyval) as [e|] eqn:E1.
  { apply quiet_raise.
    destruct pyval; try discriminate. simpl in E1, Hp.
    destruct in_constants; [discriminate|]. exact (okb_false _ Hp). }
  destruct (in_builtin_constants pyval) eqn:E2.
  { destruct (str_raises pyval) as [e|] eqn:E3; [|quiet_auto].
    apply quiet_raise.
    destruct pyval; try discriminate. simpl in E1, E2, E3, Hp.
    destruct in_constants as [b|]; [|discriminate]. subst b.
    destruct str_; [discriminate|]. exact (okb_false _ Hp). }
  assert (Hiter : forall elts prefix suffix,
            (S (list_max (map (depth host) elts)) <= d)%nat ->
            okb allowed (forallb (plain host) elts) ->
            quiet allowed
              (_multiline (_colorize_iter self self_colorize elts prefix suffix))).
  { intros elts prefix suffix Hd' Hp'. apply quiet_multiline; [assumption|].
    apply _colorize_iter_quiet. intros x Hx.
    pose proof (list_max_map_In (depth host) elts x Hx).
    split; [lia|exact (okb_forallb (plain host) elts x Hp' Hx)]. }
  assert (Hobj : forall r,
            (r = repr_KeyboardInterrupt -> forall e, allowed e = true) ->
            quiet allowed
              match r with
              | repr_KeyboardInterrupt => raise KeyboardInterrupt
              | repr_raises => add_score (-100) ;; append UNKNOWN_REPR
              | repr_returns pyval_repr =>
                  match GENERIC_OBJECT_RE_search pyval_repr with
                  | Some generic_object_match_groups =>
                      add_score (-5) ;;
                      match dict_get (py "descr") generic_object_match_groups with
                      | Some descr =>
                          _output self
                            (Str (py "<" ++ match descr with
                                            | Some d => d
                                            | None => py "None"
                                            end ++ py ">")) None false
                      | None => append UNKNOWN_REPR
                      end
                  | None => _output self (Str pyval_repr) None false
                  end
              end).
  { intros r Hr. destruct r.
    - destruct (GENERIC_OBJECT_RE_search s); [|quiet_auto].
      apply quiet_seq; [apply quiet_add_score|].
      destruct (dict_get (py "descr") l); quiet_auto.
    - quiet_auto.
    - apply quiet_raise. apply Hr. reflexivity. }
  destruct pyval; simpl in Hd, Hp;
    try (quiet_auto; fail);
    try (apply _colorize_str_quiet; assumption);
    try (apply Hiter; assumption);
    try (apply Hobj; simpl; intros; discriminate).
  - (* dict *)
    apply quiet_multiline; [assumption|].
    apply _colorize_dict_quiet. intros kv Hin.
    pose proof (list_max_map_In
                  (fun kv => Nat.max (depth host (fst kv)) (depth host (snd kv)))
                  items kv Hin) as Hle.
    pose proof (okb_forallb _ items kv Hp Hin) as Hkv.
    cbv beta in Hle, Hkv. apply okb_andb in Hkv. destruct Hkv.
    repeat split; try lia; assumption.
  - (* compiled pattern *)
    apply _colorize_re_quiet with (d := d);
      [assumption|apply colorize_re_tree_quiet|lia|assumption].
  - (* node *)
    apply colorize_ast_quiet; [lia|assumption].
  - (* object *)
    apply Hobj. simpl. intros ->. intros e. exact (okb_false e Hp).
  - (* object with an [__eq__] *)
    apply Hobj. simpl. intros ->. intros e.
    destruct in_constants as [b|]; [|discriminate]. simpl in E2. subst b.
    exact (okb_false e Hp).
Qed.

End QuietValues.

Lemma _colorize_quiet_both host self allowed :
  (forall e, is_layout_signal e = true -> allowed e = true) ->
  ((forall e, allowed e = true)
   \/ (forall e, allowed e = true -> is_ValueError_or_re_error e = false)) ->
  forall fuel,
    (forall pyval, (depth host pyval < fuel)%nat -> okb allowed (plain host pyval) ->
                   quiet allowed (_colorize host self fuel pyval))
    /\ (forall pyval, (depth_ast host pyval < fuel)%nat ->
                      okb allowed (plain_ast host pyval) ->
                      quiet allowed (_colorize_ast host self fuel pyval)).
Proof.
  intros Hlay Hhandled. induction fuel as [|fuel [IH1 IH2]].
  - split; intros; lia.
  - split; intros pyval Hd Hp; simpl.
    + apply _colorize_def_quiet with (d := fuel); auto; [|lia].
      intros tree noparen groups Ht Hr. apply _colorize_re_tree_quiet; auto.
    + apply _colorize_ast_def_quiet with (d := fuel); auto; [|lia].
      intros tree noparen groups Ht Hr. apply _colorize_re_tree_quiet; auto.
Qed.

(** With more fuel than the depth of the value, [_colorize] ends: it
    returns or raises. *)
Lemma _colorize_ends host self fuel pyval st :
  (depth host pyval < fuel)%nat ->
  _colorize host self fuel pyval st <> OutOfFuel.
Proof.
  intros Hd.
  pose proof (proj1 (@_colorize_quiet_both host self (fun _ => true)
                       (fun _ _ => eq_refl) (or_introl (fun _ => eq_refl))
                       fuel) pyval Hd
                    (or_intror (fun _ => eq_refl)) st) as H.
  destruct (_colorize host self fuel pyval st); [discriminate|discriminate|].
  destruct H.
Qed.


(** ** [_trim_result] *)


Lemma last_node_Some l n : last_node l = Some n -> l = removelast l ++ [n].
Proof.
  unfold last_node. intros H.
  destruct (rev l) as [|x r] eqn:E; [discriminate|]. injection H as ->.
  assert (El : l = rev r ++ [n]).
  { rewrite <- (rev_involutive l), E. reflexivity. }
  rewrite El at 2. rewrite removelast_last. exact El.
Qed.

Lemma last_node_None l : last_node l = None -> l = [].
Proof.
  unfold last_node. intros H. destruct (rev l) eqn:E; [|discriminate].
  rewrite <- (rev_involutive l), E. reflexivity.
Qed.

Lemma Forall_removelast {A} (P : A -> Prop) l :
  Forall P l -> Forall P (removelast l).
Proof.
  induction 1 as [|x l Hx Hl IH]; simpl; [constructor|].
  destruct l; [constructor|]. constructor; assumption.
Qed.

Lemma length_removelast_last l n :
  last_node l = Some n -> List.length l = S (List.length (removelast l)).
Proof.
  intros H. rewrite (last_node_Some l H) at 1.
  rewrite length_app. simpl. lia.
Qed.

(** The loop of [_trim_result] has fuel enough. *)
Lemma trim_loop_ends fuel :
  forall result num_chars,
    (List.length result + Z.to_nat num_chars <= fuel)%nat ->
    trim_loop fuel result num_chars <> None.
Proof.
  induction fuel as [|fuel IH]; intros result num_chars Hfuel.
  - simpl. destruct (num_chars <=? 0) eqn:E; [discriminate|].
    apply Z.leb_gt in E. lia.
  - simpl. destruct (num_chars <=? 0) eqn:E; [discriminate|].
    apply Z.leb_gt in E.
    destruct (last_node result) as [n|] eqn:El; [|discriminate].
    pose proof (length_removelast_last result El) as Hlen.
    destruct (negb (is_Text n) && is_empty (astext n)).
    + apply IH. lia.
    + assert (Hothers : forall s,
                List.length (rewrite_shared n s (removelast result))
                = List.length (removelast result)).
      { intros s. unfold rewrite_shared. destruct (is_shared n);
          [apply length_map|reflexivity]. }
      destruct (is_empty (slice_to (astext n) (- Z.min num_chars (len (astext n)))))
        eqn:Ee.
      * apply IH. rewrite Hothers. unfold len. lia.
      * apply IH. rewrite length_app, Hothers. simpl.
        (* the text is not used up: [num_chars] is *)
        assert (Hmin : Z.min num_chars (len (astext n)) = num_chars).
        { destruct (Z.min_spec num_chars (len (astext n))) as [[_ H]|[Hle H]];
            [assumption|].
          exfalso. rewrite H in Ee. unfold slice_to, slice_index in Ee.
          destruct (- len (astext n) <? 0) eqn:En.
          - rewrite Z.add_opp_diag_r in Ee. simpl in Ee. discriminate.
          - apply Z.ltb_ge in En. unfold len in En.
            destruct (astext n); [discriminate|simpl in En; lia]. }
        rewrite Hmin. lia.
Qed.

Lemma _trim_result_ends result num_chars : _trim_result result num_chars <> None.
Proof. unfold _trim_result. apply trim_loop_ends. lia. Qed.

(** What holds of every node, and of a node with a part of its text, holds
    of the trimmed nodes. *)
Lemma trim_loop_Forall (P : node -> Prop) :
  (forall n k, P n -> P (with_text n (slice_to (astext n) k))) ->
  forall fuel result num_chars result',
    Forall P result ->
    trim_loop fuel result num_chars = Some result' ->
    Forall P result'.
Proof.
  intros HP. induction fuel as [|fuel IH]; intros result num_chars result' Hr;
    simpl; destruct (num_chars <=? 0); try (intros E; injection E as <-; assumption);
    try discriminate.
  destruct (last_node result) as [n|] eqn:El;
    [|intros E; injection E as <-; assumption].
  assert (Hn : P n).
  { rewrite (last_node_Some result El) in Hr. apply Forall_app in Hr.
    destruct Hr as [_ Hr]. inversion Hr. assumption. }
  destruct (negb (is_Text n) && is_empty (astext n)).
  - apply IH. apply Forall_removelast. assumption.
  - assert (Hothers : forall k,
              Forall P (rewrite_shared n (slice_to (astext n) k)
                          (removelast result))).
    { intros k. unfold rewrite_shared.
      destruct (is_shared n); [|apply Forall_removelast; assumption].
      apply Forall_map. eapply Forall_impl;
        [|apply Forall_removelast; eassumption].
      intros m Hm. cbv beta. destruct (same_marker n m); [|exact Hm].
      apply HP. exact Hn. }
    apply IH.
    destruct (is_empty (slice_to (astext n) (- Z.min num_chars (len (astext n))))).
    + apply Hothers.
    + apply Forall_app. split; [apply Hothers|].
      constructor; [apply HP; assumption|constructor].
Qed.

(** ** Text that fits *)

Section OutputEquations.

Variable self : PyvalColorizer.

Lemma split_newline_single s : contains NL s = false -> split_newline s = [s].
Proof.
  induction s as [|c s IH]; [reflexivity|].
  unfold contains. cbn [existsb split_newline]. intros H.
  apply orb_false_elim in H. destruct H as [Hc Hs].
  rewrite Z.eqb_sym, Hc. rewrite (IH Hs). reflexivity.
Qed.

Lemma split_newline_app s rest :
  contains NL s = false ->
  split_newline (s ++ NL :: rest) = s :: split_newline rest.
Proof.
  induction s as [|c s IH]; [reflexivity|].
  unfold contains. cbn [existsb]. intros H.
  apply orb_false_elim in H. destruct H as [Hc Hs].
  cbn [app split_newline]. rewrite Z.eqb_sym, Hc. rewrite (IH Hs). reflexivity.
Qed.

Lemma seq_eq m k1 k2 st :
  (forall s, m st = Normal s -> k1 s = k2 s) -> (m ;; k1) st = (m ;; k2) st.
Proof. intros H. unfold seq. destruct (m st); auto. Qed.

(** The loop gives the same with any fuel that is enough. *)
Lemma output_segments_fuel css_class link f1 :
  forall f2 segments (later : bool) st,
    (List.length segments + Z.to_nat (maxlines self - lineno st)
     + (if later then 0 else 1) <= f1)%nat ->
    (List.length segments + Z.to_nat (maxlines self - lineno st)
     + (if later then 0 else 1) <= f2)%nat ->
    output_segments self f1 segments later css_class link st
    = output_segments self f2 segments later css_class link st.
Proof.
  induction f1 as [|f1 IH]; intros f2 segments later st H1 H2.
  - destruct segments; [destruct f2; reflexivity|]. simpl in H1. lia.
  - destruct segments as [|segment rest]; [destruct f2; reflexivity|].
    destruct f2 as [|f2]; [simpl in H2; lia|].
    simpl in H1, H2. cbn [output_segments].
    assert (Hbody : forall st,
      (List.length rest + Z.to_nat (maxlines self - lineno st) + 1 <= f1)%nat ->
      (List.length rest + Z.to_nat (maxlines self - lineno st) + 1 <= f2)%nat ->
      (if fits self segment link st
       then (modify (fun st => set_charpos (charpos st + len segment) st) ;;
             append (fitting_element segment css_class link) ;;
             output_segments self f1 rest true css_class link) st
       else (modify (fun st =>
               set_result (result st ++
                 [wrapped_element
                    (slice_to segment
                       match linelen self with
                       | Some n => n - charpos st
                       | None => 0
                       end) css_class; LINEWRAP]) st) ;;
             output_segments self f1
               (slice_from segment
                  match linelen self with
                  | Some n => n - charpos st
                  | None => 0
                  end :: rest) true css_class link) st)
      = (if fits self segment link st
       then (modify (fun st => set_charpos (charpos st + len segment) st) ;;
             append (fitting_element segment css_class link) ;;
             output_segments self f2 rest true css_class link) st
       else (modify (fun st =>
               set_result (result st ++
                 [wrapped_element
                    (slice_to segment
                       match linelen self with
                       | Some n => n - charpos st
                       | None => 0
                       end) css_class; LINEWRAP]) st) ;;
             output_segments self f2
               (slice_from segment
                  match linelen self with
                  | Some n => n - charpos st
                  | None => 0
                  end :: rest) true css_class link) st)).
    { clear st H1 H2. intros st H1 H2.
      destruct (fits self segment link st); unfold seq, modify, append;
        apply IH; simpl; lia. }
    apply seq_eq. intros s Hs. destruct later; simpl in Hs.
    + unfold start_line in Hs.
      destruct (maxlines self <? lineno st + 1) eqn:Emax; [discriminate|].
      destruct (linebreakok st); simpl in Hs; [|discriminate].
      injection Hs as <-.
      apply Z.ltb_ge in Emax. apply Hbody; simpl; lia.
    + injection Hs as <-. apply Hbody; lia.
Qed.

Lemma output_segments_nil fuel later css_class link :
  output_segments self fuel [] later css_class link = pass.
Proof. destruct fuel; reflexivity. Qed.

(** [_output] of a text without newline that fits, or is a link: one
    node. *)
Lemma _output_fitting s css_class link st :
  contains NL (as_str s) = false ->
  fits self (as_str s) link st = true ->
  _output self s css_class link st
  = Normal (emit (as_str s) css_class link st).
Proof.
  intros Hnl Hfit. unfold _output. fold (as_str s).
  rewrite (split_newline_single _ Hnl). unfold output_fuel.
  cbn [List.length Nat.add output_segments].
  replace (1 + Z.to_nat (maxlines self - lineno st) + 1)%nat
    with (S (S (Z.to_nat (maxlines self - lineno st)))) by lia.
  cbn [output_segments when]. unfold seq at 1. unfold pass.
  rewrite Hfit. unfold seq, modify, append.
  rewrite output_segments_nil. reflexivity.
Qed.

Lemma split_newline_tail s tail :
  contains NL s = false -> starts_line tail = true ->
  split_newline (s ++ tail) = s :: segments_after tail.
Proof.
  intros Hs Ht. destruct tail as [|c rest].
  - rewrite app_nil_r. apply split_newline_single. assumption.
  - simpl in Ht. apply Z.eqb_eq in Ht. subst c.
    apply split_newline_app. assumption.
Qed.

(** A later segment is a first segment after the start of a line. *)
Lemma output_segments_later css_class link fuel segment rest st :
  (List.length (segment :: rest) + Z.to_nat (maxlines self - lineno st)
   <= fuel)%nat ->
  output_segments self fuel (segment :: rest) true css_class link st
  = (start_line self ;;
     fun st' => output_segments self (output_fuel self (segment :: rest) st')
                                (segment :: rest) false css_class link st') st.
Proof.
  intros Hfuel. destruct fuel as [|fuel]; [simpl in Hfuel; lia|].
  transitivity ((start_line self ;;
                 output_segments self (S fuel) (segment :: rest) false
                                 css_class link) st).
  - reflexivity.
  - apply seq_eq. intros s Hs. unfold start_line in Hs.
    destruct (maxlines self <? lineno st + 1) eqn:Emax; [discriminate|].
    destruct (linebreakok st); simpl in Hs; [|discriminate].
    injection Hs as <-. apply Z.ltb_ge in Emax.
    apply output_segments_fuel; unfold output_fuel; simpl in *; lia.
Qed.

(** [_output] of a segment that fits and is followed by a newline: the
    node, the start of a line, and the rest. *)
Lemma _output_newline segment rest css_class link st :
  contains NL segment = false ->
  fits self segment link st = true ->
  _output self (Str (segment ++ NL :: rest)) css_class link st
  = (start_line self ;; _output self (Str rest) css_class link)
      (emit segment css_class link st).
Proof.
  intros Hnl Hfit. unfold _output at 1.
  rewrite (split_newline_app _ rest Hnl).
  destruct (split_newline rest) as [|seg' segs] eqn:Es;
    [destruct (split_newline_nonempty rest Es)|].
  unfold output_fuel. cbn [List.length].
  replace (S (S (List.length segs)) + Z.to_nat (maxlines self - lineno st) + 1)%nat
    with (S (S (S (List.length segs)) + Z.to_nat (maxlines self - lineno st)))
    by lia.
  cbn [output_segments when]. unfold seq at 1. unfold pass. rewrite Hfit.
  unfold seq at 1 2. unfold append, modify. cbv beta iota.
  match goal with
  | |- output_segments _ _ _ _ _ _ ?s = _ => change s with (emit segment css_class link st)
  end.
  rewrite output_segments_later by (simpl; lia).
  apply seq_eq. intros s Hs. unfold _output. simpl. rewrite Es. reflexivity.
Qed.

(** [_output] of a segment that does not fit: its first part with the
    line-wrap marker, the start of a line, and the rest of the segment
    with what follows it. *)
Lemma _output_wrap segment tail css_class link st :
  contains NL segment = false -> starts_line tail = true ->
  fits self segment link st = false ->
  _output self (Str (segment ++ tail)) css_class link st
  = (start_line self ;;
     _output self
       (Str (slice_from segment match linelen self with
                                | Some n => n - charpos st
                                | None => 0
                                end ++ tail)) css_class link)
      (wrap self segment css_class st).
Proof.
  intros Hnl Ht Hfit. unfold _output at 1.
  cbv beta iota. rewrite (split_newline_tail _ _ Hnl Ht).
  unfold output_fuel. cbn [List.length].
  replace (S (List.length (segments_after tail))
           + Z.to_nat (maxlines self - lineno st) + 1)%nat
    with (S (S (List.length (segments_after tail))
             + Z.to_nat (maxlines self - lineno st))) by lia.
  cbn [output_segments when]. unfold seq at 1. unfold pass. rewrite Hfit.
  unfold seq at 1. unfold modify. cbv beta iota.
  match goal with
  | |- output_segments _ _ _ _ _ _ ?s = _ => change s with (wrap self segment css_class st)
  end.
  rewrite output_segments_later by (simpl; lia).
  apply seq_eq. intros s Hs. unfold _output. cbv beta iota.
  rewrite split_newline_tail;
    [reflexivity|apply contains_skipn; assumption|assumption].
Qed.

End OutputEquations.

(** [_multiline], case by case. *)
Lemma _multiline_unfold func st :
  _multiline func st
  = match func (set_linebreakok false st) with
    | Normal st1 => Normal (set_linebreakok (linebreakok st) st1)
    | Raised e st1 =>
        if is_Linebreak e then
          if negb (linebreakok st) then Raised _Linebreak st1
          else func (restore (mark st) st1)
        else Raised e st1
    | OutOfFuel => OutOfFuel
    end.
Proof.
  unfold _multiline, read, try_except, seq, modify, raise.
  destruct (func (set_linebreakok false st)); try reflexivity.
  destruct (is_Linebreak e); [|reflexivity].
  destruct (negb (linebreakok st)); reflexivity.
Qed.

(** ** The claims *)

(** *** The minimum score *)



(** *** The compact attempt and the retry *)

(** C5. [_multiline] first runs the renderer with line breaks off.  When
    that attempt raises [_Linebreak] and the caller's flag was already off,
    the signal goes on with the state as it is; when the caller's flag was
    on, the state is restored to exactly the state before the attempt
    (nodes, column, line, flag and score) and the same renderer runs once
    more, with line breaks on.  An attempt that returns gets the caller's
    flag back, and any other exception goes on. *)
Theorem C5_multiline_compact_then_retry host self fuel r st :
  match run_render host self fuel r (set_linebreakok false st) with
  | Normal st1 =>
      _multiline (run_render host self fuel r) st
      = Normal (set_linebreakok (linebreakok st) st1)
  | Raised _Linebreak st1 =>
      if linebreakok st then
        restore (mark st) st1 = st
        /\ _multiline (run_render host self fuel r) st
           = run_render host self fuel r st
      else
        _multiline (run_render host self fuel r) st = Raised _Linebreak st1
  | Raised e st1 =>
      _multiline (run_render host self fuel r) st = Raised e st1
  | OutOfFuel => _multiline (run_render host self fuel r) st = OutOfFuel
  end.
Proof.
  assert (Hsound : sound (run_render host self fuel r)).
  { destruct r; simpl.
    - apply _colorize_iter_sound. apply _colorize_sound.
    - apply _colorize_dict_sound. apply _colorize_sound. }
  pose proof (Hsound (set_linebreakok false st)) as Hpost.
  rewrite _multiline_unfold.
  destruct (run_render host self fuel r (set_linebreakok false st))
    as [st1|e st1|]; [reflexivity| |reflexivity].
  destruct Hpost as (suf & R & _).
  destruct e; try reflexivity. simpl.
  destruct (linebreakok st); simpl; [|reflexivity].
  rewrite (@restore_mark st st1 suf R). split; reflexivity.
Qed.

(** *** A malformed pattern in [re.compile] *)

(** C1 (the code departs from the claim).  On [re.compile("(")] the
    pattern does not parse: [_colorize_ast_call] catches [re.error] and
    restores the state, and then calls [_colorize_ast_call_generic] with one
    argument too many; the TypeError of that call leaves [colorize_pyval],
    whatever the minimum score and whatever the libraries do elsewhere. *)
Theorem C1_malformed_pattern_raises_TypeError h min_score :
  colorize_pyval (answering (py "(") 0 parse_open_paren h) 3
    (re_compile_call [ast_Constant (PyStr (py "("))]) min_score
  = Raises TypeError.
Proof. vm_compute. reflexivity. Qed.

(** The handler of [_colorize_ast_call], in general: when the rendering
    of the pattern raises ValueError or [re.error], the call raises
    TypeError from the state it started in. *)
Lemma _colorize_ast_call_handler host self fuel func args keywords args_ st e st1 :
  is_re_compile func = true ->
  bind_args args keywords = Some args_ ->
  _colorize_ast_re host self (_colorize host self fuel)
    (_colorize_ast host self fuel) (_colorize_re_tree self fuel)
    args_ func args keywords st = Raised e st1 ->
  is_ValueError_or_re_error e = true ->
  _colorize_ast host self (S fuel) (ast_Call func args keywords) st
  = Raised TypeError st.
Proof.
  intros Hre Hbind Hraise He.
  change (_colorize_ast host self (S fuel) (ast_Call func args keywords) st)
    with (_colorize_ast_call host self (_colorize host self fuel)
            (_colorize_ast host self fuel) (_colorize_re_tree self fuel)
            func args keywords st).
  unfold _colorize_ast_call. rewrite Hre, Hbind.
  unfold read, try_except. rewrite Hraise, He.
  pose proof (@_colorize_ast_re_sound host self (_colorize host self fuel)
                (_colorize_ast host self fuel) (_colorize_re_tree self fuel)
                (_colorize_sound host self fuel)
                (proj2 (_colorize_sound_both host self fuel))
                (_colorize_re_tree_sound self fuel)
                args_ func args keywords st) as Hs.
  rewrite Hraise in Hs. destruct Hs as (suf & R & _).
  unfold seq, modify. rewrite (@restore_mark st st1 suf R). reflexivity.
Qed.

(** *** Round trip of a pattern *)

(** C9 (as the code has it).  The colorizer renders what the parser of
    the [re] module gives.  For [r"a|b"] that is a character set: the text
    of [re.compile(r"a|b")] comes out as [re.compile(r'[ab]')].  The callee
    is one link node with the dotted name of the call node. *)
Theorem C9_re_compile_alternation h :
  exists r,
    colorize_pyval (answering (py "a|b") 0 parse_a_or_b h) 5
      (re_compile_call [ast_Constant (PyStr (py "a|b"))]) None = Returns r
    /\ document_text (document r) = py "re.compile(r'[ab]')"
    /\ hd_error (document r)
       = Some (obj_reference (py "re.compile") (py "re.compile")).
Proof.
  eexists. split; [vm_compute; reflexivity|].
  split; vm_compute; reflexivity.
Qed.

(** The text of [re.compile(r"a|b")] is not the source text. *)
Lemma C9_counterexample :
  exists r,
    colorize_pyval recorded 5
      (re_compile_call [ast_Constant (PyStr (py "a|b"))]) None = Returns r
    /\ document_text (document r) <> py "re.compile(r'a|b')".
Proof.
  eexists. split; [vm_compute; reflexivity|]. vm_compute. discriminate.
Qed.

(** *** Numbers *)

(** C3 (as the code has it).  A number that does not equal [False] or
    [True], and whose text is within the width of the line, goes out as one
    node in the number style, which is no css class: a plain text node with
    [str()] of the number; the score goes up by one.  (The numbers that
    equal 0 or 1 take the branch of the constants.) *)
Theorem C3_number_in_one_node host self fuel pyval st :
  is_number pyval = true ->
  in_builtin_constants pyval = false ->
  contains NL (str pyval) = false ->
  fits self (str pyval) false st = true ->
  _colorize host self (S fuel) pyval st
  = Normal {| result := result st ++ [Text (str pyval)];
              charpos := charpos st + len (str pyval);
              lineno := lineno st;
              linebreakok := linebreakok st;
              score := score st + 1 |}.
Proof.
  intros Hnum Hconst Hnl Hfit.
  cbn [_colorize]. unfold _colorize_def. rewrite Hconst.
  unfold seq, add_score, modify.
  assert (E : _output self (Str (str pyval)) NUMBER_TAG false
                (set_score (score st + 1) st)
              = Normal (emit (str pyval) NUMBER_TAG false
                          (set_score (score st + 1) st)))
    by (apply _output_fitting; assumption).
  destruct pyval; try discriminate; exact E.
Qed.

Lemma C3_witness :
  _colorize recorded {| linelen := Some 80; maxlines := 7;
                        self_linebreakok := true |} 1 (PyInt 42) new_state
  = Normal {| result := [Text (py "42")]; charpos := 2; lineno := 1;
              linebreakok := true; score := 1 |}.
Proof.
  apply (@C3_number_in_one_node recorded
           {| linelen := Some 80; maxlines := 7; self_linebreakok := true |}
           0%nat (PyInt 42) new_state); reflexivity.
Defined.

(** A number wider than the line goes out in several nodes. *)
Lemma C3_counterexample :
  is_number (PyInt 1234567) = true
  /\ colorize recorded {| linelen := Some 3; maxlines := 7;
                          self_linebreakok := true |} 1 (PyInt 1234567) None
     = Returns {| document := [Text (py "123"); LINEWRAP; NEWLINE;
                               Text (py "456"); LINEWRAP; NEWLINE;
                               Text (py "7")];
                  repr_score := 1;
                  is_complete := true |}.
Proof. split; vm_compute; reflexivity. Qed.

(** The integers 0 and 1 equal [False] and [True]: they go out as the
    constants do, as link nodes. *)
Lemma int_0_and_1_are_links h :
  colorize_pyval h 1 (PyInt 0) None
  = Returns {| document := [obj_reference (py "0") (py "0")];
               repr_score := 1; is_complete := true |}
  /\ colorize_pyval h 1 (PyInt 1) None
     = Returns {| document := [obj_reference (py "1") (py "1")];
                  repr_score := 1; is_complete := true |}.
Proof. split; vm_compute; reflexivity. Qed.

(** *** The cursor *)

Lemma post_normal_at_cursor st st' :
  post_normal st st' -> at_cursor st -> at_cursor st'.
Proof.
  intros (suf & R & C & _) H. unfold at_cursor in *.
  rewrite R, cursor_app, H. exact C.
Qed.

(** C4 (as the code has it).  The column and the line of the layout state
    are those of the cursor after the nodes, a marker counting for no
    character: a state that is at its cursor is at its cursor again when
    [_colorize] returns, when [_output] returns, and after an unknown
    marker is appended (which leaves the column as it is). *)
Theorem C4_state_stays_at_cursor host self fuel pyval s css_class link st st' :
  at_cursor st ->
  _colorize host self fuel pyval st = Normal st'
  \/ _output self s css_class link st = Normal st'
  \/ append UNKNOWN_REPR st = Normal st' ->
  at_cursor st'.
Proof.
  intros Hat [H|[H|H]].
  - pose proof (_colorize_sound host self fuel pyval st) as Hs.
    rewrite H in Hs. exact (post_normal_at_cursor Hs Hat).
  - pose proof (_output_sound self s css_class link st) as Hs.
    rewrite H in Hs. exact (post_normal_at_cursor Hs Hat).
  - pose proof (@sound_append UNKNOWN_REPR eq_refl eq_refl eq_refl st) as Hs.
    rewrite H in Hs. exact (post_normal_at_cursor Hs Hat).
Qed.

Lemma C4_witness :
  at_cursor {| result := [Text (py "["); WORD_BREAK_OPPORTUNITY;
                          Text (py "5"); Text (py ","); Text []; NEWLINE;
                          Text (py " "); WORD_BREAK_OPPORTUNITY;
                          Text (py "6"); Text (py "]")];
               charpos := 3; lineno := 2; linebreakok := true; score := 3 |}.
Proof.
  apply (@C4_state_stays_at_cursor recorded
           {| linelen := Some 3; maxlines := 7; self_linebreakok := true |}
           2%nat (PyList [PyInt 5; PyInt 6]) (Str []) None false new_state).
  - reflexivity.
  - left. vm_compute. reflexivity.
Defined.

(** With the text of every node counted, the unknown marker included,
    the state is no more at its cursor after an unknown marker. *)
Lemma C4_counterexample :
  at_cursor_text new_state
  /\ exists st',
      _colorize recorded {| linelen := Some 80; maxlines := 7;
                            self_linebreakok := true |} 1
                (PyObject repr_raises) new_state = Normal st'
      /\ ~ at_cursor_text st'.
Proof.
  split; [reflexivity|]. eexists. split; [vm_compute; reflexivity|].
  unfold at_cursor_text. vm_compute. discriminate.
Qed.

(** *** The end of [colorize] *)

Lemma colorize_initial host self fuel pyval min_score :
  colorize host self fuel pyval min_score
  = match _colorize host self fuel pyval (initial_state self) with
    | Normal state => put_together min_score true state
    | Raised e state =>
        if is_layout_signal e then
          if self_linebreakok self then
            put_together min_score false
              (set_result (result state ++ [NEWLINE; ELLIPSIS]) state)
          else
            match last_node (result state) with
            | None => Raises IndexError
            | Some n =>
                match _trim_result (without_LINEWRAP (result state)) 3 with
                | Some result_ =>
                    put_together min_score false
                      (set_result (result_ ++ [ELLIPSIS]) state)
                | None => Exhausted
                end
            end
        else Raises e
    | OutOfFuel => Exhausted
    end.
Proof.
  unfold colorize, initial_state, without_LINEWRAP.
  destruct (_colorize host self fuel pyval
              (set_linebreakok (self_linebreakok self) new_state));
    try reflexivity.
  destruct (is_layout_signal e); [|reflexivity].
  destruct (self_linebreakok self); [reflexivity|].
  destruct (last_node (result st)); reflexivity.
Qed.

(** When [_colorize] raises a layout signal, something is in the result. *)
Lemma signal_after_a_node host self fuel pyval e st :
  _colorize host self fuel pyval (initial_state self) = Raised e st ->
  is_layout_signal e = true ->
  last_node (result st) <> None.
Proof.
  intros H He Hl.
  pose proof (_colorize_sound host self fuel pyval (initial_state self)) as Hs.
  rewrite H in Hs. destruct Hs as (suf & R & _ & _ & N).
  apply last_node_None in Hl. rewrite Hl in R. simpl in R.
  apply (N He). symmetry. exact R.
Qed.

(** What [colorize] returns after a layout signal. *)
Lemma colorize_after_signal host self fuel pyval min_score e st :
  _colorize host self fuel pyval (initial_state self) = Raised e st ->
  is_layout_signal e = true ->
  exists ending,
    colorize host self fuel pyval min_score
    = put_together min_score false (set_result (ending ++ [ELLIPSIS]) st)
    /\ if self_linebreakok self then ending = result st ++ [NEWLINE]
       else _trim_result (without_LINEWRAP (result st)) 3 = Some ending.
Proof.
  intros H He. rewrite colorize_initial, H, He.
  destruct (self_linebreakok self).
  - exists (result st ++ [NEWLINE]). rewrite <- app_assoc. split; reflexivity.
  - pose proof (signal_after_a_node _ _ _ _ H He) as Hl.
    destruct (last_node (result st)); [|congruence].
    pose proof (_trim_result_ends (without_LINEWRAP (result st)) 3) as Ht.
    destruct (_trim_result (without_LINEWRAP (result st)) 3) as [ending|];
      [|congruence].
    exists ending. split; reflexivity.
Qed.




(** *** Exceptions that leave [colorize] *)




(** *** No line break when breaks are off *)

Lemma frag_ok_unbroken n : frag_ok false n -> unbroken n.
Proof. intros [H1 H2]. split; auto. Qed.

Lemma Forall_frag_ok_unbroken l : Forall (frag_ok false) l -> Forall unbroken l.
Proof. intros H. eapply Forall_impl; [|exact H]. apply frag_ok_unbroken. Qed.

Lemma unbroken_with_text n k :
  unbroken n -> unbroken (with_text n (slice_to (astext n) k)).
Proof.
  intros [H1 H2].
  destruct n; try discriminate; split; try reflexivity;
    apply contains_firstn; assumption.
Qed.

Lemma unbroken_without_LINEWRAP l :
  Forall unbroken l -> Forall unbroken (without_LINEWRAP l).
Proof.
  intros H. unfold without_LINEWRAP.
  destruct (last_node l) as [n|]; [|assumption].
  destruct (is_LINEWRAP n); [apply Forall_removelast|]; assumption.
Qed.

Lemma put_together_unbroken min_score is_complete_ st r :
  Forall unbroken (result st) ->
  put_together min_score is_complete_ st = Returns r ->
  Forall unbroken (document r).
Proof.
  intros H. unfold put_together. intros E. injection E as <-. simpl.
  destruct min_score as [m|]; [|assumption].
  destruct (score st <? m); [|assumption].
  constructor; [split; reflexivity|constructor].
Qed.

(** C8.  With line breaks off in the configuration, [colorize] ends, and
    the document it returns has no newline node and no newline character
    in a text; nor do the nodes that [_colorize] appends from a state with
    breaks off, whether it returns or raises.  The string ["a\nb"] comes
    out in single quotes, its newline as a backslash and an [n]. *)
Theorem C8_no_newline_when_breaks_are_off host self fuel pyval min_score :
  self_linebreakok self = false ->
  ((depth host pyval < fuel)%nat ->
   colorize host self fuel pyval min_score <> Exhausted)
  /\ (forall r, colorize host self fuel pyval min_score = Returns r ->
                Forall unbroken (document r))
  /\ (forall st, linebreakok st = false ->
        match _colorize host self fuel pyval st with
        | Normal st' | Raised _ st' =>
            exists suf, result st' = result st ++ suf /\ Forall unbroken suf
        | OutOfFuel => True
        end)
  /\ colorize_inline_pyval host (S fuel) (PyStr [97; 10; 98])
     = Returns {| document := [inline (py "'") variable_quote;
                               inline (py "a\nb") variable_string;
                               inline (py "'") variable_quote];
                  repr_score := 1;
                  is_complete := true |}.
Proof.
  intros Hoff.
  assert (Hrun : forall st, linebreakok st = false ->
            match _colorize host self fuel pyval st with
            | Normal st' | Raised _ st' =>
                exists suf, result st' = result st ++ suf /\ Forall unbroken suf
            | OutOfFuel => True
            end).
  { intros st Hst.
    pose proof (_colorize_sound host self fuel pyval st) as Hs.
    destruct (_colorize host self fuel pyval st) as [st'|e st'|]; [| |exact I].
    - destruct Hs as (suf & R & _ & _ & F). rewrite Hst in F.
      exists suf. split; [assumption|apply Forall_frag_ok_unbroken; assumption].
    - destruct Hs as (suf & R & F & _). rewrite Hst in F.
      exists suf. split; [assumption|apply Forall_frag_ok_unbroken; assumption]. }
  split; [|split; [|split; [exact Hrun|]]].
  - intros Hd. rewrite colorize_initial.
    pose proof (@_colorize_ends host self fuel pyval (initial_state self) Hd)
      as He.
    destruct (_colorize host self fuel pyval (initial_state self))
      as [st|e st|] eqn:E; [discriminate| |congruence].
    destruct (is_layout_signal e) eqn:El; [|discriminate].
    destruct (colorize_after_signal host self fuel pyval min_score E El)
      as (ending & Hc & _).
    rewrite colorize_initial, E, El in Hc. rewrite Hc. discriminate.
  - intros r. rewrite colorize_initial.
    pose proof (Hrun (initial_state self) Hoff) as Hi.
    destruct (_colorize host self fuel pyval (initial_state self))
      as [st|e st|]; [| |discriminate].
    + destruct Hi as (suf & R & F). apply put_together_unbroken.
      rewrite R. exact F.
    + destruct Hi as (suf & R & F). simpl in R.
      destruct (is_layout_signal e); [|discriminate]. rewrite Hoff.
      destruct (last_node (result st)); [|discriminate].
      destruct (_trim_result (without_LINEWRAP (result st)) 3) as [trimmed|] eqn:Et;
        [|discriminate].
      apply put_together_unbroken. simpl. apply Forall_app. split.
      * unfold _trim_result in Et.
        eapply (trim_loop_Forall unbroken_with_text); [|exact Et].
        apply unbroken_without_LINEWRAP. rewrite R. exact F.
      * constructor; [split; reflexivity|constructor].
  - vm_compute. reflexivity.
Qed.

Lemma C8_witness :
  Forall unbroken [Text (py "["); WORD_BREAK_OPPORTUNITY; ELLIPSIS].
Proof.
  apply (proj1 (proj2 (@C8_no_newline_when_breaks_are_off recorded
                         {| linelen := Some 4; maxlines := 7;
                            self_linebreakok := false |}
                         2%nat (PyList [PyStr [97; 10; 98]; PyInt 7]) None
                         eq_refl))
               {| document := [Text (py "["); WORD_BREAK_OPPORTUNITY; ELLIPSIS];
                  repr_score := 2; is_complete := false |}).
  vm_compute. reflexivity.
Defined.

(** *** The output sink *)

Lemma start_line_Maxlines self st :
  maxlines self < lineno st + 1 -> start_line self st = Raised _Maxlines st.
Proof.
  intros H. unfold start_line.
  replace (maxlines self <? lineno st + 1) with true
    by (symmetry; apply Z.ltb_lt; exact H).
  reflexivity.
Qed.

Lemma start_line_Linebreak self st :
  lineno st + 1 <= maxlines self -> linebreakok st = false ->
  start_line self st = Raised _Linebreak st.
Proof.
  intros H Hl. unfold start_line.
  replace (maxlines self <? lineno st + 1) with false
    by (symmetry; apply Z.ltb_ge; exact H).
  rewrite Hl. reflexivity.
Qed.

Lemma start_line_Normal self st :
  lineno st + 1 <= maxlines self -> linebreakok st = true ->
  start_line self st
  = Normal {| result := result st ++ [NEWLINE];
              charpos := 0;
              lineno := lineno st + 1;
              linebreakok := linebreakok st;
              score := score st |}.
Proof.
  intros H Hl. unfold start_line.
  replace (maxlines self <? lineno st + 1) with false
    by (symmetry; apply Z.ltb_ge; exact H).
  rewrite Hl. reflexivity.
Qed.

(** C6.  [_output] splits its chunk at the newlines; it checks the line
    count before the break flag when it starts a line; it never splits a
    link; and it splits a segment that does not fit at the width that is
    left, with a line-wrap marker. *)
Theorem C6_output_sink self segment rest tail css_class link st :
  contains NL segment = false ->
  (tail = [] \/ exists rest', tail = NL :: rest') ->
  output_sink_spec self segment rest tail css_class link st.
Proof.
  intros Hnl Ht. unfold output_sink_spec. cbv zeta. split.
  - intros Hwhole.
    assert (Hfit : fits self segment link st = true).
    { unfold fits. destruct Hwhole as [->|[->|(n & -> & Hn)]].
      - destruct (linelen self); [apply orb_true_r|reflexivity].
      - reflexivity.
      - apply orb_true_iff. left. apply Z.leb_le. exact Hn. }
    assert (Hone : fitting_element segment css_class link
                   = if link then obj_reference segment segment
                     else match css_class with
                          | Some c => inline segment c
                          | None => Text segment
                          end) by reflexivity.
    pose proof (@_output_fitting self (Str segment) css_class link st Hnl Hfit)
      as H1.
    pose proof (_output_newline self segment rest css_class link st Hnl Hfit)
      as H2.
    unfold emit in H1, H2. cbn [as_str] in H1. rewrite Hone in H1, H2.
    split; [exact H1|].
    split; [|split].
    + intros Hm. rewrite H2. unfold seq.
      rewrite start_line_Maxlines by exact Hm. reflexivity.
    + intros Hm Hl. rewrite H2. unfold seq.
      rewrite start_line_Linebreak by assumption. reflexivity.
    + intros Hm Hl. rewrite H2. unfold seq.
      rewrite start_line_Normal by assumption.
      cbn [result charpos lineno linebreakok score].
      rewrite <- app_assoc. reflexivity.
  - intros Hlink n Hn Hlt.
    assert (Hfit : fits self segment link st = false).
    { unfold fits. rewrite Hn, Hlink, orb_false_r. apply Z.leb_gt. exact Hlt. }
    assert (Hs : starts_line tail = true).
    { destruct Ht as [->|[rest' ->]]; reflexivity. }
    pose proof (_output_wrap self segment tail css_class link st Hnl Hs Hfit)
      as Hw.
    unfold wrap in Hw. rewrite Hn in Hw.
    assert (Hk : slice_index segment (n - charpos st)
                 = if 0 <=? n - charpos st then Z.to_nat (n - charpos st)
                   else Z.to_nat (Z.max 0 (len segment + (n - charpos st)))).
    { unfold slice_index.
      destruct (n - charpos st <? 0) eqn:E1;
        destruct (0 <=? n - charpos st) eqn:E2; try reflexivity;
        [apply Z.ltb_lt in E1; apply Z.leb_le in E2
        |apply Z.ltb_ge in E1; apply Z.leb_gt in E2]; lia. }
    unfold slice_to, slice_from in Hw. rewrite Hk in Hw.
    assert (Hel : forall s, wrapped_element s css_class
                            = match css_class with
                              | Some c => inline s c
                              | None => Text s
                              end) by reflexivity.
    rewrite Hel in Hw. cbv zeta.
    split; [|split].
    + intros Hm. rewrite Hw. unfold seq, set_result.
      rewrite start_line_Maxlines by exact Hm. reflexivity.
    + intros Hm Hl. rewrite Hw. unfold seq, set_result.
      rewrite start_line_Linebreak by assumption. reflexivity.
    + intros Hm Hl. rewrite Hw. unfold seq, set_result.
      rewrite start_line_Normal by assumption.
      cbn [result charpos lineno linebreakok score].
      rewrite <- app_assoc. reflexivity.
Qed.

Lemma C6_witness :
  output_sink_spec {| linelen := Some 5; maxlines := 1;
                      self_linebreakok := true |}
                   (py "abcdefg") (py "hi") [] None false
                   (set_linebreakok false new_state).
Proof.
  apply (@C6_output_sink {| linelen := Some 5; maxlines := 1;
                            self_linebreakok := true |}
                         (py "abcdefg") (py "hi") [] None false
                         (set_linebreakok false new_state));
    [reflexivity|left; reflexivity].
Defined.

(** ** Examples *)

(** The line count is checked before the break flag: with the lines used
    up, a chunk with a newline raises [_Maxlines] even when breaks are
    off. *)
Example _output_checks_maxlines_first :
  _output {| linelen := Some 80; maxlines := 1; self_linebreakok := false |}
          (Str [97; 10; 98]) None false (set_linebreakok false new_state)
  = Raised _Maxlines {| result := [Text (py "a")]; charpos := 1; lineno := 1;
                        linebreakok := false; score := 0 |}
  /\ _output {| linelen := Some 80; maxlines := 2; self_linebreakok := false |}
             (Str [97; 10; 98]) None false (set_linebreakok false new_state)
     = Raised _Linebreak {| result := [Text (py "a")]; charpos := 1;
                            lineno := 1; linebreakok := false; score := 0 |}.
Proof. split; vm_compute; reflexivity. Qed.

(** The list [[5, 6, 7]] on lines of five characters: the compact attempt
    of [_multiline] raises [_Linebreak], and the renderer runs again from
    the state before the attempt, with line breaks. *)
Example _multiline_retries :
  let self := {| linelen := Some 5; maxlines := 7; self_linebreakok := true |} in
  let func := run_render recorded self 1
                (render_iter [PyInt 5; PyInt 6; PyInt 7]
                             (Some (S_ "[")) (Some (S_ "]"))) in
  (exists st1, func (set_linebreakok false new_state) = Raised _Linebreak st1)
  /\ _multiline func new_state = func new_state
  /\ exists st',
      func new_state = Normal st'
      /\ document_text (result st') = py "[5, 6, 7]"
      /\ List.length (filter is_NEWLINE (result st')) = 2%nat.
Proof.
  cbv zeta. split; [eexists; vm_compute; reflexivity|].
  split; [vm_compute; reflexivity|].
  eexists. split; [vm_compute; reflexivity|]. split; vm_compute; reflexivity.
Qed.

(** The dict [{'a': 2}]: the key in the string style between quotes, the
    value as plain text. *)
Example colorize_dict h :
  colorize_pyval h 2 (PyDict [(PyStr (py "a"), PyInt 2)]) None
  = Returns {| document := [Text (py "{"); WORD_BREAK_OPPORTUNITY;
                            inline (py "'") variable_quote;
                            inline (py "a") variable_string;
                            inline (py "'") variable_quote;
                            Text (py ": "); Text (py "2"); Text (py "}")];
               repr_score := 3;
               is_complete := true |}.
Proof. vm_compute. reflexivity. Qed.

(** An object with the generic [repr]: the address is dropped, the score
    goes down by 5. *)
Example colorize_generic_object h :
  colorize_pyval h 1
    (PyObject (repr_returns (py "<Foo object at 0x7f0000000000>"))) None
  = Returns {| document := [Text (py "<Foo object>")];
               repr_score := -4;
               is_complete := true |}.
Proof. vm_compute. reflexivity. Qed.

(** The pattern [foo|bar], which the parser gives as a branch of the two
    words, comes out as it was written. *)
Example re_compile_foo_or_bar :
  exists r,
    colorize_pyval recorded 5
      (re_compile_call [ast_Constant (PyStr (py "foo|bar"))]) None = Returns r
    /\ document_text (document r) = py "re.compile(r'foo|bar')".
Proof. eexists. split; vm_compute; reflexivity. Qed.

(** A truncation that reaches the unknown marker shortens the marker
    itself, which is one object of the class: of the two markers of the
    list [[x, x, 5]] of objects without a repr, on lines of three
    characters and without breaks, the second is trimmed away and the
    first is left without its text. *)
Example truncation_rewrites_the_shared_marker :
  colorize no_library
    {| linelen := Some 3; maxlines := 7; self_linebreakok := false |} 2
    (PyList [PyObject repr_raises; PyObject repr_raises; PyInt 5]) None
  = Returns {| document := [Text (py "["); WORD_BREAK_OPPORTUNITY;
                            inline [] variable_unknown; Text (py ",");
                            ELLIPSIS];
               repr_score := -197;
               is_complete := false |}.
Proof. vm_compute. reflexivity. Qed.

(** An object whose [__eq__] raises: the exception of the test on the
    built-in constants leaves [colorize]. *)
Example object_with_a_raising_eq :
  colorize_pyval no_library 1
    (PyObjectEq (call_raises ValueError) (call_returns (py "x"))
       (repr_returns (py "x"))) None
  = Raises ValueError.
Proof. vm_compute. reflexivity. Qed.

(** ** Further properties *)

(** *** Escapes *)

Lemma hex_digit_printable d : 0 <= d < 16 -> printable (hex_digit d).
Proof.
  intros H. unfold hex_digit, printable.
  destruct (d <? 10) eqn:E; [apply Z.ltb_lt in E|apply Z.ltb_ge in E]; lia.
Qed.

Lemma hex_rev_printable fuel :
  forall n, 0 <= n -> Forall printable (hex_rev fuel n).
Proof.
  induction fuel as [|fuel IH]; intros n Hn; simpl; [constructor|].
  destruct (n <? 16) eqn:E.
  - apply Z.ltb_lt in E. constructor; [|constructor].
    apply hex_digit_printable. lia.
  - constructor.
    + apply hex_digit_printable. apply Z.mod_pos_bound. lia.
    + apply IH. apply Z.div_pos; lia.
Qed.

Lemma format_x_printable width n : 0 <= n -> Forall printable (format_x width n).
Proof.
  intros Hn. unfold format_x. apply Forall_app. split.
  - apply Forall_forall. intros c Hc. apply repeat_spec in Hc. subst c.
    unfold printable. lia.
  - apply Forall_rev. apply hex_rev_printable. assumption.
Qed.

Lemma printable_forallb l :
  forallb (fun c => (32 <=? c) && (c <? 127)) l = true -> Forall printable l.
Proof.
  intros H. apply Forall_forall. intros c Hc.
  rewrite forallb_forall in H. specialize (H c Hc).
  apply andb_true_iff in H. destruct H as [H1 H2].
  apply Z.leb_le in H1. apply Z.ltb_lt in H2. unfold printable. lia.
Qed.

Lemma escape_control_printable c :
  0 <= c -> Forall printable (escape_control c).
Proof.
  intros Hc. unfold escape_control.
  destruct (c =? 9); [apply printable_forallb; reflexivity|].
  destruct (c =? 10); [apply printable_forallb; reflexivity|].
  destruct (c =? 13); [apply printable_forallb; reflexivity|].
  destruct ((c <? 32) || (127 <=? c)) eqn:E.
  - apply Forall_app. split; [apply printable_forallb; reflexivity|].
    apply format_x_printable. assumption.
  - apply orb_false_elim in E. destruct E as [E1 E2].
    apply Z.ltb_ge in E1. apply Z.leb_gt in E2.
    constructor; [unfold printable; lia|constructor].
Qed.

Lemma Forall_flat_map {A B} (P : B -> Prop) (f : A -> list B) l :
  (forall x, In x l -> Forall P (f x)) -> Forall P (flat_map f l).
Proof.
  induction l as [|x l IH]; intros H; simpl; [constructor|].
  apply Forall_app. split; [apply H; left; reflexivity|].
  apply IH. intros y Hy. apply H. right. assumption.
Qed.

Lemma printable_ascii l :
  Forall printable l -> Forall (fun c => 0 <= c < 128) l.
Proof.
  apply Forall_impl. unfold printable. intros; lia.
Qed.

(** X1.  [decode_with_backslashreplace] gives ASCII text only, and gives
    back ASCII bytes as they are. *)
Theorem X1_decode_with_backslashreplace_is_ascii s :
  Forall (fun c => 0 <= c) s ->
  Forall (fun c => 0 <= c < 128) (decode_with_backslashreplace s)
  /\ (Forall (fun c => c < 128) s -> decode_with_backslashreplace s = s).
Proof.
  intros Hs. split.
  - unfold decode_with_backslashreplace. apply Forall_flat_map.
    intros c Hc. rewrite Forall_forall in Hs. specialize (Hs c Hc).
    destruct (c <? 128) eqn:E.
    + apply Z.ltb_lt in E. constructor; [lia|constructor].
    + apply printable_ascii. apply Forall_app.
      split; [apply printable_forallb; reflexivity|].
      apply format_x_printable; assumption.
  - intros Ha. unfold decode_with_backslashreplace.
    induction Ha as [|c l Hc Hl IH]; [reflexivity|].
    simpl. apply Z.ltb_lt in Hc. rewrite Hc. simpl. f_equal.
    apply IH. inversion Hs. assumption.
Qed.

Lemma X1_witness :
  Forall (fun c => 0 <= c < 128) (decode_with_backslashreplace [97; 255; 232]).
Proof.
  apply (proj1 (@X1_decode_with_backslashreplace_is_ascii [97; 255; 232]
                  ltac:(repeat constructor; lia))).
Defined.

Lemma _str_escape_no_control s :
  Forall (fun c => 0 <= c) s ->
  Forall (fun c => printable c \/ 0xff < c) (_str_escape s).
Proof.
  intros Hs. unfold _str_escape. apply Forall_flat_map.
  intros c Hc. rewrite Forall_forall in Hs. specialize (Hs c Hc).
  assert (L : forall l, Forall printable l ->
                        Forall (fun c => printable c \/ 0xff < c) l).
  { intros l. apply Forall_impl. intros; left; assumption. }
  destruct (c =? 39); [apply L, printable_forallb; reflexivity|].
  destruct (c <=? 255) eqn:E.
  - destruct (c =? 92); [apply L, printable_forallb; reflexivity|].
    apply L, escape_control_printable. assumption.
  - apply Z.leb_gt in E. constructor; [right; lia|constructor].
Qed.

Lemma no_control_no_newline s :
  Forall (fun c => printable c \/ 0xff < c) s -> contains NL s = false.
Proof.
  intros H. unfold contains. induction H as [|c l Hc Hl IH]; [reflexivity|].
  cbn [existsb]. rewrite IH, orb_false_r. apply Z.eqb_neq.
  unfold NL, printable in *. lia.
Qed.

Lemma printable_no_newline s : Forall printable s -> contains NL s = false.
Proof.
  intros H. apply no_control_no_newline.
  eapply Forall_impl; [|exact H]. intros; left; assumption.
Qed.

(** X2.  [_str_escape] leaves no control character and no newline: every
    character of its result is printable ASCII or above 0xff.  Text that
    is printable and has no quote and no backslash, or is above 0xff,
    comes back as it is. *)
Theorem X2_str_escape_has_no_control_character s :
  Forall (fun c => 0 <= c) s ->
  Forall (fun c => printable c \/ 0xff < c) (_str_escape s)
  /\ contains NL (_str_escape s) = false
  /\ (Forall (fun c => printable c /\ c <> 39 /\ c <> 92 \/ 0xff < c) s ->
      _str_escape s = s).
Proof.
  intros Hs. pose proof (_str_escape_no_control Hs) as H.
  split; [exact H|]. split; [apply no_control_no_newline; exact H|].
  clear. intros Hp. unfold _str_escape.
  induction Hp as [|c l Hc Hl IH]; [reflexivity|].
  cbn [flat_map]. rewrite IH. clear IH Hl.
  replace (c =? 39) with false by (symmetry; apply Z.eqb_neq; unfold printable in Hc; lia).
  destruct (c <=? 255) eqn:E; [|reflexivity].
  apply Z.leb_le in E.
  replace (c =? 92) with false by (symmetry; apply Z.eqb_neq; lia).
  unfold escape_control, printable in *.
  replace (c =? 9) with false by (symmetry; apply Z.eqb_neq; lia).
  replace (c =? 10) with false by (symmetry; apply Z.eqb_neq; lia).
  replace (c =? 13) with false by (symmetry; apply Z.eqb_neq; lia).
  replace (c <? 32) with false by (symmetry; apply Z.ltb_ge; lia).
  replace (127 <=? c) with false by (symmetry; apply Z.leb_gt; lia).
  reflexivity.
Qed.

Lemma X2_witness :
  Forall (fun c => printable c \/ 0xff < c) (_str_escape [97; 10; 39; 300])
  /\ contains NL (_str_escape [97; 10; 39; 300]) = false
  /\ (Forall (fun c => printable c /\ c <> 39 /\ c <> 92 \/ 0xff < c)
        [97; 10; 39; 300] ->
      _str_escape [97; 10; 39; 300] = [97; 10; 39; 300]).
Proof.
  apply (@X2_str_escape_has_no_control_character [97; 10; 39; 300]).
  repeat constructor; lia.
Defined.

Lemma _bytes_escape_printable b :
  Forall (fun c => 0 <= c) b -> Forall printable (_bytes_escape b).
Proof.
  intros Hb. unfold _bytes_escape. apply Forall_flat_map.
  intros c Hc. rewrite Forall_forall in Hb. specialize (Hb c Hc).
  destruct ((c =? (if contains 39 b && negb (contains 34 b) then 34 else 39))
            || (c =? 92)) eqn:E.
  - apply orb_true_iff in E.
    assert (Hcase : c = 34 \/ c = 39 \/ c = 92).
    { destruct E as [E|E]; apply Z.eqb_eq in E;
        [destruct (contains 39 b && negb (contains 34 b))|]; lia. }
    repeat constructor; unfold printable; lia.
  - apply escape_control_printable. assumption.
Qed.

(** X3.  [_bytes_escape] gives printable ASCII only, so no newline; bytes
    that are printable and are neither a quote nor a backslash come back
    as they are. *)
Theorem X3_bytes_escape_is_printable b :
  Forall (fun c => 0 <= c) b ->
  Forall printable (_bytes_escape b)
  /\ contains NL (_bytes_escape b) = false
  /\ (Forall (fun c => printable c /\ c <> 39 /\ c <> 34 /\ c <> 92) b ->
      _bytes_escape b = b).
Proof.
  intros Hb. pose proof (_bytes_escape_printable Hb) as H.
  split; [exact H|]. split; [apply printable_no_newline; exact H|].
  clear. intros Hp. unfold _bytes_escape.
  set (quote := if contains 39 b && negb (contains 34 b) then 34 else 39).
  assert (Hq : quote = 34 \/ quote = 39)
    by (unfold quote; destruct (contains 39 b && negb (contains 34 b)); auto).
  clearbody quote.
  induction Hp as [|c l Hc Hl IH]; [reflexivity|].
  cbn [flat_map]. rewrite IH. clear IH Hl.
  unfold printable in Hc.
  replace (c =? quote) with false by (symmetry; apply Z.eqb_neq; lia).
  replace (c =? 92) with false by (symmetry; apply Z.eqb_neq; lia).
  unfold escape_control. cbn [orb].
  replace (c =? 9) with false by (symmetry; apply Z.eqb_neq; lia).
  replace (c =? 10) with false by (symmetry; apply Z.eqb_neq; lia).
  replace (c =? 13) with false by (symmetry; apply Z.eqb_neq; lia).
  replace (c <? 32) with false by (symmetry; apply Z.ltb_ge; lia).
  replace (127 <=? c) with false by (symmetry; apply Z.leb_gt; lia).
  reflexivity.
Qed.

Lemma X3_witness :
  Forall printable (_bytes_escape [97; 10; 39; 200])
  /\ contains NL (_bytes_escape [97; 10; 39; 200]) = false
  /\ (Forall (fun c => printable c /\ c <> 39 /\ c <> 34 /\ c <> 92)
        [97; 10; 39; 200] ->
      _bytes_escape [97; 10; 39; 200] = [97; 10; 39; 200]).
Proof.
  apply (@X3_bytes_escape_is_printable [97; 10; 39; 200]).
  repeat constructor; lia.
Defined.

(** *** Marks *)

(** X4.  Whatever [_colorize] does, it only appends to the result, and a
    mark taken before it brings back exactly the state before it: the
    nodes, the column, the line, the flag and the score.  When it returns,
    the break flag is the one it started with. *)
Theorem X4_restore_undoes_colorize host self fuel pyval st :
  match _colorize host self fuel pyval st with
  | Normal st' =>
      (exists suf, result st' = result st ++ suf)
      /\ restore (mark st) st' = st
      /\ linebreakok st' = linebreakok st
  | Raised _ st' =>
      (exists suf, result st' = result st ++ suf)
      /\ restore (mark st) st' = st
  | OutOfFuel => True
  end.
Proof.
  pose proof (@_colorize_sound host self fuel pyval st) as H.
  destruct (_colorize host self fuel pyval st) as [st'|e st'|]; [| |exact I].
  - destruct H as (suf & R & _ & L & _).
    split; [exists suf; exact R|]. split; [|exact L].
    exact (@restore_mark st st' suf R).
  - destruct H as (suf & R & _).
    split; [exists suf; exact R|]. exact (@restore_mark st st' suf R).
Qed.

(** *** Trimming *)

Lemma astext_with_text n s : astext (with_text n s) = s.
Proof. destruct n; reflexivity. Qed.

Lemma document_text_app a b :
  document_text (a ++ b) = document_text a ++ document_text b.
Proof. unfold document_text. apply flat_map_app. Qed.

Lemma document_text_single n : document_text [n] = astext n.
Proof. unfold document_text. simpl. apply app_nil_r. Qed.

Lemma slice_to_tail {A} (data : list A) trim :
  0 <= trim <= len data -> (trim = 0 -> data = []) ->
  slice_to data (- trim) = firstn (List.length data - Z.to_nat trim) data.
Proof.
  intros H H0. unfold slice_to, slice_index.
  destruct (- trim <? 0) eqn:E; [apply Z.ltb_lt in E|apply Z.ltb_ge in E].
  - f_equal. unfold len in *. lia.
  - rewrite H0 by lia. rewrite !firstn_nil. reflexivity.
Qed.

Lemma same_marker_sym n m : same_marker n m = same_marker m n.
Proof. destruct n, m; reflexivity. Qed.

Lemma shared_once_last l n :
  shared_once (l ++ [n]) = true ->
  shared_once l = true
  /\ (is_shared n = true -> existsb (same_marker n) l = false).
Proof.
  induction l as [|m l IH]; simpl; intros H; [split; auto|].
  apply andb_true_iff in H. destruct H as [Hm Hl].
  destruct (IH Hl) as [IH1 IH2]. rewrite IH1, andb_true_r.
  apply negb_true_iff in Hm. rewrite existsb_app in Hm. simpl in Hm.
  rewrite orb_false_r in Hm.
  split.
  - apply negb_true_iff. destruct (is_shared m); [|reflexivity].
    simpl in *. apply orb_false_elim in Hm. apply Hm.
  - intros Hn. rewrite (IH2 Hn), orb_false_r.
    destruct (same_marker n m) eqn:E; [|reflexivity].
    assert (Hsm : is_shared m = true) by (destruct n, m; try discriminate; reflexivity).
    rewrite Hsm in Hm. simpl in Hm. apply orb_false_elim in Hm.
    destruct Hm as [_ Hm]. rewrite same_marker_sym, E in Hm. discriminate.
Qed.

Lemma rewrite_shared_nowhere n s l :
  (is_shared n = true -> existsb (same_marker n) l = false) ->
  rewrite_shared n s l = l.
Proof.
  intros H. unfold rewrite_shared. destruct (is_shared n); [|reflexivity].
  specialize (H eq_refl). induction l as [|m l IH]; [reflexivity|].
  simpl in H. apply orb_false_elim in H. destruct H as [Hm Hl].
  simpl. rewrite Hm, (IH Hl). reflexivity.
Qed.

Lemma trim_loop_text fuel :
  forall r n r',
    shared_once r = true ->
    trim_loop fuel r n = Some r' ->
    document_text r'
    = firstn (List.length (document_text r) - Z.to_nat n) (document_text r).
Proof.
  assert (Z0 : forall r n r', n <= 0 -> Some r = Some r' ->
            document_text r'
            = firstn (List.length (document_text r) - Z.to_nat n)
                (document_text r)).
  { intros r n r' Hn E. inversion E; subst r'.
    replace (Z.to_nat n) with 0%nat by lia. rewrite Nat.sub_0_r.
    symmetry. apply firstn_all. }
  induction fuel as [|fuel IH]; intros r n r' Honce H; simpl in H.
  - destruct (n <=? 0) eqn:E; [|discriminate].
    apply Z.leb_le in E. apply (Z0 r n r' E H).
  - destruct (n <=? 0) eqn:E; [apply Z.leb_le in E; apply (Z0 r n r' E H)|].
    apply Z.leb_gt in E.
    destruct (last_node r) as [x|] eqn:L.
    2:{ apply last_node_None in L. inversion H; subst. reflexivity. }
    apply last_node_Some in L.
    set (R := removelast r) in *.
    assert (T : document_text r = document_text R ++ astext x).
    { rewrite L at 1. rewrite document_text_app, document_text_single.
      reflexivity. }
    rewrite L in Honce. apply shared_once_last in Honce.
    destruct Honce as [HR Hx].
    rewrite T.
    destruct (negb (is_Text x) && is_empty (astext x)) eqn:K.
    + apply andb_true_iff in K. destruct K as [_ K].
      destruct (astext x); [|discriminate]. rewrite app_nil_r.
      apply IH; assumption.
    + clear K. rewrite rewrite_shared_nowhere in H by exact Hx.
      assert (B : 0 <= Z.min n (len (astext x)) <= len (astext x))
        by (unfold len; lia).
      assert (B0 : Z.min n (len (astext x)) = 0 -> astext x = []).
      { intros B0. destruct (astext x); [reflexivity|].
        unfold len in B0. simpl in B0. lia. }
      rewrite (slice_to_tail B B0) in H. clear B0.
      set (data := astext x) in *.
      rewrite length_app. rewrite firstn_app.
      destruct (is_empty (firstn (List.length data
                                  - Z.to_nat (Z.min n (len data))) data)) eqn:K.
      * assert (G : (List.length data <= Z.to_nat n)%nat).
        { destruct data as [|d data']; [simpl; lia|].
          destruct (List.length (d :: data')
                    - Z.to_nat (Z.min n (len (d :: data'))))%nat eqn:J.
          - unfold len in J. lia.
          - simpl in K. discriminate. }
        apply IH in H; [|exact HR]. rewrite H.
        replace (Z.min n (len data)) with (len data) by (unfold len; lia).
        replace (List.length (document_text R) + List.length data
                 - Z.to_nat n - List.length (document_text R))%nat
          with 0%nat by lia.
        simpl. rewrite app_nil_r. f_equal. unfold len. lia.
      * assert (G : (Z.to_nat n < List.length data)%nat).
        { destruct (List.length data
                    - Z.to_nat (Z.min n (len data)))%nat eqn:J.
          - simpl in K. discriminate.
          - unfold len in J. lia. }
        replace (Z.min n (len data)) with n in H by (unfold len; lia).
        replace (n - n) with 0 in H by lia.
        assert (H' : Some (R ++ [with_text x (firstn (List.length data
                                                      - Z.to_nat n) data)])
                     = Some r') by (destruct fuel; exact H).
        inversion H'; subst r'.
        rewrite document_text_app, document_text_single, astext_with_text.
        f_equal; [symmetry; apply firstn_all2; lia|f_equal; lia].
Qed.

(** X5.  [_trim_result] ends for every list and every number.  On a list
    in which no class-level node stands twice, what it leaves is the text
    without its last [num_chars] characters (nothing, when the text is
    shorter).  A class-level node that stands twice is shortened at both
    places, for it is one object: from the unknown marker, a comma and the
    unknown marker, one character less leaves a single question mark on
    either side. *)
Theorem X5_trim_result_removes_the_last_characters r num_chars :
  (exists r', _trim_result r num_chars = Some r')
  /\ (shared_once r = true ->
      forall r',
        _trim_result r num_chars = Some r' ->
        document_text r'
        = firstn (List.length (document_text r) - Z.to_nat num_chars)
            (document_text r))
  /\ _trim_result [UNKNOWN_REPR; Text (py ","); UNKNOWN_REPR] 1
     = Some [inline (py "?") variable_unknown; Text (py ",");
             inline (py "?") variable_unknown].
Proof.
  split; [|split].
  - destruct (_trim_result r num_chars) as [r'|] eqn:E.
    + exists r'. reflexivity.
    + exfalso. exact (@_trim_result_ends r num_chars E).
  - intros Honce r' E. unfold _trim_result in E.
    apply (trim_loop_text _ _ _ Honce E).
  - vm_compute. reflexivity.
Qed.

Lemma X5_witness :
  document_text [Text (py "a")]
  = firstn (List.length (document_text [Text (py "ab"); UNKNOWN_REPR; NEWLINE])
            - Z.to_nat 3)
      (document_text [Text (py "ab"); UNKNOWN_REPR; NEWLINE]).
Proof.
  apply (proj1 (proj2 (@X5_trim_result_removes_the_last_characters
                         [Text (py "ab"); UNKNOWN_REPR; NEWLINE] 3))
               eq_refl [Text (py "a")]).
  reflexivity.
Defined.

(** *** The output sink *)

Lemma output_segments_within self css_class n fuel :
  linelen self = Some n -> 0 <= n ->
  forall segments later st,
    charpos st <= n ->
    match output_segments self fuel segments later css_class false st with
    | Normal st' | Raised _ st' => charpos st' <= n
    | OutOfFuel => True
    end.
Proof.
  intros Hn H0. induction fuel as [|fuel IH]; intros segments later st Hc;
    destruct segments as [|segment rest]; simpl; try exact Hc; try exact I.
  assert (Step : forall s, charpos s <= n ->
            match (if fits self segment false s
                   then (modify (fun st => set_charpos (charpos st + len segment) st) ;;
                         append (fitting_element segment css_class false) ;;
                         output_segments self fuel rest true css_class false) s
                   else (modify (fun st =>
                           set_result (result st ++
                             [wrapped_element
                                (slice_to segment
                                   match linelen self with
                                   | Some n => n - charpos s
                                   | None => 0
                                   end) css_class; LINEWRAP]) st) ;;
                         output_segments self fuel
                           (slice_from segment
                              match linelen self with
                              | Some n => n - charpos s
                              | None => 0
                              end :: rest) true css_class false) s) with
            | Normal st' | Raised _ st' => charpos st' <= n
            | OutOfFuel => True
            end).
  { intros s Hs. destruct (fits self segment false s) eqn:F.
    - unfold seq, modify, append. apply IH. simpl.
      unfold fits in F. rewrite Hn in F. rewrite orb_false_r in F.
      apply Z.leb_le in F. exact F.
    - unfold seq, modify. apply IH. simpl. exact Hs. }
  unfold seq at 1. destruct later; unfold when.
  - unfold start_line.
    destruct (maxlines self <? lineno st + 1); [exact Hc|].
    destruct (negb (linebreakok st)); [exact Hc|].
    apply Step. simpl. exact H0.
  - unfold pass. apply Step. exact Hc.
Qed.

(** X6.  [_output] ends for every width and every line budget, also a
    width of zero or below.  It raises nothing but the two layout signals,
    and only after it has appended a node; it only appends, and it leaves
    the break flag and the score as they are. *)
Theorem X6_output_ends_and_raises_only_layout_signals
  self s css_class link st :
  match _output self s css_class link st with
  | Normal st' =>
      (exists suf, result st' = result st ++ suf)
      /\ linebreakok st' = linebreakok st /\ score st' = score st
  | Raised e st' =>
      (e = _Maxlines \/ e = _Linebreak)
      /\ (exists suf, suf <> [] /\ result st' = result st ++ suf)
      /\ linebreakok st' = linebreakok st /\ score st' = score st
  | OutOfFuel => False
  end.
Proof.
  pose proof (@_output_post self s css_class link st) as H.
  pose proof (@_output_ends self s css_class link st) as E.
  destruct (_output self s css_class link st) as [st'|e st'|].
  - destruct H as (suf & R & _ & L & S & _).
    split; [exists suf; exact R|]. split; assumption.
  - destruct H as (suf & R & _ & L & S & G & N).
    split; [destruct e; try discriminate; auto|].
    split; [exists suf; split; [apply N; reflexivity|exact R]|].
    split; assumption.
  - apply E. reflexivity.
Qed.

(** X7.  With a width that is not negative, [_output] of a chunk that is
    no link never leaves the column beyond the width: a column within the
    width before the call is within the width after it, whether the call
    returns or raises. *)
Theorem X7_output_stays_within_the_width self n s css_class st :
  linelen self = Some n -> 0 <= n -> charpos st <= n ->
  match _output self s css_class false st with
  | Normal st' | Raised _ st' => charpos st' <= n
  | OutOfFuel => True
  end.
Proof.
  intros Hn H0 Hc. unfold _output.
  apply output_segments_within; assumption.
Qed.

Lemma X7_witness :
  match _output {| linelen := Some 3; maxlines := 5; self_linebreakok := true |}
          (Str (py "abcdefgh")) None false new_state with
  | Normal st' | Raised _ st' => charpos st' <= 3
  | OutOfFuel => True
  end.
Proof.
  apply (@X7_output_stays_within_the_width
           {| linelen := Some 3; maxlines := 5; self_linebreakok := true |}
           3 (Str (py "abcdefgh")) None new_state);
    [reflexivity|lia|simpl; lia].
Defined.

Lemma appended_more {P : node -> Prop} st s pre o :
  result s = result st ++ pre -> Forall P pre ->
  match o with
  | Normal st' | Raised _ st' =>
      exists suf, result st' = result s ++ suf /\ Forall P suf
  | OutOfFuel => True
  end ->
  match o with
  | Normal st' | Raised _ st' =>
      exists suf, result st' = result st ++ suf /\ Forall P suf
  | OutOfFuel => True
  end.
Proof.
  intros R F H. destruct o as [st'|e st'|]; [| |exact I];
    destruct H as (suf & R' & F'); exists (pre ++ suf);
    (split; [rewrite R', R, app_assoc; reflexivity
            |apply Forall_app; split; assumption]).
Qed.

Lemma output_segments_nodes self css_class link fuel :
  forall segments later st,
    match output_segments self fuel segments later css_class link st with
    | Normal st' | Raised _ st' =>
        exists suf, result st' = result st ++ suf
                    /\ Forall (sink_node self css_class link) suf
    | OutOfFuel => True
    end.
Proof.
  assert (Nil : forall st : _ColorizerState,
            exists suf, result st = result st ++ suf
                        /\ Forall (sink_node self css_class link) suf).
  { intros st. exists []. rewrite app_nil_r. split; [reflexivity|constructor]. }
  induction fuel as [|fuel IH]; intros segments later st;
    destruct segments as [|segment rest]; simpl; try apply Nil; try exact I.
  assert (Step : forall s,
            match (if fits self segment link s
                   then (modify (fun st => set_charpos (charpos st + len segment) st) ;;
                         append (fitting_element segment css_class link) ;;
                         output_segments self fuel rest true css_class link) s
                   else (modify (fun st =>
                           set_result (result st ++
                             [wrapped_element
                                (slice_to segment
                                   match linelen self with
                                   | Some n => n - charpos s
                                   | None => 0
                                   end) css_class; LINEWRAP]) st) ;;
                         output_segments self fuel
                           (slice_from segment
                              match linelen self with
                              | Some n => n - charpos s
                              | None => 0
                              end :: rest) true css_class link) s) with
            | Normal st' | Raised _ st' =>
                exists suf, result st' = result s ++ suf
                            /\ Forall (sink_node self css_class link) suf
            | OutOfFuel => True
            end).
  { intros s. destruct (fits self segment link s) eqn:F.
    - unfold seq, modify, append.
      eapply appended_more; [| |apply IH].
      + simpl. reflexivity.
      + constructor; [|constructor]. right. left. eexists. reflexivity.
    - unfold seq, modify.
      assert (W : linelen self <> None /\ link = false).
      { unfold fits in F. destruct (linelen self); [|discriminate].
        apply orb_false_elim in F. split; [discriminate|apply F]. }
      destruct W as [W1 W2].
      eapply appended_more; [| |apply IH].
      + simpl. reflexivity.
      + constructor; [|constructor; [|constructor]]; right; right;
          (split; [exact W1|split; [exact W2|]]);
          [right; eexists; reflexivity|left; reflexivity]. }
  unfold seq at 1. destruct later; unfold when.
  - unfold start_line.
    destruct (maxlines self <? lineno st + 1); [apply Nil|].
    destruct (negb (linebreakok st)); [apply Nil|].
    eapply appended_more; [| |apply Step].
    + simpl. reflexivity.
    + constructor; [left; reflexivity|constructor].
  - unfold pass. apply Step.
Qed.

Lemma output_segments_no_Linebreak self css_class link fuel :
  forall segments later st,
    linebreakok st = true ->
    match output_segments self fuel segments later css_class link st with
    | Raised e _ => e <> _Linebreak
    | _ => True
    end.
Proof.
  induction fuel as [|fuel IH]; intros segments later st Hl;
    destruct segments as [|segment rest]; simpl; try exact I.
  assert (Step : forall s, linebreakok s = true ->
            match (if fits self segment link s
                   then (modify (fun st => set_charpos (charpos st + len segment) st) ;;
                         append (fitting_element segment css_class link) ;;
                         output_segments self fuel rest true css_class link) s
                   else (modify (fun st =>
                           set_result (result st ++
                             [wrapped_element
                                (slice_to segment
                                   match linelen self with
                                   | Some n => n - charpos s
                                   | None => 0
                                   end) css_class; LINEWRAP]) st) ;;
                         output_segments self fuel
                           (slice_from segment
                              match linelen self with
                              | Some n => n - charpos s
                              | None => 0
                              end :: rest) true css_class link) s) with
            | Raised e _ => e <> _Linebreak
            | _ => True
            end).
  { intros s Hs. destruct (fits self segment link s);
      unfold seq, modify, append; apply IH; exact Hs. }
  unfold seq at 1. destruct later; unfold when.
  - unfold start_line.
    destruct (maxlines self <? lineno st + 1); [discriminate|].
    replace (negb (linebreakok st)) with false by (rewrite Hl; reflexivity).
    apply Step. exact Hl.
  - unfold pass. apply Step. exact Hl.
Qed.

(** *** A property of methods that every method of the colorizer has

    [good] is any property of methods that the primitive steps have and
    that sequencing, reading the state, the retry of [_multiline] and the
    handlers that restore a mark keep. *)

Section Traversal.

Variable host : Host.
Variable self : PyvalColorizer.
Variable good : M -> Prop.

Hypothesis good_pass : good pass.
Hypothesis good_seq : forall m k, good m -> good k -> good (m ;; k).
Hypothesis good_read :
  forall A (f : _ColorizerState -> A) k,
    (forall x, good (k x)) -> good (read f k).
Hypothesis good_output :
  forall s css_class link, good (_output self s css_class link).
Hypothesis good_word_break : good (append WORD_BREAK_OPPORTUNITY).
Hypothesis good_unknown : good (append UNKNOWN_REPR).
Hypothesis good_add_score : forall d, good (add_score d).
Hypothesis good_raise : forall e, is_layout_signal e = false -> good (raise e).
Hypothesis good_multiline : forall func, good func -> good (_multiline func).
Hypothesis good_try_restore :
  forall body handles handler,
    good body -> good handler ->
    good (let* mark_ := mark in
          try_except body handles (modify (restore mark_) ;; handler)).
Hypothesis good_out_of_fuel : good (fun _ => OutOfFuel).

Lemma good_when b m : good m -> good (when b m).
Proof. intros H. destruct b; [assumption|apply good_pass]. Qed.

Lemma good_for_enumerate_from {A} (body : nat -> A -> M) l :
  (forall i x, In x l -> good (body i x)) ->
  forall i, good (for_enumerate_from i body l).
Proof.
  induction l as [|x l IH]; intros H i; simpl.
  - apply good_pass.
  - apply good_seq; [apply H; left; reflexivity|].
    apply IH. intros j y Hy. apply H. right. assumption.
Qed.

Lemma good_for_enumerate {A} (body : nat -> A -> M) l :
  (forall i x, In x l -> good (body i x)) -> good (for_enumerate body l).
Proof. intros H. apply good_for_enumerate_from. assumption. Qed.

Lemma good_insert_comma indent : good (_insert_comma self indent).
Proof.
  unfold _insert_comma. apply good_read. intros [|].
  - apply good_seq; apply good_output.
  - apply good_output.
Qed.

Ltac good_step :=
  match goal with
  | |- good (_ ;; _) => apply good_seq
  | |- good (read mark (fun _ => try_except _ _ _)) => apply good_try_restore
  | |- good (read _ _) => apply good_read; intro
  | |- good (when _ _) => apply good_when
  | |- good pass => apply good_pass
  | |- good (_output _ _ _ _) => apply good_output
  | |- good (append WORD_BREAK_OPPORTUNITY) => apply good_word_break
  | |- good (append UNKNOWN_REPR) => apply good_unknown
  | |- good (add_score _) => apply good_add_score
  | |- good (raise _) => apply good_raise; reflexivity
  | |- good (for_enumerate _ _) => apply good_for_enumerate; intros ? ? ?
  | |- good (_multiline _) => apply good_multiline
  | |- good (_insert_comma _ _) => apply good_insert_comma
  | H : forall x, good (?f x) |- good (?f _) => apply H
  | H : forall x y z, good (?f x y z) |- good (?f _ _ _) => apply H
  | |- good (if ?x then _ else _) => destruct x
  | |- good (match ?x with _ => _ end) => destruct x
  end.

Ltac good_auto := repeat good_step.

Lemma _colorize_str_good kind pyval prefix escape_fcn str_func :
  good (_colorize_str self kind pyval prefix escape_fcn str_func).
Proof. unfold _colorize_str. good_auto. Qed.

Lemma _colorize_ast_generic_good pyval :
  good (_colorize_ast_generic host self pyval).
Proof. unfold _colorize_ast_generic. good_auto. Qed.

Lemma _colorize_ast_attribute_good pyval :
  good (_colorize_ast_attribute host self pyval).
Proof.
  unfold _colorize_ast_attribute.
  destruct (attribute_chain pyval []) as [parts [ ]];
    try apply _colorize_ast_generic_good.
  apply good_output.
Qed.

Lemma _colorize_re_flags_good flags : good (_colorize_re_flags self flags).
Proof. unfold _colorize_re_flags. good_auto. Qed.

Section Bodies.

Variable self_colorize : pyval -> M.
Variable self_colorize_ast : ast -> M.
Variable self_colorize_re_tree : list re_elt -> bool -> list (Z * pystr) -> M.

Hypothesis colorize_good : forall pyval, good (self_colorize pyval).
Hypothesis colorize_ast_good : forall pyval, good (self_colorize_ast pyval).
Hypothesis colorize_re_tree_good :
  forall tree noparen groups, good (self_colorize_re_tree tree noparen groups).

Lemma _colorize_re_elt_good groups elt :
  good (_colorize_re_elt self self_colorize_re_tree groups elt).
Proof. unfold _colorize_re_elt. good_auto. Qed.

Lemma _colorize_re_tree_def_good tree noparen groups :
  good (_colorize_re_tree_def self self_colorize_re_tree tree noparen groups).
Proof.
  unfold _colorize_re_tree_def. good_auto. apply _colorize_re_elt_good.
Qed.

Lemma _colorize_re_pattern_good pat flags :
  good (_colorize_re_pattern host self_colorize_re_tree pat flags).
Proof.
  unfold _colorize_re_pattern.
  destruct (match pat with
            | PyBytes b => option_map PyStr (utf8_decode b)
            | _ => Some pat
            end); [|apply good_raise; reflexivity].
  destruct (sre_parse_parse host p flags); [apply colorize_re_tree_good|].
  apply good_raise. reflexivity.
Qed.

Lemma _colorize_re_good pat flags :
  good (_colorize_re host self self_colorize_re_tree pat flags).
Proof.
  unfold _colorize_re. good_auto;
    first [apply _colorize_re_flags_good|apply _colorize_re_pattern_good].
Qed.

Lemma _colorize_iter_good pyval prefix suffix :
  good (_colorize_iter self self_colorize pyval prefix suffix).
Proof. unfold _colorize_iter. good_auto. Qed.

Lemma _colorize_dict_good items prefix suffix :
  good (_colorize_dict self self_colorize items prefix suffix).
Proof. unfold _colorize_dict. good_auto. Qed.

Lemma _colorize_ast_call_generic_good func args keywords :
  good (_colorize_ast_call_generic self self_colorize self_colorize_ast
          func args keywords).
Proof.
  unfold _colorize_ast_call_generic. good_auto; apply _colorize_iter_good.
Qed.

Lemma _colorize_ast_re_good args_ func args keywords :
  good (_colorize_ast_re host self self_colorize self_colorize_ast
          self_colorize_re_tree args_ func args keywords).
Proof.
  unfold _colorize_ast_re.
  destruct (get_pattern args_); [|apply _colorize_ast_call_generic_good].
  destruct (_is_ast_constant a); [|apply _colorize_ast_call_generic_good].
  good_auto. apply _colorize_re_pattern_good.
Qed.

Lemma _colorize_ast_call_good func args keywords :
  good (_colorize_ast_call host self self_colorize self_colorize_ast
          self_colorize_re_tree func args keywords).
Proof.
  unfold _colorize_ast_call.
  destruct (is_re_compile func); [|apply _colorize_ast_call_generic_good].
  destruct (bind_args args keywords); [|apply _colorize_ast_call_generic_good].
  apply good_try_restore; [apply _colorize_ast_re_good|].
  apply good_raise. reflexivity.
Qed.

Lemma _colorize_ast_def_good pyval :
  good (_colorize_ast_def host self self_colorize self_colorize_ast
          self_colorize_re_tree pyval).
Proof.
  unfold _colorize_ast_def.
  destruct (_is_ast_constant pyval).
  { unfold _colorize_ast_constant. good_auto. }
  destruct pyval;
    try apply _colorize_ast_generic_good;
    try apply _colorize_ast_attribute_good;
    try apply _colorize_ast_call_good;
    try (apply good_multiline;
         first [apply _colorize_iter_good|apply _colorize_dict_good]).
  - unfold _colorize_ast_unary_op. good_auto.
  - unfold _colorize_ast_binary_op. good_auto;
      apply _colorize_ast_generic_good.
  - unfold _colorize_ast_bool_op. good_auto.
  - unfold _colorize_ast_name. good_auto.
  - unfold _colorize_ast_subscript.
    repeat first [apply _colorize_iter_good
                 |apply _colorize_ast_generic_good
                 |good_step].
  - good_auto.
  - good_auto.
Qed.

Lemma _colorize_def_good pyval :
  good (_colorize_def host self self_colorize self_colorize_ast
          self_colorize_re_tree pyval).
Proof.
  unfold _colorize_def. apply good_seq; [apply good_add_score|].
  destruct (in_builtin_constants_raises pyval);
    [apply good_raise; reflexivity|].
  destruct (in_builtin_constants pyval);
    [destruct (str_raises pyval);
     [apply good_raise; reflexivity|apply good_output]|].
  assert (Hobj : forall r,
            good
              match r with
              | repr_KeyboardInterrupt => raise KeyboardInterrupt
              | repr_raises => add_score (-100) ;; append UNKNOWN_REPR
              | repr_returns pyval_repr =>
                  match GENERIC_OBJECT_RE_search pyval_repr with
                  | Some generic_object_match_groups =>
                      add_score (-5) ;;
                      match dict_get (py "descr") generic_object_match_groups with
                      | Some descr =>
                          _output self
                            (Str (py "<" ++ match descr with
                                            | Some d => d
                                            | None => py "None"
                                            end ++ py ">")) None false
                      | None => append UNKNOWN_REPR
                      end
                  | None => _output self (Str pyval_repr) None false
                  end
              end).
  { intros r. destruct r.
    - destruct (GENERIC_OBJECT_RE_search s); [|apply good_output].
      apply good_seq; [apply good_add_score|].
      destruct (dict_get (py "descr") l);
        [apply good_output|apply good_unknown].
    - apply good_seq; [apply good_add_score|apply good_unknown].
    - apply good_raise. reflexivity. }
  destruct pyval.
  - apply good_output.
  - apply Hobj.
  - apply Hobj.
  - apply Hobj.
  - apply good_output.
  - apply good_output.
  - apply good_output.
  - apply _colorize_str_good.
  - apply _colorize_str_good.
  - apply good_multiline, _colorize_iter_good.
  - apply good_multiline, _colorize_iter_good.
  - apply good_multiline, _colorize_iter_good.
  - apply good_multiline, _colorize_dict_good.
  - apply good_multiline, _colorize_iter_good.
  - apply _colorize_re_good.
  - apply colorize_ast_good.
  - apply Hobj.
  - apply Hobj.
Qed.

End Bodies.

Lemma _colorize_re_tree_good fuel :
  forall tree noparen groups,
    good (_colorize_re_tree self fuel tree noparen groups).
Proof.
  induction fuel as [|fuel IH]; intros tree noparen groups; simpl.
  - apply good_out_of_fuel.
  - apply _colorize_re_tree_def_good. assumption.
Qed.

Lemma _colorize_good_both fuel :
  (forall pyval, good (_colorize host self fuel pyval))
  /\ (forall pyval, good (_colorize_ast host self fuel pyval)).
Proof.
  induction fuel as [|fuel [IH1 IH2]]; simpl.
  - split; intros pyval; apply good_out_of_fuel.
  - split; intros pyval.
    + apply _colorize_def_good; auto. apply _colorize_re_tree_good.
    + apply _colorize_ast_def_good; auto. apply _colorize_re_tree_good.
Qed.

End Traversal.

(** *** The nodes that the colorizer appends *)

Section Appends.

Variable self : PyvalColorizer.
Variable P : node -> Prop.

Hypothesis P_sink :
  forall css_class link n, sink_node self css_class link n -> P n.

Lemma appends_nothing (st : _ColorizerState) :
  exists suf, result st = result st ++ suf /\ Forall P suf.
Proof. exists []. rewrite app_nil_r. split; [reflexivity|constructor]. Qed.

Lemma appends_pass : appends P pass.
Proof. intros st. apply appends_nothing. Qed.

Lemma appends_raise e : appends P (raise e).
Proof. intros st. apply appends_nothing. Qed.

Lemma appends_out_of_fuel : appends P (fun _ => OutOfFuel).
Proof. intros st. exact I. Qed.

Lemma appends_add_score d : appends P (add_score d).
Proof.
  intros st. exists []. simpl. rewrite app_nil_r.
  split; [reflexivity|constructor].
Qed.

Lemma appends_append n : P n -> appends P (append n).
Proof.
  intros H st. exists [n]. split; [reflexivity|].
  constructor; [assumption|constructor].
Qed.

Lemma appends_seq m k : appends P m -> appends P k -> appends P (m ;; k).
Proof.
  intros Hm Hk st. unfold seq. specialize (Hm st).
  destruct (m st) as [st1|e st1|]; auto.
  destruct Hm as (pre & R & F).
  apply (appended_more st st1 (k st1) R F). apply Hk.
Qed.

Lemma appends_read A (f : _ColorizerState -> A) k :
  (forall x, appends P (k x)) -> appends P (read f k).
Proof. intros H st. apply (H (f st) st). Qed.

Lemma appends_output s css_class link :
  appends P (_output self s css_class link).
Proof.
  intros st. unfold _output.
  match goal with
  | |- match output_segments self ?f ?segs false css_class link st with _ => _ end =>
      pose proof (@output_segments_nodes self css_class link f segs false st) as H;
      destruct (output_segments self f segs false css_class link st)
        as [st'|e st'|]; [| |exact I];
      destruct H as (suf & R & F); exists suf; (split; [exact R|]);
      (eapply Forall_impl; [|exact F]); intros n Hn;
      apply (P_sink Hn)
  end.
Qed.

Lemma appends_multiline func : appends P func -> appends P (_multiline func).
Proof.
  intros Hf st. unfold _multiline, read, try_except, seq, modify.
  pose proof (Hf (set_linebreakok false st)) as H1.
  destruct (func (set_linebreakok false st)) as [st1|e st1|]; auto.
  destruct (is_Linebreak e); [|assumption].
  destruct (negb (linebreakok st)); [exact H1|].
  destruct H1 as (suf & R & F).
  rewrite (@restore_mark st st1 suf R). apply Hf.
Qed.

Lemma appends_try_restore body handles handler :
  appends P body -> appends P handler ->
  appends P (let* mark_ := mark in
             try_except body handles (modify (restore mark_) ;; handler)).
Proof.
  intros Hb Hh st. unfold read, try_except, seq, modify.
  pose proof (Hb st) as H1.
  destruct (body st) as [st1|e st1|]; auto.
  destruct (handles e); [|assumption].
  destruct H1 as (suf & R & _). rewrite (@restore_mark st st1 suf R).
  apply Hh.
Qed.

Hypothesis P_word_break : P WORD_BREAK_OPPORTUNITY.
Hypothesis P_unknown : P UNKNOWN_REPR.

Lemma _colorize_appends host fuel pyval :
  appends P (_colorize host self fuel pyval).
Proof.
  apply (@_colorize_good_both host self (appends P)); intros.
  - apply appends_pass.
  - apply appends_seq; assumption.
  - apply appends_read; assumption.
  - apply appends_output.
  - apply appends_append, P_word_break.
  - apply appends_append, P_unknown.
  - apply appends_add_score.
  - apply appends_raise.
  - apply appends_multiline; assumption.
  - apply appends_try_restore; assumption.
  - apply appends_out_of_fuel.
Qed.

End Appends.

(** *** Breaks *)

Section Breaks.

Variable self : PyvalColorizer.

Lemma breaks_kept_nothing (st : _ColorizerState) :
  linebreakok st = linebreakok st /\ exists suf, result st = result st ++ suf.
Proof. split; [reflexivity|]. exists []. rewrite app_nil_r. reflexivity. Qed.

Lemma breaks_kept_pass : breaks_kept pass.
Proof. intros st. apply breaks_kept_nothing. Qed.

Lemma breaks_kept_raise e : is_layout_signal e = false -> breaks_kept (raise e).
Proof.
  intros H st. split; [|apply breaks_kept_nothing].
  intros _ E. subst e. discriminate.
Qed.

Lemma breaks_kept_out_of_fuel : breaks_kept (fun _ => OutOfFuel).
Proof. intros st. exact I. Qed.

Lemma breaks_kept_add_score d : breaks_kept (add_score d).
Proof.
  intros st. split; [reflexivity|]. exists []. simpl. rewrite app_nil_r.
  reflexivity.
Qed.

Lemma breaks_kept_append n : breaks_kept (append n).
Proof. intros st. split; [reflexivity|]. exists [n]. reflexivity. Qed.

Lemma breaks_kept_seq m k : breaks_kept m -> breaks_kept k -> breaks_kept (m ;; k).
Proof.
  intros Hm Hk st. unfold seq. specialize (Hm st).
  destruct (m st) as [st1|e st1|]; auto.
  destruct Hm as (L & pre & R).
  specialize (Hk st1). destruct (k st1) as [st2|e st2|]; auto.
  - destruct Hk as (L2 & suf & R2). split; [congruence|].
    exists (pre ++ suf). rewrite R2, R, app_assoc. reflexivity.
  - destruct Hk as (L2 & suf & R2). split; [intros H; apply L2; congruence|].
    exists (pre ++ suf). rewrite R2, R, app_assoc. reflexivity.
Qed.

Lemma breaks_kept_read A (f : _ColorizerState -> A) k :
  (forall x, breaks_kept (k x)) -> breaks_kept (read f k).
Proof. intros H st. apply (H (f st) st). Qed.

Lemma breaks_kept_output s css_class link :
  breaks_kept (_output self s css_class link).
Proof.
  intros st.
  pose proof (@_output_post self s css_class link st) as H.
  assert (B : linebreakok st = true ->
              match _output self s css_class link st with
              | Raised e _ => e <> _Linebreak
              | _ => True
              end).
  { intros Hl. unfold _output. apply output_segments_no_Linebreak. exact Hl. }
  destruct (_output self s css_class link st) as [st'|e st'|]; [| |exact I].
  - destruct H as (suf & R & _ & L & _). split; [exact L|exists suf; exact R].
  - destruct H as (suf & R & _). split; [exact B|exists suf; exact R].
Qed.

Lemma breaks_kept_multiline func :
  breaks_kept func -> breaks_kept (_multiline func).
Proof.
  intros Hf st. unfold _multiline, read, try_except, seq, modify.
  pose proof (Hf (set_linebreakok false st)) as H1.
  destruct (func (set_linebreakok false st)) as [st1|e st1|]; auto.
  - destruct H1 as (_ & suf & R). split; [reflexivity|exists suf; exact R].
  - destruct H1 as (_ & suf & R).
    destruct (is_Linebreak e) eqn:El.
    + destruct (linebreakok st) eqn:Ls; simpl.
      * rewrite (@restore_mark st st1 suf R). specialize (Hf st).
        rewrite Ls in Hf. exact Hf.
      * unfold raise. split; [discriminate|exists suf; exact R].
    + split; [|exists suf; exact R].
      intros _ E. subst e. discriminate.
Qed.

Lemma breaks_kept_try_restore body handles handler :
  breaks_kept body -> breaks_kept handler ->
  breaks_kept (let* mark_ := mark in
               try_except body handles (modify (restore mark_) ;; handler)).
Proof.
  intros Hb Hh st. unfold read, try_except, seq, modify.
  pose proof (Hb st) as H1.
  destruct (body st) as [st1|e st1|]; auto.
  destruct (handles e); [|assumption].
  destruct H1 as (_ & suf & R). rewrite (@restore_mark st st1 suf R).
  apply Hh.
Qed.

Lemma _colorize_breaks_kept host fuel pyval :
  breaks_kept (_colorize host self fuel pyval).
Proof.
  apply (@_colorize_good_both host self breaks_kept); intros.
  - apply breaks_kept_pass.
  - apply breaks_kept_seq; assumption.
  - apply breaks_kept_read; assumption.
  - apply breaks_kept_output.
  - apply breaks_kept_append.
  - apply breaks_kept_append.
  - apply breaks_kept_add_score.
  - apply breaks_kept_raise; assumption.
  - apply breaks_kept_multiline; assumption.
  - apply breaks_kept_try_restore; assumption.
  - apply breaks_kept_out_of_fuel.
Qed.

End Breaks.

(** X8.  From a state in which line breaks are on, [_colorize] never
    raises [_Linebreak]: the signal of a compact attempt is caught by the
    [_multiline] that made the attempt.  So a configuration that allows
    breaks is cut short by the line budget only. *)
Theorem X8_no_Linebreak_when_breaks_are_on host self fuel pyval st st' :
  linebreakok st = true ->
  _colorize host self fuel pyval st <> Raised _Linebreak st'.
Proof.
  intros Hl E.
  pose proof (@_colorize_breaks_kept self host fuel pyval st) as H.
  rewrite E in H. destruct H as [H _]. apply (H Hl). reflexivity.
Qed.

Lemma X8_witness :
  _colorize no_library
    {| linelen := Some 5; maxlines := 7; self_linebreakok := true |}
    2 (PyList [PyInt 5; PyInt 6; PyInt 7]) new_state
  <> Raised _Linebreak new_state.
Proof.
  apply (@X8_no_Linebreak_when_breaks_are_on no_library
           {| linelen := Some 5; maxlines := 7; self_linebreakok := true |}
           2%nat (PyList [PyInt 5; PyInt 6; PyInt 7]) new_state new_state).
  reflexivity.
Defined.

Lemma colorizer_node_sink self css_class link n :
  sink_node self css_class link n -> colorizer_node self n.
Proof. intros H. right. right. exists css_class, link. exact H. Qed.

Lemma _colorize_appends_colorizer_nodes host self fuel pyval :
  appends (colorizer_node self) (_colorize host self fuel pyval).
Proof.
  apply _colorize_appends.
  - apply colorizer_node_sink.
  - left. reflexivity.
  - right. left. reflexivity.
Qed.

Lemma _colorize_appends_only (P : node -> Prop) host self fuel pyval :
  (forall n, colorizer_node self n -> P n) ->
  appends P (_colorize host self fuel pyval).
Proof.
  intros HP st.
  pose proof (@_colorize_appends_colorizer_nodes host self fuel pyval st) as H.
  destruct (_colorize host self fuel pyval st) as [st'|e st'|]; [| |exact I];
    destruct H as (suf & R & F); exists suf; (split; [exact R|]);
    (eapply Forall_impl; [|exact F]); exact HP.
Qed.

Lemma put_together_Forall (P : node -> Prop) min_score c st r :
  P UNKNOWN_REPR -> Forall P (result st) ->
  put_together min_score c st = Returns r -> Forall P (document r).
Proof.
  intros Hu Hr E. unfold put_together in E.
  destruct min_score as [m|]; [destruct (score st <? m)|];
    inversion E; subst r; simpl; auto.
Qed.

Lemma without_LINEWRAP_Forall (P : node -> Prop) l :
  Forall P l -> Forall P (without_LINEWRAP l).
Proof.
  intros H. unfold without_LINEWRAP.
  destruct (last_node l) as [n|]; [|assumption].
  destruct (is_LINEWRAP n); [|assumption].
  apply Forall_removelast. assumption.
Qed.

(** What holds of every node that the colorizer appends, of the markers
    that [colorize] adds and of a node that [_trim_result] has cut, holds
    of every node of the document. *)
Lemma colorize_document_Forall (P : node -> Prop) host self fuel pyval
  min_score r :
  (forall n, colorizer_node self n -> P n) ->
  P ELLIPSIS ->
  (forall n k, P n -> P (with_text n (slice_to (astext n) k))) ->
  colorize host self fuel pyval min_score = Returns r ->
  Forall P (document r).
Proof.
  intros HP He Ht E. rewrite colorize_initial in E.
  assert (Hu : P UNKNOWN_REPR) by (apply HP; right; left; reflexivity).
  assert (Hn : P NEWLINE)
    by (apply HP; right; right; exists None, false; left; reflexivity).
  pose proof (@_colorize_appends_only P host self fuel pyval HP
                (initial_state self)) as H.
  destruct (_colorize host self fuel pyval (initial_state self))
    as [st'|e st'|]; [| |discriminate].
  - destruct H as (suf & R & F). simpl in R.
    apply (@put_together_Forall P min_score true st' r Hu); [|exact E].
    rewrite R. exact F.
  - destruct H as (suf & R & F). simpl in R.
    destruct (is_layout_signal e); [|discriminate].
    destruct (self_linebreakok self).
    + apply (@put_together_Forall P _ _ _ _ Hu) in E; [exact E|].
      simpl. rewrite R. apply Forall_app. split; [exact F|].
      repeat constructor; assumption.
    + destruct (last_node (result st')); [|discriminate].
      destruct (_trim_result (without_LINEWRAP (result st')) 3)
        as [t|] eqn:T; [|discriminate].
      apply (@put_together_Forall P _ _ _ _ Hu) in E; [exact E|].
      simpl. apply Forall_app. split; [|repeat constructor; assumption].
      unfold _trim_result in T.
      refine (@trim_loop_Forall P Ht _ _ _ _ _ T).
      apply without_LINEWRAP_Forall. rewrite R. exact F.
Qed.

(** X9.  Without a width, no line is wrapped: the document of [colorize]
    has no line-wrap marker, for every value, whether the result is
    complete or not. *)
Theorem X9_no_wrap_without_a_width host self fuel pyval min_score :
  linelen self = None ->
  match colorize host self fuel pyval min_score with
  | Returns r => Forall (fun n => is_LINEWRAP n = false) (document r)
  | _ => True
  end.
Proof.
  intros Hw.
  destruct (colorize host self fuel pyval min_score) as [r|e|] eqn:E;
    [|exact I|exact I].
  apply (@colorize_document_Forall (fun n => is_LINEWRAP n = false)
           host self fuel pyval min_score r); [| | |exact E].
  - intros n [->|[->|(css_class & link & [->|[[segment ->]|(W & _)]])]];
      try reflexivity.
    + destruct link; [reflexivity|]. destruct css_class; reflexivity.
    + contradiction.
  - reflexivity.
  - intros n k _. destruct n; reflexivity.
Qed.

Lemma X9_witness :
  match colorize_inline_pyval no_library 3 (PyList [PyStr (py "abc"); PyInt 5])
  with
  | Returns r => Forall (fun n => is_LINEWRAP n = false) (document r)
  | _ => True
  end.
Proof.
  apply (@X9_no_wrap_without_a_width no_library
           {| linelen := None; maxlines := 7; self_linebreakok := false |}
           3%nat (PyList [PyStr (py "abc"); PyInt 5]) None).
  reflexivity.
Defined.

(** *** Names and attributes *)

Lemma attribute_chain_attributes attrs :
  forall base parts,
    attribute_chain (attributes base attrs) parts
    = attribute_chain base (parts ++ rev attrs).
Proof.
  induction attrs as [|a attrs IH]; intros base parts; simpl.
  - rewrite app_nil_r. reflexivity.
  - rewrite IH. simpl. rewrite <- app_assoc. reflexivity.
Qed.

Lemma fits_link self segment st : fits self segment true st = true.
Proof. unfold fits. destruct (linelen self); [apply orb_true_r|reflexivity]. Qed.

(** X12.  A chain of attributes that ends in a name, [id.a1. ... .attr],
    comes out as one reference to the dotted name, whatever the width and
    the column: a reference is never wrapped. *)
Theorem X12_attribute_chain_is_one_reference
  host self fuel id attrs attr st :
  contains NL (join_dot (id :: attrs ++ [attr])) = false ->
  _colorize_ast host self (S fuel)
    (ast_Attribute (attributes (ast_Name id) attrs) attr) st
  = Normal {| result := result st ++
                [obj_reference (join_dot (id :: attrs ++ [attr]))
                               (join_dot (id :: attrs ++ [attr]))];
              charpos := charpos st + len (join_dot (id :: attrs ++ [attr]));
              lineno := lineno st;
              linebreakok := linebreakok st;
              score := score st |}.
Proof.
  intros Hnl. cbn [_colorize_ast]. unfold _colorize_ast_def.
  cbn [_is_ast_constant]. unfold _colorize_ast_attribute.
  cbn [attribute_chain]. rewrite attribute_chain_attributes.
  cbn [attribute_chain].
  replace (rev ((([] ++ [attr]) ++ rev attrs) ++ [id]))
    with (id :: attrs ++ [attr])
    by (rewrite !rev_app_distr, rev_involutive; reflexivity).
  rewrite _output_fitting; [reflexivity|exact Hnl|apply fits_link].
Qed.

Lemma X12_witness :
  _colorize_ast no_library
    {| linelen := Some 5; maxlines := 7; self_linebreakok := true |} 1
    (ast_Attribute (attributes (ast_Name (py "os")) [py "path"]) (py "join"))
    new_state
  = Normal {| result := [obj_reference (py "os.path.join") (py "os.path.join")];
              charpos := 12;
              lineno := 1;
              linebreakok := true;
              score := 0 |}.
Proof.
  apply (@X12_attribute_chain_is_one_reference no_library
           {| linelen := Some 5; maxlines := 7; self_linebreakok := true |}
           0%nat (py "os") [py "path"] (py "join") new_state).
  reflexivity.
Defined.

(** *** Strings *)

Lemma fits_no_width self segment link st :
  linelen self = None -> fits self segment link st = true.
Proof. intros H. unfold fits. rewrite H. reflexivity. Qed.

(** X13.  Without a width and with breaks off, as for an inline value, a
    string comes out as three nodes on one line: the quote, the text that
    [_str_escape] gives, the quote; the result is complete and scores 1. *)
Theorem X13_inline_string_is_three_nodes host fuel s :
  Forall (fun c => 0 <= c) s ->
  colorize_inline_pyval host (S fuel) (PyStr s)
  = Returns {| document := [inline (py "'") variable_quote;
                            inline (_str_escape s) variable_string;
                            inline (py "'") variable_quote];
               repr_score := 1;
               is_complete := true |}.
Proof.
  intros Hs.
  pose proof (no_control_no_newline (_str_escape_no_control Hs)) as Hnl.
  unfold colorize_inline_pyval. rewrite colorize_initial.
  set (self := {| linelen := None; maxlines := 7; self_linebreakok := false |}).
  assert (Hw : linelen self = None) by reflexivity.
  cbn [_colorize]. unfold _colorize_def.
  unfold seq at 1. unfold add_score, modify.
  cbn [in_builtin_constants_raises in_builtin_constants]. unfold _colorize_str, read.
  cbn [initial_state set_linebreakok set_score linebreakok self_linebreakok
       new_state self andb].
  rewrite andb_false_r.
  unfold seq at 1.
  rewrite _output_fitting;
    [|reflexivity|apply fits_no_width; reflexivity].
  unfold seq at 1. unfold for_enumerate. cbn [for_enumerate_from].
  unfold seq at 1. unfold seq at 1. cbn [Nat.ltb Nat.leb when]. unfold pass at 1.
  rewrite _output_fitting;
    [|exact Hnl|apply fits_no_width; reflexivity].
  unfold pass.
  rewrite _output_fitting;
    [|reflexivity|apply fits_no_width; reflexivity].
  reflexivity.
Qed.

Lemma X13_witness :
  colorize_inline_pyval no_library 1 (PyStr [97; 10; 233])
  = Returns {| document := [inline (py "'") variable_quote;
                            inline (_str_escape [97; 10; 233]) variable_string;
                            inline (py "'") variable_quote];
               repr_score := 1;
               is_complete := true |}.
Proof.
  apply (@X13_inline_string_is_three_nodes no_library 0%nat [97; 10; 233]).
  repeat constructor; lia.
Defined.

(** *** Literals of a pattern *)

Lemma decode_with_backslashreplace_ascii s :
  Forall (fun c => c < 128) s -> decode_with_backslashreplace s = s.
Proof.
  intros Ha. unfold decode_with_backslashreplace.
  induction Ha as [|c l Hc Hl IH]; [reflexivity|].
  simpl. apply Z.ltb_lt in Hc. rewrite Hc. simpl. f_equal. exact IH.
Qed.

Lemma decode_printable s :
  Forall printable s -> Forall printable (decode_with_backslashreplace s).
Proof.
  intros H. rewrite decode_with_backslashreplace_ascii; [exact H|].
  eapply Forall_impl; [|exact H]. unfold printable. intros; lia.
Qed.

Lemma literal_str_printable c : 0 <= c -> Forall printable (literal_str c).
Proof.
  intros Hc. unfold literal_str, literal_text.
  destruct (contains c (py ".^$\*+?{}[]|()'")) eqn:E.
  { unfold contains in E. apply existsb_exists in E.
    destruct E as (x & Hin & Heq). apply Z.eqb_eq in Heq. subst x.
    cbv in Hin.
    repeat (destruct Hin as [Hin|Hin];
            [subst c; apply printable_forallb; reflexivity|]).
    contradiction. }
  destruct (c =? 9); [apply printable_forallb; reflexivity|].
  destruct (c =? 13); [apply printable_forallb; reflexivity|].
  destruct (c =? 10); [apply printable_forallb; reflexivity|].
  destruct (c =? 12); [apply printable_forallb; reflexivity|].
  destruct (c =? 11); [apply printable_forallb; reflexivity|].
  assert (Hex : forall prefix width,
            forallb (fun c => (32 <=? c) && (c <? 127)) prefix = true ->
            Forall printable (as_str (Bytes (prefix ++ format_x width c)))).
  { intros prefix width Hp. cbn [as_str]. apply decode_printable.
    apply Forall_app. split; [apply printable_forallb; exact Hp|].
    apply format_x_printable. exact Hc. }
  destruct (0xffff <? c); [apply Hex; reflexivity|].
  destruct (0xff <? c); [apply Hex; reflexivity|].
  destruct ((c <? 32) || (127 <=? c)) eqn:K; [apply Hex; reflexivity|].
  apply orb_false_elim in K. destruct K as [K1 K2].
  apply Z.ltb_ge in K1. apply Z.leb_gt in K2.
  cbn [as_str]. constructor; [unfold printable; lia|constructor].
Qed.

Lemma literal_str_plain c : plain_char c = true -> literal_str c = [c].
Proof.
  unfold plain_char. intros H.
  apply andb_true_iff in H. destruct H as [H H3].
  apply andb_true_iff in H. destruct H as [H1 H2].
  apply Z.leb_le in H1. apply Z.ltb_lt in H2. apply negb_true_iff in H3.
  unfold literal_str, literal_text. rewrite H3.
  replace (c =? 9) with false by (symmetry; apply Z.eqb_neq; lia).
  replace (c =? 13) with false by (symmetry; apply Z.eqb_neq; lia).
  replace (c =? 10) with false by (symmetry; apply Z.eqb_neq; lia).
  replace (c =? 12) with false by (symmetry; apply Z.eqb_neq; lia).
  replace (c =? 11) with false by (symmetry; apply Z.eqb_neq; lia).
  replace (0xffff <? c) with false by (symmetry; apply Z.ltb_ge; lia).
  replace (0xff <? c) with false by (symmetry; apply Z.ltb_ge; lia).
  replace (c <? 32) with false by (symmetry; apply Z.ltb_ge; lia).
  replace (127 <=? c) with false by (symmetry; apply Z.leb_gt; lia).
  reflexivity.
Qed.

Lemma literals_loop self rt groups :
  linelen self = None ->
  forall s st i,
    Forall (fun c => 0 <= c <= 0x10ffff) s ->
    for_enumerate_from i (fun _ elt => _colorize_re_elt self rt groups elt)
      (map LITERAL s) st
    = Normal {| result := result st ++ map (fun c => Text (literal_str c)) s;
                charpos := charpos st + len (flat_map literal_str s);
                lineno := lineno st;
                linebreakok := linebreakok st;
                score := score st |}.
Proof.
  intros Hw. induction s as [|c s IH]; intros st i Hs.
  - simpl. unfold pass. destruct st; simpl. rewrite app_nil_r, Z.add_0_r.
    reflexivity.
  - inversion Hs as [|c' s' Hc Hs']; subst.
    cbn [map for_enumerate_from]. unfold seq.
    unfold _colorize_re_elt at 1.
    replace ((c <? 0) || (1114111 <? c)) with false
      by (symmetry; apply orb_false_iff; split;
          [apply Z.ltb_ge|apply Z.ltb_ge]; lia).
    rewrite _output_fitting;
      [|apply printable_no_newline, literal_str_printable; lia
       |apply fits_no_width; exact Hw].
    rewrite IH by exact Hs'. unfold emit. cbn [result charpos lineno linebreakok score].
    f_equal. f_equal.
    + rewrite <- app_assoc. reflexivity.
    + fold (literal_str c). cbn [flat_map]. unfold len.
      rewrite length_app. lia.
Qed.

Lemma _colorize_re_tree_literals self fuel s groups st :
  linelen self = None ->
  Forall (fun c => 0 <= c <= 0x10ffff) s ->
  _colorize_re_tree self (S fuel) (map LITERAL s) true groups st
  = Normal {| result := result st ++ map (fun c => Text (literal_str c)) s;
              charpos := charpos st + len (flat_map literal_str s);
              lineno := lineno st;
              linebreakok := linebreakok st;
              score := score st |}.
Proof.
  intros Hw Hs. cbn [_colorize_re_tree]. unfold _colorize_re_tree_def.
  rewrite andb_false_r. cbn [when negb]. unfold seq at 1. unfold pass at 1.
  unfold seq. unfold for_enumerate. rewrite literals_loop by assumption.
  reflexivity.
Qed.

(** X14.  Without a width, a sequence of LITERAL elements of a pattern
    comes out one text node for each, on the line it started on; every
    character of these texts is printable ASCII, and a literal that is
    printable ASCII and has no meaning in a pattern comes out as itself. *)
Theorem X14_literals_come_out_one_by_one self fuel s groups st :
  linelen self = None ->
  Forall (fun c => 0 <= c <= 0x10ffff) s ->
  _colorize_re_tree self (S fuel) (map LITERAL s) true groups st
  = Normal {| result := result st ++ map (fun c => Text (literal_str c)) s;
              charpos := charpos st + len (flat_map literal_str s);
              lineno := lineno st;
              linebreakok := linebreakok st;
              score := score st |}
  /\ Forall printable (flat_map literal_str s)
  /\ (forallb plain_char s = true ->
      map (fun c => Text (literal_str c)) s = map (fun c => Text [c]) s).
Proof.
  intros Hw Hs. split; [|split].
  - apply _colorize_re_tree_literals; assumption.
  - apply Forall_flat_map. intros c Hc. apply literal_str_printable.
    rewrite Forall_forall in Hs. specialize (Hs c Hc). lia.
  - intros Hp. apply map_ext_in. intros c Hc. f_equal.
    apply literal_str_plain. rewrite forallb_forall in Hp. apply Hp. exact Hc.
Qed.

Lemma X14_witness :
  _colorize_re_tree
    {| linelen := None; maxlines := 7; self_linebreakok := false |} 1
    (map LITERAL [97; 46; 10]) true [] new_state
  = Normal {| result := map (fun c => Text (literal_str c)) [97; 46; 10];
              charpos := len (flat_map literal_str [97; 46; 10]);
              lineno := 1;
              linebreakok := true;
              score := 0 |}.
Proof.
  apply (proj1 (@X14_literals_come_out_one_by_one
                  {| linelen := None; maxlines := 7; self_linebreakok := false |}
                  0%nat [97; 46; 10] [] new_state eq_refl
                  ltac:(repeat constructor; lia))).
Defined.

(** *** What [_output] does with the characters of its chunk *)

Lemma concat_split_newline s :
  List.concat (split_newline s) = filter (fun c => negb (c =? NL)) s.
Proof.
  induction s as [|c s IH]; [reflexivity|].
  cbn [split_newline filter]. destruct (c =? NL); cbn [negb].
  - simpl. exact IH.
  - destruct (split_newline s) as [|seg rest]; simpl in *; rewrite <- IH;
      reflexivity.
Qed.

Lemma chunk_text_fitting segment css_class link :
  chunk_text (fitting_element segment css_class link) = segment.
Proof. destruct link; [reflexivity|]. destruct css_class; reflexivity. Qed.

Lemma chunk_text_wrapped segment css_class :
  chunk_text (wrapped_element segment css_class) = segment.
Proof. destruct css_class; reflexivity. Qed.

Lemma text_more st s pre o t1 t2 :
  result s = result st ++ pre -> flat_map chunk_text pre = t1 ->
  match o with
  | Normal st' =>
      exists suf, result st' = result s ++ suf /\ flat_map chunk_text suf = t2
  | _ => True
  end ->
  match o with
  | Normal st' =>
      exists suf, result st' = result st ++ suf
                  /\ flat_map chunk_text suf = t1 ++ t2
  | _ => True
  end.
Proof.
  intros R T H. destruct o as [st'|e st'|]; try exact I.
  destruct H as (suf & R' & T'). exists (pre ++ suf).
  split; [rewrite R', R, app_assoc; reflexivity|].
  rewrite flat_map_app, T, T'. reflexivity.
Qed.

Lemma output_segments_text self css_class link fuel :
  forall segments later st,
    match output_segments self fuel segments later css_class link st with
    | Normal st' =>
        exists suf, result st' = result st ++ suf
                    /\ flat_map chunk_text suf = List.concat segments
    | _ => True
    end.
Proof.
  induction fuel as [|fuel IH]; intros segments later st;
    destruct segments as [|segment rest]; simpl; try exact I;
    try (exists []; rewrite app_nil_r; split; reflexivity).
  assert (Step : forall s,
            match (if fits self segment link s
                   then (modify (fun st => set_charpos (charpos st + len segment) st) ;;
                         append (fitting_element segment css_class link) ;;
                         output_segments self fuel rest true css_class link) s
                   else (modify (fun st =>
                           set_result (result st ++
                             [wrapped_element
                                (slice_to segment
                                   match linelen self with
                                   | Some n => n - charpos s
                                   | None => 0
                                   end) css_class; LINEWRAP]) st) ;;
                         output_segments self fuel
                           (slice_from segment
                              match linelen self with
                              | Some n => n - charpos s
                              | None => 0
                              end :: rest) true css_class link) s) with
            | Normal st' =>
                exists suf, result st' = result s ++ suf
                            /\ flat_map chunk_text suf = segment ++ List.concat rest
            | _ => True
            end).
  { intros s. destruct (fits self segment link s).
    - unfold seq, modify, append.
      eapply text_more; [| |apply IH].
      + simpl. reflexivity.
      + simpl. rewrite chunk_text_fitting. apply app_nil_r.
    - unfold seq, modify.
      set (split := match linelen self with
                    | Some n => n - charpos s
                    | None => 0
                    end).
      replace (segment ++ List.concat rest)
        with (slice_to segment split ++ List.concat (slice_from segment split :: rest)).
      + eapply text_more; [| |apply IH].
        * simpl. reflexivity.
        * simpl. rewrite chunk_text_wrapped. apply app_nil_r.
      + simpl. rewrite app_assoc. unfold slice_to, slice_from.
        rewrite firstn_skipn. reflexivity. }
  unfold seq at 1. destruct later; unfold when.
  - unfold start_line.
    destruct (maxlines self <? lineno st + 1); [exact I|].
    destruct (negb (linebreakok st)); [exact I|].
    change (segment ++ List.concat rest) with ([] ++ (segment ++ List.concat rest)).
    eapply text_more; [| |apply Step].
    + simpl. reflexivity.
    + reflexivity.
  - unfold pass. apply Step.
Qed.

(** X15.  When [_output] returns, it has appended the characters of its
    chunk, all of them, once and in order, but for the newlines: the
    texts of the nodes it appended, the line-wrap markers left out, make
    the chunk without its newlines.  Wrapping cuts text; it never drops
    or repeats a character, at any width. *)
Theorem X15_output_keeps_every_character self s css_class link st :
  match _output self s css_class link st with
  | Normal st' =>
      exists suf,
        result st' = result st ++ suf
        /\ flat_map chunk_text suf
           = filter (fun c => negb (c =? NL)) (as_str s)
  | _ => True
  end.
Proof.
  rewrite <- concat_split_newline. unfold _output. fold (as_str s).
  apply output_segments_text.
Qed.

(** *** What leaves [colorize] *)

(** X16.  An exception that leaves [colorize] is one that [_colorize]
    raised, and it is no layout signal: the two signals are always turned
    into an incomplete result, and the look at the last node of the result
    never fails, for a signal comes after a node. *)
Theorem X16_only_errors_of_colorize_leave host self fuel pyval min_score e :
  colorize host self fuel pyval min_score = Raises e ->
  is_layout_signal e = false
  /\ exists st,
       _colorize host self fuel pyval (initial_state self) = Raised e st.
Proof.
  intros E. rewrite colorize_initial in E.
  destruct (_colorize host self fuel pyval (initial_state self))
    as [st'|e' st'|] eqn:C; [| |discriminate].
  - unfold put_together in E. discriminate.
  - destruct (is_layout_signal e') eqn:L.
    + exfalso. pose proof (@signal_after_a_node host self fuel pyval e' st' C L)
        as N.
      destruct (self_linebreakok self);
        [unfold put_together in E; discriminate|].
      destruct (last_node (result st')); [|apply N; reflexivity].
      destruct (_trim_result (without_LINEWRAP (result st')) 3);
        [unfold put_together in E|]; discriminate.
    + inversion E; subst e'. split; [exact L|]. exists st'. reflexivity.
Qed.

Lemma X16_witness :
  is_layout_signal KeyboardInterrupt = false
  /\ exists st,
       _colorize no_library
         {| linelen := Some 80; maxlines := 7; self_linebreakok := true |} 1
         (PyObject repr_KeyboardInterrupt)
         (initial_state
            {| linelen := Some 80; maxlines := 7; self_linebreakok := true |})
       = Raised KeyboardInterrupt st.
Proof.
  apply (@X16_only_errors_of_colorize_leave no_library
           {| linelen := Some 80; maxlines := 7; self_linebreakok := true |}
           1%nat (PyObject repr_KeyboardInterrupt) None KeyboardInterrupt).
  reflexivity.
Defined.

(** X17.  Without a width and with breaks off, as for an inline value, a
    bytes value comes out as three nodes on one line: the prefix and the
    quote, the text that [_bytes_escape] gives, the quote. *)
Theorem X17_inline_bytes_is_three_nodes host fuel b :
  Forall (fun c => 0 <= c) b ->
  colorize_inline_pyval host (S fuel) (PyBytes b)
  = Returns {| document := [inline (py "b'") variable_quote;
                            inline (_bytes_escape b) variable_string;
                            inline (py "'") variable_quote];
               repr_score := 1;
               is_complete := true |}.
Proof.
  intros Hb.
  assert (Hnl : contains NL (_bytes_escape b) = false).
  { apply printable_no_newline, _bytes_escape_printable. exact Hb. }
  unfold colorize_inline_pyval. rewrite colorize_initial.
  set (self := {| linelen := None; maxlines := 7; self_linebreakok := false |}).
  cbn [_colorize]. unfold _colorize_def.
  unfold seq at 1. unfold add_score, modify.
  cbn [in_builtin_constants_raises in_builtin_constants]. unfold _colorize_str, read.
  cbn [initial_state set_linebreakok set_score linebreakok self_linebreakok
       new_state self andb].
  rewrite andb_false_r.
  unfold seq at 1.
  rewrite _output_fitting;
    [|reflexivity|apply fits_no_width; reflexivity].
  unfold seq at 1. unfold for_enumerate. cbn [for_enumerate_from].
  unfold seq at 1. unfold seq at 1. cbn [Nat.ltb Nat.leb when]. unfold pass at 1.
  rewrite _output_fitting;
    [|exact Hnl|apply fits_no_width; reflexivity].
  unfold pass.
  rewrite _output_fitting;
    [|reflexivity|apply fits_no_width; reflexivity].
  reflexivity.
Qed.

Lemma X17_witness :
  colorize_inline_pyval no_library 1 (PyBytes [97; 10; 200])
  = Returns {| document := [inline (py "b'") variable_quote;
                            inline (_bytes_escape [97; 10; 200]) variable_string;
                            inline (py "'") variable_quote];
               repr_score := 1;
               is_complete := true |}.
Proof.
  apply (@X17_inline_bytes_is_three_nodes no_library 0%nat [97; 10; 200]).
  repeat constructor; lia.
Defined.

(** *** Objects without a repr of their own *)

Lemma take_while_app f l x t :
  forallb f l = true -> f x = false -> take_while f (l ++ x :: t) = l.
Proof.
  intros Hl Hx. induction l as [|c l IH]; simpl.
  - rewrite Hx. reflexivity.
  - simpl in Hl. apply andb_true_iff in Hl. destruct Hl as [Hc Hl].
    rewrite Hc, (IH Hl). reflexivity.
Qed.

Lemma drop_while_app f l x t :
  forallb f l = true -> f x = false -> drop_while f (l ++ x :: t) = x :: t.
Proof.
  intros Hl Hx. induction l as [|c l IH]; simpl.
  - rewrite Hx. reflexivity.
  - simpl in Hl. apply andb_true_iff in Hl. destruct Hl as [Hc Hl].
    rewrite Hc, (IH Hl). reflexivity.
Qed.

Lemma forallb_rev {A} (f : A -> bool) l :
  forallb f l = true -> forallb f (rev l) = true.
Proof.
  intros H. apply forallb_forall. intros x Hx. apply in_rev in Hx.
  rewrite forallb_forall in H. apply H. exact Hx.
Qed.

Lemma GENERIC_OBJECT_RE_search_default descr addr :
  addr <> [] -> forallb is_hex addr = true -> contains NL descr = false ->
  GENERIC_OBJECT_RE_search (default_repr descr addr)
  = Some [(py "descr", Some descr); (py "addr", Some (48 :: 120 :: addr))].
Proof.
  intros Ha Hh Hd. unfold GENERIC_OBJECT_RE_search, default_repr.
  replace (rev (py "<" ++ descr ++ py " at 0x" ++ addr ++ py ">"))
    with (62 :: rev addr ++ 120 :: 48 :: 32 :: 116 :: 97 :: 32
             :: (rev descr ++ [60])).
  2:{ change (py "<") with [60]. change (py ">") with [62].
      change (py " at 0x") with [32; 97; 116; 32; 48; 120].
      rewrite !rev_app_distr. simpl. rewrite <- !app_assoc. reflexivity. }
  cbn [Z.eqb NL Pos.eqb].
  rewrite take_while_app, drop_while_app;
    try reflexivity; try (apply forallb_rev; exact Hh).
  destruct (rev addr) as [|d ds] eqn:R.
  { exfalso. apply Ha. rewrite <- (rev_involutive addr), R. reflexivity. }
  rewrite <- R, (rev_involutive addr).
  rewrite rev_app_distr, (rev_involutive descr). cbn [rev app].
  rewrite Hd. reflexivity.
Qed.

(** X18.  An object whose repr is the default one, [<descr at 0xaddr>],
    comes out as [<descr>]: the address is left out, the score goes up by
    one for the value and down by five. *)
Theorem X18_default_repr_loses_its_address host self fuel descr addr st :
  addr <> [] -> forallb is_hex addr = true -> contains NL descr = false ->
  fits self (py "<" ++ descr ++ py ">") false st = true ->
  _colorize host self (S fuel)
    (PyObject (repr_returns (default_repr descr addr))) st
  = Normal {| result := result st ++ [Text (py "<" ++ descr ++ py ">")];
              charpos := charpos st + len (py "<" ++ descr ++ py ">");
              lineno := lineno st;
              linebreakok := linebreakok st;
              score := score st + 1 + -5 |}.
Proof.
  intros Ha Hh Hd Hf. cbn [_colorize]. unfold _colorize_def.
  unfold seq at 1. unfold add_score at 1. unfold modify at 1.
  cbn [in_builtin_constants_raises in_builtin_constants repr_of].
  rewrite (@GENERIC_OBJECT_RE_search_default descr addr Ha Hh Hd).
  unfold seq at 1. unfold add_score, modify.
  cbn [dict_get].
  destruct (list_eq_dec Z.eq_dec (py "descr") (py "descr")) as [_|N];
    [|exfalso; apply N; reflexivity].
  rewrite _output_fitting; [reflexivity| |exact Hf].
  cbn [as_str]. rewrite !contains_app, Hd. reflexivity.
Qed.

Lemma X18_witness :
  _colorize no_library
    {| linelen := Some 80; maxlines := 7; self_linebreakok := true |} 1
    (PyObject (repr_returns (default_repr (py "object object") (py "7f3a"))))
    new_state
  = Normal {| result := [Text (py "<object object>")];
              charpos := 15;
              lineno := 1;
              linebreakok := true;
              score := -4 |}.
Proof.
  apply (@X18_default_repr_loses_its_address no_library
           {| linelen := Some 80; maxlines := 7; self_linebreakok := true |}
           0%nat (py "object object") (py "7f3a") new_state);
    [discriminate|reflexivity|reflexivity|reflexivity].
Defined.

(** *** Containers on one line *)

Lemma one_line_pass : one_line pass [].
Proof.
  intros st Hl. exists st. split; [reflexivity|]. split; [exact Hl|].
  exists []. rewrite app_nil_r. split; reflexivity.
Qed.

Lemma one_line_eq m t u : t = u -> one_line m t -> one_line m u.
Proof. intros <-. auto. Qed.

Lemma one_line_seq m k t u :
  one_line m t -> one_line k u -> one_line (m ;; k) (t ++ u).
Proof.
  intros Hm Hk st Hl. unfold seq.
  destruct (Hm st Hl) as (st1 & E1 & L1 & suf1 & R1 & T1). rewrite E1.
  destruct (Hk st1 L1) as (st2 & E2 & L2 & suf2 & R2 & T2).
  exists st2. split; [exact E2|]. split; [exact L2|].
  exists (suf1 ++ suf2). split; [rewrite R2, R1, app_assoc; reflexivity|].
  rewrite document_text_app, T1, T2. reflexivity.
Qed.

Lemma one_line_read_linebreakok k t :
  one_line (k false) t -> one_line (read linebreakok k) t.
Proof. intros H st Hl. unfold read. rewrite Hl. apply H. exact Hl. Qed.

Lemma one_line_read {A} (f : _ColorizerState -> A) k t :
  (forall x, one_line (k x) t) -> one_line (read f k) t.
Proof. intros H st Hl. unfold read. apply H. exact Hl. Qed.

Lemma one_line_add_score d : one_line (add_score d) [].
Proof.
  intros st Hl. eexists. split; [reflexivity|]. split; [exact Hl|].
  exists []. simpl. rewrite app_nil_r. split; reflexivity.
Qed.

Lemma one_line_word_break : one_line (append WORD_BREAK_OPPORTUNITY) [].
Proof.
  intros st Hl. eexists. split; [reflexivity|]. split; [exact Hl|].
  exists [WORD_BREAK_OPPORTUNITY]. split; reflexivity.
Qed.

Lemma astext_fitting segment css_class link :
  astext (fitting_element segment css_class link) = segment.
Proof. destruct link; [reflexivity|]. destruct css_class; reflexivity. Qed.

Lemma one_line_output self s css_class link :
  linelen self = None -> contains NL (as_str s) = false ->
  one_line (_output self s css_class link) (as_str s).
Proof.
  intros Hw Hnl st Hl.
  rewrite _output_fitting; [|exact Hnl|apply fits_no_width; exact Hw].
  eexists. split; [reflexivity|]. split; [exact Hl|].
  eexists. split; [reflexivity|].
  rewrite document_text_single. apply astext_fitting.
Qed.

Lemma join_cons sep t ts :
  join sep (t :: ts) = t ++ flat_map (fun u => sep ++ u) ts.
Proof.
  revert t. induction ts as [|u ts IH]; intros t.
  - simpl. rewrite app_nil_r. reflexivity.
  - change (join sep (t :: u :: ts)) with (t ++ sep ++ join sep (u :: ts)).
    rewrite IH. cbn [flat_map]. rewrite <- app_assoc. reflexivity.
Qed.

Section OneLine.

Variable self : PyvalColorizer.
Variable self_colorize : pyval -> M.

Hypothesis no_width : linelen self = None.

Lemma one_line_later_elements indent :
  forall elts texts,
    Forall2 (fun x t => one_line (self_colorize x) t) elts texts ->
    forall i,
      one_line
        (for_enumerate_from (S i)
           (fun i elt =>
              when (1 <=? i)%nat (_insert_comma self indent) ;;
              append WORD_BREAK_OPPORTUNITY ;;
              self_colorize elt) elts)
        (flat_map (fun u => py ", " ++ u) texts).
Proof.
  intros elts texts H. induction H as [|x t elts texts Hx Hr IH]; intros i.
  - apply one_line_pass.
  - cbn [for_enumerate_from flat_map]. apply one_line_seq; [|apply IH].
    cbn [Nat.leb when].
    apply one_line_seq.
    + unfold _insert_comma. apply one_line_read_linebreakok.
      apply (@one_line_output self (S_ ", ") COMMA_TAG false no_width).
      reflexivity.
    + apply (@one_line_seq _ _ [] t); [apply one_line_word_break|exact Hx].
Qed.

Lemma one_line_elements indent elts texts :
  Forall2 (fun x t => one_line (self_colorize x) t) elts texts ->
  one_line
    (for_enumerate
       (fun i elt =>
          when (1 <=? i)%nat (_insert_comma self indent) ;;
          append WORD_BREAK_OPPORTUNITY ;;
          self_colorize elt) elts)
    (join (py ", ") texts).
Proof.
  intros H. destruct H as [|x t elts texts Hx Hr].
  - apply one_line_pass.
  - rewrite join_cons. unfold for_enumerate. cbn [for_enumerate_from].
    apply one_line_seq; [|apply one_line_later_elements; exact Hr].
    cbn [Nat.leb when].
    apply (@one_line_seq _ _ [] t); [apply one_line_pass|].
    apply (@one_line_seq _ _ [] t); [apply one_line_word_break|exact Hx].
Qed.

Lemma _colorize_iter_one_line elts texts prefix suffix :
  contains NL prefix = false -> contains NL suffix = false ->
  Forall2 (fun x t => one_line (self_colorize x) t) elts texts ->
  one_line
    (_colorize_iter self self_colorize elts (Some (Str prefix))
       (Some (Str suffix)))
    (prefix ++ join (py ", ") texts ++ suffix).
Proof.
  intros Hp Hs H. unfold _colorize_iter.
  apply one_line_seq;
    [apply (@one_line_output self (Str prefix) GROUP_TAG false no_width Hp)|].
  apply one_line_read. intros indent.
  apply one_line_seq; [apply one_line_elements; exact H|].
  apply (@one_line_output self (Str suffix) GROUP_TAG false no_width Hs).
Qed.

End OneLine.

Lemma _multiline_one_line func t st :
  one_line func t ->
  exists st',
    _multiline func st = Normal st'
    /\ linebreakok st' = linebreakok st
    /\ exists suf, result st' = result st ++ suf /\ document_text suf = t.
Proof.
  intros H. rewrite _multiline_unfold.
  destruct (H (set_linebreakok false st) eq_refl)
    as (st1 & E & L & suf & R & T).
  rewrite E. eexists. split; [reflexivity|]. split; [reflexivity|].
  exists suf. split; [exact R|exact T].
Qed.

Lemma one_line_str host self fuel s :
  linelen self = None -> Forall (fun c => 0 <= c) s ->
  one_line (_colorize host self (S fuel) (PyStr s))
    (py "'" ++ _str_escape s ++ py "'").
Proof.
  intros Hw Hs. cbn [_colorize]. unfold _colorize_def.
  apply (@one_line_seq _ _ [] (py "'" ++ _str_escape s ++ py "'"));
    [apply one_line_add_score|].
  cbn [in_builtin_constants_raises in_builtin_constants]. unfold _colorize_str.
  apply one_line_read_linebreakok. rewrite andb_false_r.
  apply (@one_line_seq _ _ (py "'") (_str_escape s ++ py "'"));
    [apply (@one_line_output self (Str ([] ++ py "'")) QUOTE_TAG false Hw);
     reflexivity|].
  apply (@one_line_seq _ _ (_str_escape s) (py "'"));
    [|apply (@one_line_output self (Str (py "'")) QUOTE_TAG false Hw);
      reflexivity].
  unfold for_enumerate. cbn [for_enumerate_from Nat.ltb Nat.leb when].
  apply (@one_line_eq _ (_str_escape s ++ []) _ (app_nil_r _)).
  apply (@one_line_seq _ _ (_str_escape s) []); [|apply one_line_pass].
  apply (@one_line_seq _ _ [] (_str_escape s)); [apply one_line_pass|].
  apply (@one_line_output self (Str (_str_escape s)) STRING_TAG false Hw).
  apply no_control_no_newline, _str_escape_no_control. exact Hs.
Qed.

(** X19.  Without a width, a list whose elements each come out on one
    line comes out on one line, from any state: the bracket, the texts of
    the elements with a comma and a space between them, the bracket; the
    break flag is left as it was.  The same holds of a tuple in its
    parentheses. *)
Theorem X19_list_of_one_line_elements_is_one_line
  host self fuel elts texts st :
  linelen self = None ->
  Forall2 (fun x t => one_line (_colorize host self fuel x) t) elts texts ->
  (exists st',
     _colorize host self (S fuel) (PyList elts) st = Normal st'
     /\ linebreakok st' = linebreakok st
     /\ exists suf,
          result st' = result st ++ suf
          /\ document_text suf = py "[" ++ join (py ", ") texts ++ py "]")
  /\ (exists st',
        _colorize host self (S fuel) (PyTuple elts) st = Normal st'
        /\ linebreakok st' = linebreakok st
        /\ exists suf,
             result st' = result st ++ suf
             /\ document_text suf = py "(" ++ join (py ", ") texts ++ py ")").
Proof.
  intros Hw H.
  assert (G : forall prefix suffix,
            contains NL prefix = false -> contains NL suffix = false ->
            exists st',
              (add_score 1 ;;
               _multiline (_colorize_iter self (_colorize host self fuel) elts
                             (Some (Str prefix)) (Some (Str suffix)))) st
              = Normal st'
              /\ linebreakok st' = linebreakok st
              /\ exists suf,
                   result st' = result st ++ suf
                   /\ document_text suf
                      = prefix ++ join (py ", ") texts ++ suffix).
  { intros prefix suffix Hp Hs. unfold seq, add_score, modify.
    apply (@_multiline_one_line _ _ (set_score (score st + 1) st)).
    apply _colorize_iter_one_line; assumption. }
  split; cbn [_colorize]; unfold _colorize_def; cbn [in_builtin_constants_raises in_builtin_constants];
    apply G; reflexivity.
Qed.

Lemma X19_witness :
  (exists st',
     _colorize no_library
       {| linelen := None; maxlines := 7; self_linebreakok := false |} 2
       (PyList [PyStr (py "a"); PyStr (py "b")]) new_state = Normal st'
     /\ linebreakok st' = linebreakok new_state
     /\ exists suf,
          result st' = result new_state ++ suf
          /\ document_text suf
             = py "[" ++ join (py ", ")
                           [py "'" ++ _str_escape (py "a") ++ py "'";
                            py "'" ++ _str_escape (py "b") ++ py "'"]
                  ++ py "]")
  /\ (exists st',
        _colorize no_library
          {| linelen := None; maxlines := 7; self_linebreakok := false |} 2
          (PyTuple [PyStr (py "a"); PyStr (py "b")]) new_state = Normal st'
        /\ linebreakok st' = linebreakok new_state
        /\ exists suf,
             result st' = result new_state ++ suf
             /\ document_text suf
                = py "(" ++ join (py ", ")
                              [py "'" ++ _str_escape (py "a") ++ py "'";
                               py "'" ++ _str_escape (py "b") ++ py "'"]
                     ++ py ")").
Proof.
  apply (@X19_list_of_one_line_elements_is_one_line no_library
           {| linelen := None; maxlines := 7; self_linebreakok := false |}
           1%nat [PyStr (py "a"); PyStr (py "b")]
           [py "'" ++ _str_escape (py "a") ++ py "'";
            py "'" ++ _str_escape (py "b") ++ py "'"] new_state);
    [reflexivity|].
  repeat constructor;
    apply one_line_str; try reflexivity; repeat constructor; simpl; lia.
Defined.

Section OneLineDict.

Variable self : PyvalColorizer.
Variable self_colorize : pyval -> M.

Hypothesis no_width : linelen self = None.

Lemma one_line_item item tt :
  one_line (self_colorize (fst item)) (fst tt) ->
  one_line (self_colorize (snd item)) (snd tt) ->
  one_line
    (append WORD_BREAK_OPPORTUNITY ;;
     self_colorize (fst item) ;;
     _output self (S_ ": ") COLON_TAG false ;;
     self_colorize (snd item))
    (fst tt ++ py ": " ++ snd tt).
Proof.
  intros Hk Hv.
  apply (@one_line_seq _ _ [] (fst tt ++ py ": " ++ snd tt));
    [apply one_line_word_break|].
  apply one_line_seq; [exact Hk|].
  apply one_line_seq; [|exact Hv].
  apply (@one_line_output self (S_ ": ") COLON_TAG false no_width).
  reflexivity.
Qed.

Lemma one_line_later_items indent :
  forall items texts,
    Forall2 (fun item tt =>
               one_line (self_colorize (fst item)) (fst tt)
               /\ one_line (self_colorize (snd item)) (snd tt)) items texts ->
    forall i,
      one_line
        (for_enumerate_from (S i)
           (fun i (item : pyval * pyval) =>
              when (1 <=? i)%nat
                (let* linebreakok_ := linebreakok in
                 if linebreakok_ then
                   _output self (S_ ",") COMMA_TAG false ;;
                   _output self (Str ([NL] ++ spaces indent)) None false
                 else
                   _output self (S_ ", ") COMMA_TAG false) ;;
              append WORD_BREAK_OPPORTUNITY ;;
              self_colorize (fst item) ;;
              _output self (S_ ": ") COLON_TAG false ;;
              self_colorize (snd item)) items)
        (flat_map (fun u => py ", " ++ u)
           (map (fun tt => fst tt ++ py ": " ++ snd tt) texts)).
Proof.
  intros items texts H.
  induction H as [|item tt items texts [Hk Hv] Hr IH]; intros i.
  - apply one_line_pass.
  - cbn [for_enumerate_from flat_map map]. apply one_line_seq; [|apply IH].
    cbn [Nat.leb when].
    apply one_line_seq; [|apply one_line_item; assumption].
    apply one_line_read_linebreakok.
    apply (@one_line_output self (S_ ", ") COMMA_TAG false no_width).
    reflexivity.
Qed.

Lemma _colorize_dict_one_line items texts :
  Forall2 (fun item tt =>
             one_line (self_colorize (fst item)) (fst tt)
             /\ one_line (self_colorize (snd item)) (snd tt)) items texts ->
  one_line
    (_colorize_dict self self_colorize items (S_ "{") (S_ "}"))
    (py "{" ++ join (py ", ")
                 (map (fun tt => fst tt ++ py ": " ++ snd tt) texts)
       ++ py "}").
Proof.
  intros H. unfold _colorize_dict.
  apply one_line_seq;
    [apply (@one_line_output self (S_ "{") GROUP_TAG false no_width);
     reflexivity|].
  apply one_line_read. intros indent.
  apply one_line_seq;
    [|apply (@one_line_output self (S_ "}") GROUP_TAG false no_width);
      reflexivity].
  destruct H as [|item tt items texts [Hk Hv] Hr].
  - apply one_line_pass.
  - cbn [map]. rewrite join_cons. unfold for_enumerate.
    cbn [for_enumerate_from].
    apply one_line_seq; [|apply one_line_later_items; exact Hr].
    cbn [Nat.leb when].
    apply (@one_line_seq _ _ [] (fst tt ++ py ": " ++ snd tt));
      [apply one_line_pass|].
    apply one_line_item; assumption.
Qed.

End OneLineDict.

(** X20.  Without a width, a dict whose keys and values each come out on
    one line comes out on one line, from any state: the braces around the
    items, a colon and a space between a key and its value, a comma and a
    space between the items; the break flag is left as it was. *)
Theorem X20_dict_of_one_line_items_is_one_line
  host self fuel items texts st :
  linelen self = None ->
  Forall2 (fun item tt =>
             one_line (_colorize host self fuel (fst item)) (fst tt)
             /\ one_line (_colorize host self fuel (snd item)) (snd tt))
          items texts ->
  exists st',
    _colorize host self (S fuel) (PyDict items) st = Normal st'
    /\ linebreakok st' = linebreakok st
    /\ exists suf,
         result st' = result st ++ suf
         /\ document_text suf
            = py "{" ++ join (py ", ")
                          (map (fun tt => fst tt ++ py ": " ++ snd tt) texts)
                 ++ py "}".
Proof.
  intros Hw H. cbn [_colorize]. unfold _colorize_def.
  cbn [in_builtin_constants_raises in_builtin_constants]. unfold seq, add_score, modify.
  apply (@_multiline_one_line _ _ (set_score (score st + 1) st)).
  apply _colorize_dict_one_line; assumption.
Qed.

Lemma X20_witness :
  exists st',
    _colorize no_library
      {| linelen := None; maxlines := 7; self_linebreakok := false |} 2
      (PyDict [(PyStr (py "a"), PyStr (py "b"));
               (PyStr (py "c"), PyStr (py "d"))]) new_state = Normal st'
    /\ linebreakok st' = linebreakok new_state
    /\ exists suf,
         result st' = result new_state ++ suf
         /\ document_text suf
            = py "{" ++ join (py ", ")
                          (map (fun tt => fst tt ++ py ": " ++ snd tt)
                             [(py "'" ++ _str_escape (py "a") ++ py "'",
                               py "'" ++ _str_escape (py "b") ++ py "'");
                              (py "'" ++ _str_escape (py "c") ++ py "'",
                               py "'" ++ _str_escape (py "d") ++ py "'")])
                 ++ py "}".
Proof.
  apply (@X20_dict_of_one_line_items_is_one_line no_library
           {| linelen := None; maxlines := 7; self_linebreakok := false |}
           1%nat [(PyStr (py "a"), PyStr (py "b"));
                  (PyStr (py "c"), PyStr (py "d"))]
           [(py "'" ++ _str_escape (py "a") ++ py "'",
             py "'" ++ _str_escape (py "b") ++ py "'");
            (py "'" ++ _str_escape (py "c") ++ py "'",
             py "'" ++ _str_escape (py "d") ++ py "'")] new_state);
    [reflexivity|].
  repeat constructor;
    apply one_line_str; try reflexivity; repeat constructor; simpl; lia.
Defined.

(** *** Compiled patterns *)

Lemma document_text_literals s :
  document_text (map (fun c => Text (literal_str c)) s)
  = flat_map literal_str s.
Proof.
  induction s as [|c s IH]; [reflexivity|].
  cbn [map flat_map]. change (document_text (?n :: ?l))
    with (astext n ++ document_text l).
  rewrite IH. reflexivity.
Qed.

Lemma one_line_literals self fuel s groups :
  linelen self = None ->
  Forall (fun c => 0 <= c <= 0x10ffff) s ->
  one_line (_colorize_re_tree self (S fuel) (map LITERAL s) true groups)
    (flat_map literal_str s).
Proof.
  intros Hw Hs st Hl. rewrite _colorize_re_tree_literals by assumption.
  eexists. split; [reflexivity|]. split; [exact Hl|].
  eexists. split; [reflexivity|]. apply document_text_literals.
Qed.

Lemma colorize_inline_one_line host fuel pyval t :
  one_line
    (_colorize host
       {| linelen := None; maxlines := 7; self_linebreakok := false |}
       fuel pyval) t ->
  exists r,
    colorize_inline_pyval host fuel pyval = Returns r
    /\ is_complete r = true
    /\ document_text (document r) = t.
Proof.
  intros H. unfold colorize_inline_pyval. rewrite colorize_initial.
  destruct (H (initial_state
                 {| linelen := None; maxlines := 7; self_linebreakok := false |})
              eq_refl) as (st' & E & _ & suf & R & T).
  rewrite E. eexists. split; [reflexivity|]. split; [reflexivity|].
  simpl. simpl in R. rewrite R. exact T.
Qed.

Lemma _colorize_re_one_line host self fuel pat decoded flags flags_text s
  groupdict :
  linelen self = None ->
  Forall (fun c => 0 <= c <= 0x10ffff) s ->
  match pat with
  | Str p => Some p
  | Bytes b => utf8_decode b
  end = Some decoded ->
  sre_parse_parse host (PyStr decoded) flags
  = parse_returns (map LITERAL s) groupdict ->
  one_line (_colorize_re_flags self flags) flags_text ->
  one_line (_colorize host self (S (S fuel)) (PyRePattern pat flags))
    (py "re.compile(r'" ++ flags_text ++ flat_map literal_str s ++ py "')").
Proof.
  intros Hw Hs Hd Hp Hf. cbn [_colorize]. unfold _colorize_def.
  apply (@one_line_seq _ _ []
           (py "re.compile(r'" ++ flags_text ++ flat_map literal_str s
              ++ py "')"));
    [apply one_line_add_score|].
  cbn [in_builtin_constants_raises in_builtin_constants]. unfold _colorize_re.
  apply one_line_seq;
    [apply (@one_line_output self (S_ "re.compile(r'") None false Hw);
     reflexivity|].
  apply one_line_seq; [exact Hf|].
  apply one_line_seq;
    [|apply (@one_line_output self (S_ "')") None false Hw); reflexivity].
  unfold _colorize_re_pattern.
  destruct pat as [p|b].
  - injection Hd as ->. rewrite Hp. apply one_line_literals; assumption.
  - rewrite Hd. cbn [option_map]. rewrite Hp.
    apply one_line_literals; assumption.
Qed.

(** X21.  An inline compiled pattern that was compiled without flags and
    that the parser reads as a sequence of literals comes out complete and
    on one line: [re.compile(r'] and [')] around the texts of the
    literals.  A pattern compiled from a str carries the flag UNICODE
    (32), which comes out first, as [(?u)]; a pattern compiled from bytes
    carries no flag. *)
Theorem X21_inline_pattern_of_literals host fuel pat s groupdict :
  Forall (fun c => 0 <= c <= 0x10ffff) s ->
  (sre_parse_parse host (PyStr pat) 32 = parse_returns (map LITERAL s) groupdict ->
   exists r,
     colorize_inline_pyval host (S (S fuel)) (PyRePattern (Str pat) 32)
     = Returns r
     /\ is_complete r = true
     /\ document_text (document r)
        = py "re.compile(r'(?u)" ++ flat_map literal_str s ++ py "')")
  /\ (forall b,
        utf8_decode b = Some pat ->
        sre_parse_parse host (PyStr pat) 0
        = parse_returns (map LITERAL s) groupdict ->
        exists r,
          colorize_inline_pyval host (S (S fuel)) (PyRePattern (Bytes b) 0)
          = Returns r
          /\ is_complete r = true
          /\ document_text (document r)
             = py "re.compile(r'" ++ flat_map literal_str s ++ py "')").
Proof.
  intros Hs.
  set (self := {| linelen := None; maxlines := 7; self_linebreakok := false |}).
  assert (Hw : linelen self = None) by reflexivity.
  split.
  - intros Hp. apply colorize_inline_one_line.
    apply (@one_line_eq _
             (py "re.compile(r'" ++ py "(?u)" ++ flat_map literal_str s
                ++ py "')")); [reflexivity|].
    apply (@_colorize_re_one_line host self fuel (Str pat) pat 32 (py "(?u)")
             s groupdict Hw Hs eq_refl Hp).
    apply (@one_line_output self (Str (py "(?u)")) RE_FLAGS_TAG false Hw).
    reflexivity.
  - intros b Hd Hp. apply colorize_inline_one_line.
    apply (@_colorize_re_one_line host self fuel (Bytes b) pat 0 []
             s groupdict Hw Hs Hd Hp).
    apply one_line_pass.
Qed.

Lemma X21_witness :
  exists r,
    colorize_inline_pyval
      (answering (py "a\.") 32 (parse_returns (map LITERAL [97; 46]) [])
         no_library)
      2 (PyRePattern (Str (py "a\.")) 32)
    = Returns r
    /\ is_complete r = true
    /\ document_text (document r)
       = py "re.compile(r'(?u)" ++ flat_map literal_str [97; 46] ++ py "')".
Proof.
  apply (proj1 (@X21_inline_pattern_of_literals
                  (answering (py "a\.") 32
                     (parse_returns (map LITERAL [97; 46]) []) no_library)
                  0%nat (py "a\.") [97; 46] []
                  ltac:(repeat constructor; lia))).
  reflexivity.
Defined.
